(** * walkngo: the tree walker and the C printer

    A shallow embedding of [walker/walker.go] (the AST visitor) and of
    [printer/cprinter.go] (the C/C++ backend), with the properties of
    the translation stated over them. *)

From Stdlib Require Import ZArith List Bool Ascii String Lia.
From Stdlib Require Import Numbers.DecimalString Numbers.DecimalZ Numbers.DecimalFacts.
Import ListNotations.

Open Scope string_scope.
Open Scope Z_scope.

(** ** Go's [int] *)

(** A Go [int] is a 64-bit two's complement integer: arithmetic wraps. *)
Definition wrap (z : Z) : Z := (z + 2 ^ 63) mod 2 ^ 64 - 2 ^ 63.

Definition int_range (z : Z) : Prop := - 2 ^ 63 <= z < 2 ^ 63.

(** [strconv.Itoa]: the decimal spelling of an integer. *)
Definition Itoa (z : Z) : string := NilZero.string_of_int (Z.to_int z).

(** ** The [strings] package, over byte strings *)

Module strings.

(** [strings.Join(l, sep)]. *)
Definition Join (l : list string) (sep : string) : string := String.concat sep l.

(** [strings.Repeat(s, count)] panics if [count] is negative or if
    the length [len(s) * count] of the result overflows an [int]. *)
Fixpoint repeat_nat (s : string) (n : nat) : string :=
  match n with
  | O => ""
  | S n' => s ++ repeat_nat s n'
  end.

Definition Repeat (s : string) (count : Z) : option string :=
  if count <? 0 then None
  else if 2 ^ 63 - 1 <? Z.of_nat (String.length s) * count then None
  else Some (repeat_nat s (Z.to_nat count)).

Definition HasPrefix (s pre : string) : bool := String.prefix pre s.

(** [strings.Index(s, sub)]: the first position of [sub], or -1. *)
Fixpoint Index_from (s sub : string) (i : Z) : Z :=
  if String.prefix sub s then i
  else match s with
       | EmptyString => -1
       | String _ s' => Index_from s' sub (i + 1)
       end.

Definition Index (s sub : string) : Z := Index_from s sub 0.

Definition Contains (s sub : string) : bool := 0 <=? Index s sub.

(** [strings.LastIndex(s, sub)]: the last position of [sub], or -1. *)
Fixpoint LastIndex_from (s sub : string) (i : Z) : Z :=
  match s with
  | EmptyString => if String.prefix sub "" then i else -1
  | String _ s' =>
      let r := LastIndex_from s' sub (i + 1) in
      if 0 <=? r then r else if String.prefix sub s then i else -1
  end.

Definition LastIndex (s sub : string) : Z := LastIndex_from s sub 0.

Definition HasSuffix (s suf : string) : bool :=
  let n := String.length s in
  let m := String.length suf in
  if (m <=? n)%nat then String.eqb (String.substring (n - m) m s) suf else false.

(** The slices [s[:i]] and [s[i:]] (the indices come from [Index] and
    [LastIndex], so they are within the string). *)
Definition slice_to (s : string) (i : Z) : string :=
  String.substring 0 (Z.to_nat i) s.

Definition slice_from (s : string) (i : Z) : string :=
  String.substring (Z.to_nat i) (String.length s - Z.to_nat i) s.

(** Membership of a byte in a cutset. *)
Fixpoint in_cutset (c : ascii) (cutset : string) : bool :=
  match cutset with
  | EmptyString => false
  | String d cs => if Ascii.eqb c d then true else in_cutset c cs
  end.

(** [strings.TrimRight(s, cutset)]: drop every trailing byte that is in
    the cutset. *)
Fixpoint TrimRight (s cutset : string) : string :=
  match s with
  | EmptyString => EmptyString
  | String c s' =>
      match TrimRight s' cutset with
      | EmptyString => if in_cutset c cutset then EmptyString else String c EmptyString
      | t => String c t
      end
  end.

(** A string of the given bytes. *)
Fixpoint bytes (l : list nat) : string :=
  match l with
  | [] => EmptyString
  | b :: l' => String (ascii_of_nat b) (bytes l')
  end.

(** White space as [unicode.IsSpace] defines it, each code point in its
    UTF-8 encoding: U+0009 to U+000D, U+0020, U+0085, U+00A0, U+1680,
    U+2000 to U+200A, U+2028, U+2029, U+202F, U+205F and U+3000. *)
Definition white_space : list string :=
  map bytes
    [ [9]; [10]; [11]; [12]; [13]; [32];
      [194; 133]; [194; 160];
      [225; 154; 128];
      [226; 128; 128]; [226; 128; 129]; [226; 128; 130]; [226; 128; 131];
      [226; 128; 132]; [226; 128; 133]; [226; 128; 134]; [226; 128; 135];
      [226; 128; 136]; [226; 128; 137]; [226; 128; 138];
      [226; 128; 168]; [226; 128; 169]; [226; 128; 175];
      [226; 129; 159];
      [227; 128; 128] ]%nat.

(** [s] is the encoding of one white space code point. *)
Definition IsSpace (s : string) : bool := existsb (String.eqb s) white_space.

(** The width in bytes of the white space code point [s] starts with,
    and 0 when it starts with none (the code point [s] starts with is
    decoded by [utf8.DecodeRuneInString]; bytes that are no valid
    encoding decode to the replacement character, which is no space). *)
Definition space_width (s : string) : nat :=
  match find (fun sp => String.prefix sp s) white_space with
  | Some sp => String.length sp
  | None => O
  end.

(** [strings.TrimLeftFunc(s, unicode.IsSpace)]: white space code points
    are dropped from the left, until the first one that is none;
    [skip] counts the bytes left of the code point being dropped. *)
Fixpoint TrimLeftSpace_skip (s : string) (skip : nat) : string :=
  match s with
  | EmptyString => EmptyString
  | String c s' =>
      match skip with
      | S k => TrimLeftSpace_skip s' k
      | O =>
          match space_width s with
          | O => s
          | S k => TrimLeftSpace_skip s' k
          end
      end
  end.

Definition TrimLeftSpace (s : string) : string := TrimLeftSpace_skip s 0.

(** [strings.TrimRightFunc(s, unicode.IsSpace)]: white space code points
    are dropped from the right (each found by
    [utf8.DecodeLastRuneInString]), until the last one that is none. *)
Fixpoint TrimRightSpace (s : string) : string :=
  match s with
  | EmptyString => EmptyString
  | String c s' =>
      let kept := String c (TrimRightSpace s') in
      if IsSpace kept then EmptyString else kept
  end.

(** [strings.TrimSpace(s)]: [s] without leading and trailing white
    space, as defined by Unicode. *)
Definition TrimSpace (s : string) : string := TrimRightSpace (TrimLeftSpace s).

(** [strings.SplitN(s, sep, 2)]: at most two parts, split at the first
    separator. *)
Definition SplitN2 (s sep : string) : list string :=
  let i := Index s sep in
  if i <? 0 then [s]
  else [slice_to s i; slice_from s (i + Z.of_nat (String.length sep))].

(** [strings.Replace(s, old, new, -1)]: every occurrence of [old], from
    the left and without overlap, becomes [new]; an empty [old] matches
    before every byte and at the end. *)
Fixpoint Replace_skip (s old new : string) (skip : nat) : string :=
  match s with
  | EmptyString => EmptyString
  | String c s' =>
      match skip with
      | S k => Replace_skip s' old new k
      | O =>
          if String.prefix old s
          then new ++ Replace_skip s' old new (String.length old - 1)
          else String c (Replace_skip s' old new 0)
      end
  end.

Fixpoint Replace_empty (s new : string) : string :=
  match s with
  | EmptyString => new
  | String c s' => new ++ String c (Replace_empty s' new)
  end.

Definition Replace (s old new : string) : string :=
  match old with
  | EmptyString => Replace_empty s new
  | _ => Replace_skip s old new 0
  end.

End strings.

(** ** Package [printer]: constants and the [Printer] interface *)

Definition NL : string := String "010"%char EmptyString.
Definition UP : Z := 1.
Definition DOWN : Z := -1.

(** The [Printer] interface, as the walker uses it: one constructor per
    method, with the arguments of a call. *)
Module Printer.

Inductive Method : Type :=
| PrintPackage (name : string)
| PrintImport (name path : string)
| PrintType (name typedef : string)
| PrintValue (vtype names typedef values : string)
| PrintFunc (receiver name params results : string)
| Print (values : list string)
| PrintLevel (values : list string)
| UpdateLevel (delta : Z)
| PrintIf (init cond : string)
| SameLine
| PrintElse
| PrintFor (init cond post : string)
| PrintSwitch (init expr : string)
| PrintStmt (stmt expr : string)
| PrintEmpty.

(** An implementation of the interface over a state [PS]: a call may
    panic ([None]); otherwise it yields the new state and the text it
    wrote to its writer. *)
Class Printer (PS : Type) : Type :=
  { invoke : Method -> PS -> option (PS * string) }.

End Printer.

(** ** The C printer ([printer/cprinter.go]) *)

Module cprinter.

Definition NIL : string := "nil".
Definition NULL : string := "nullptr".
Definition IOTA : string := "iota".

(** Modelled from the spec: the declaration of [BlockType] is not part of
    the sources; these are the block kinds the printer names (a constant
    group, a variable group, a body of code). *)
Inductive BlockType : Type := CONST | VAR | CODE.

(** Modelled from the spec: the declaration of [FieldType] is not part of
    the sources; these are the field kinds [FormatPair] tells apart. *)
Inductive FieldType : Type := METHOD | RESULT | PARAM | FIELD.

(** Modelled from the spec: [Pair] is an interface with the two getters
    [Name()] and [Value()]; its declaration is not part of the sources. *)
Record Pair : Type := mkPair { Name : string; Value : string }.

(** [CContext] is the context for a (function) block.  The chain through
    [next] is kept as the list of contexts, innermost first; the [nil]
    pointer is the empty list. *)
Record CContext : Type := mkCContext {
  iota : Z;                  (* incremented when 'const n = iota' or 'const n' *)
  deferred : Z;              (* used to generate unique names for "defer" callbacks *)
  receiver : string;         (* the name of the receiver, to be converted to "this" *)
  ret_definitions : string;  (* used to define return variables *)
  ret_values : string        (* used to "fill" empty returns *)
}.

(** [&CContext{next: p.ctx}]: every field at its zero value. *)
Definition new_context : CContext := mkCContext 0 0 "" "" "".

(** The printer.  The writer [w] is the sink the text goes to: every
    operation below yields the text it writes to it. *)
Record CPrinter : Type := mkCPrinter {
  level : Z;
  sameline : bool;
  ctx : list CContext
}.

(** Operations on a printer: a panic is [None]; otherwise the result,
    the new printer and the text written. *)
Definition P (A : Type) : Type := CPrinter -> option (A * CPrinter * string).

Definition ret {A : Type} (a : A) : P A := fun p => Some (a, p, "").

Definition bind {A B : Type} (m : P A) (f : A -> P B) : P B :=
  fun p =>
    match m p with
    | None => None
    | Some (a, p1, o1) =>
        match f a p1 with
        | None => None
        | Some (b, p2, o2) => Some (b, p2, o1 ++ o2)
        end
    end.

Definition panic {A : Type} : P A := fun _ => None.

Declare Scope printer_scope.
Delimit Scope printer_scope with printer.
Notation "x <- m ;; k" := (bind m (fun x => k))
  (at level 61, m at next level, right associativity) : printer_scope.
Notation "m ;; k" := (bind m (fun _ => k))
  (at level 61, right associativity) : printer_scope.
Notation "' pat <- m ;; k" := (bind m (fun x => match x with pat => k end))
  (at level 61, pat pattern, m at next level, right associativity) : printer_scope.
Open Scope printer_scope.

(** [fmt.Fprint(p.w, s)]. *)
Definition Fprint (s : string) : P unit := fun p => Some (tt, p, s).

Definition get : P CPrinter := fun p => Some (p, p, "").
Definition put (p' : CPrinter) : P unit := fun _ => Some (tt, p', "").

(** [p.ctx.f]: a nil context panics. *)
Definition get_ctx : P CContext :=
  fun p => match ctx p with
           | [] => None
           | c :: _ => Some (c, p, "")
           end.

Definition set_ctx (c : CContext) : P unit :=
  fun p => match ctx p with
           | [] => None
           | _ :: next => Some (tt, mkCPrinter (level p) (sameline p) (c :: next), "")
           end.

Definition Selector (ctx : list CContext) (s : string) : string :=
  match ctx with
  | c :: _ => if String.eqb (receiver c) s then "this->" else s ++ "."
  | [] => s ++ "."
  end.

Definition Reset : P unit := put (mkCPrinter 0 false []).

Definition PushContext : P unit :=
  p <- get ;; put (mkCPrinter (level p) (sameline p) (new_context :: ctx p)).

Definition PopContext : P unit :=
  fun p => match ctx p with
           | [] => None
           | _ :: next => Some (tt, mkCPrinter (level p) (sameline p) next, "")
           end.

Definition UpdateLevel (delta : Z) : P unit :=
  p <- get ;; put (mkCPrinter (wrap (level p + delta)) (sameline p) (ctx p)).

Definition SameLine : P unit :=
  p <- get ;; put (mkCPrinter (level p) true (ctx p)).

Definition IsSameLine : P bool := p <- get ;; ret (sameline p).

Definition indent : P string :=
  p <- get ;;
  if sameline p then
    put (mkCPrinter (level p) false (ctx p)) ;; ret ""
  else
    match strings.Repeat "  " (level p) with
    | None => panic
    | Some s => ret s
    end.

Definition Print (values : list string) : P unit :=
  Fprint (strings.Join values " ").

Definition PrintLevel (term : string) (values : list string) : P unit :=
  i <- indent ;; Fprint (i ++ strings.Join values " " ++ term).

Definition PrintLevelIn (term : string) (values : list string) : P unit :=
  UpdateLevel (-1) ;;
  i <- indent ;; Fprint (i ++ strings.Join values " " ++ term) ;;
  UpdateLevel 1.

Definition strlen (s : string) : Z := Z.of_nat (String.length s).

Definition IsMultiValue (expr : string) : bool := strings.Contains expr ",".

(** [findMatch] finds the matching closing character given the opening
    character, with support for nesting. *)
Definition closing_of (ch : ascii) : ascii :=
  if Ascii.eqb ch "<" then ">"%char
  else if Ascii.eqb ch "[" then "]"%char
  else if Ascii.eqb ch "{" then "}"%char
  else if Ascii.eqb ch "(" then ")"%char
  else Ascii.zero.

Fixpoint findMatch_loop (s : string) (ch closing : ascii) (p cnt : Z) : Z * bool :=
  match s with
  | EmptyString => (0, false)
  | String c s' =>
      if Ascii.eqb c ch then findMatch_loop s' ch closing (p + 1) (cnt + 1)
      else if Ascii.eqb c closing then
        if cnt - 1 =? 0 then (p, true)
        else findMatch_loop s' ch closing (p + 1) (cnt - 1)
      else findMatch_loop s' ch closing (p + 1) cnt
  end.

Definition findMatch (s : string) (ch : ascii) : Z * bool :=
  let open := strings.Index s (String ch EmptyString) in
  if open <? 0 then (0, false)
  else findMatch_loop (strings.slice_from s open) ch (closing_of ch) open 0.

(** [strings.IndexAny(s, chars)]. *)
Fixpoint IndexAny_from (s chars : string) (i : Z) : Z :=
  match s with
  | EmptyString => -1
  | String c s' => if strings.in_cutset c chars then i else IndexAny_from s' chars (i + 1)
  end.

Definition byte_at (s : string) (i : Z) : option ascii := String.get (Z.to_nat i) s.

Definition is_digit_or_dot (c : ascii) : bool := strings.in_cutset c "0123456789.".

(** Guess type and return type and new value. *)
Definition GuessType (value : string) : string * string :=
  let vtype := "auto" in
  match value with
  | EmptyString => (vtype, value)
  | String c _ =>
      if Ascii.eqb c "'" then ("char", value)
      else if Ascii.eqb c (ascii_of_nat 34) then ("string", value)
      else if is_digit_or_dot c then
        if strings.Contains value "." || strings.Contains value "E"
        then ("float64", value) else ("int", value)
      else if String.eqb value "true" || String.eqb value "false" then ("bool", value)
      else if String.eqb value NIL || String.eqb value NULL then ("void*", value)
      else
        let after_map :=
          let i := IndexAny_from value "[({" 0 in
          if (0 <=? i) && (match byte_at value i with
                           | Some b => Ascii.eqb b "["
                           | None => false
                           end)
          then
            match findMatch value "[" with
            | (p, true) => (strings.slice_to value (p + 1), value)
            | _ => (vtype, value)
            end
          else (vtype, value) in
        if strings.HasPrefix value "map<" then
          match findMatch value "<" with
          | (p, true) => (strings.slice_to value (p + 1), value)
          | _ => after_map
          end
        else after_map
  end.

Definition getIdentifier (s : string) : string :=
  let i := IndexAny_from s "<[" 0 in
  if i <? 0 then s else strings.slice_to s i.

Definition FormatIdent (id : string) : P string :=
  if String.eqb id NIL then ret NULL
  else if String.eqb id IOTA then
    c <- get_ctx ;;
    set_ctx (mkCContext (wrap (iota c + 1)) (deferred c) (receiver c)
               (ret_definitions c) (ret_values c)) ;;
    ret (Itoa (iota c))
  else if String.eqb id "string" then ret "std::string"
  else ret id.

Definition FormatSelector (pname sel : string) (isObject : bool) : P string :=
  p <- get ;;
  if isObject then ret (Selector (ctx p) pname ++ sel)
  else ret (pname ++ "::" ++ sel).

Definition FieldType_eqb (a b : FieldType) : bool :=
  match a, b with
  | METHOD, METHOD | RESULT, RESULT | PARAM, PARAM | FIELD, FIELD => true
  | _, _ => false
  end.

Definition quoted (s : string) : string :=
  String (ascii_of_nat 34) (s ++ String (ascii_of_nat 34) EmptyString).

(** [FormatLiteral]: a raw string literal becomes an interpreted one.
    The slice [lit[1:len(lit)-1]] panics on a literal that is the
    opening back quote alone. *)
Definition FormatLiteral (lit : string) : option string :=
  match lit with
  | EmptyString => Some lit
  | String c _ =>
      if Ascii.eqb c "`" then
        if strlen lit - 1 <? 1 then None
        else
          let lit := strings.Replace (String.substring 1 (String.length lit - 2) lit)
                       (String (ascii_of_nat 34) EmptyString)
                       ("\\" ++ String (ascii_of_nat 34) EmptyString) in
          let lit := strings.Replace lit NL "\n" in
          Some (quoted lit)
      else Some lit
  end.

Definition FormatArray (len elt : string) : string := elt ++ "[" ++ len ++ "]".

Definition FormatCall (fun_ args : string) (isFuncLit : bool) : string :=
  let fun_ :=
    if strings.HasPrefix fun_ "time::" then
      (* need to rename, to avoid conflicts with C/C++ "time" :( *)
      "go_" ++ fun_
    else fun_ in
  if isFuncLit then "[](" ++ args ++ ")->" ++ fun_
  else fun_ ++ "(" ++ args ++ ")".

(** The result holds the verb [%s] where the name of the function (or
    nothing) goes. *)
Definition FormatFuncType (params results : string) (withFunc : bool) : string :=
  let results :=
    if strlen results =? 0 then "void"
    else if IsMultiValue results then "tuple<" ++ results ++ ">"
    else results in
  results ++ " %s(" ++ params ++ ")".

Section Printer.

(** The terminators and the list separator are constants declared with
    the [Printer] interface, outside these sources: they are taken as
    given. *)
Variables NONE SEMI COLON COMMA : string.

(** [fmt.Sprintf] at a format that is data of the program (a rendered
    function type holding a verb for its name). *)
Variable Sprintf : string -> list string -> string.

Definition Chop (line : string) : string := strings.TrimRight line COMMA.

Definition PrintBlockStart (b : BlockType) : P unit :=
  let open := match b with
              | CONST | VAR => "("
              | _ => "{"
              end in
  PrintLevel NL [open] ;;
  UpdateLevel UP ;;
  match b with
  | CODE =>
      c <- get_ctx ;;
      if 0 <? strlen (ret_definitions c) then
        PrintLevel NL [ret_definitions c] ;;
        (* this gets printed only once *)
        set_ctx (mkCContext (iota c) (deferred c) (receiver c) "" (ret_values c))
      else ret tt
  | _ => ret tt
  end.

Definition PrintBlockEnd (b : BlockType) : P unit :=
  let close := match b with
               | CONST | VAR => ")"
               | _ => "}"
               end in
  UpdateLevel DOWN ;;
  PrintLevel NONE [close].

Definition PrintPackage (name : string) : P unit :=
  PrintLevel NL ["//package"; name] ;;
  PrintLevel NL ["#include <go.h>"].

Definition PrintImport (name path : string) : P unit :=
  PrintLevel NL ["//import"; name; path] ;;
  if String.eqb path (quoted "fmt") then PrintLevel NL ["#include <fmt.h>"]
  else if String.eqb path (quoted "sync") then PrintLevel NL ["#include <sync.h>"]
  else if String.eqb path (quoted "errors") then PrintLevel NL ["#include <errors.h>"]
  else if String.eqb path (quoted "time") then PrintLevel NL ["#include <go_time.h>"]
  else ret tt.

Definition PrintType (name typedef : string) : P unit :=
  if strings.Contains typedef "%" then
    (* FuncType *)
    PrintLevel SEMI ["typedef"; Sprintf typedef ["(" ++ name ++ ")"]]
  else
    PrintLevel SEMI ["typedef"; typedef; name].

Definition PrintValue (vtype typedef names values : string) (ntuple vtuple : bool) : P unit :=
  '(vtype, values) <-
     (if String.eqb vtype "var" then ret ("", values)
      else if String.eqb vtype "const" && (strlen values =? 0) then
        v <- FormatIdent IOTA ;; ret (vtype, v)
      else ret (vtype, values)) ;;
  let '(typedef, names, values) :=
    if strlen typedef =? 0 then
      let '(t, v) := GuessType values in (t, names, v)
    else if strings.Contains typedef "[" then
      let i := strings.Index typedef "[" in
      (strings.slice_to typedef i, names ++ strings.slice_from typedef i, values)
    else (typedef, names, values) in
  let names :=
    if ntuple && (0 <? strlen values) then "tie(" ++ names ++ ")" else names in
  PrintLevel NONE [vtype; typedef; names] ;;
  (if 0 <? strlen values then
     let values := if vtuple then "make_tuple(" ++ values ++ ")" else values in
     Print [" ="; values]
   else ret tt) ;;
  Print [";" ++ NL].

Definition PrintStmt (stmt expr : string) : P unit :=
  if String.eqb stmt "go" then
    (* start a goroutine (or a thread) *)
    PrintLevel SEMI ["Goroutine([](){ " ++ expr ++ "; })"]
  else if String.eqb stmt "defer" then
    c <- get_ctx ;;
    PrintLevel SEMI ["Deferred defer" ++ Itoa (deferred c) ++ "([](){ " ++ expr ++ "; })"] ;;
    set_ctx (mkCContext (iota c) (wrap (deferred c + 1)) (receiver c)
               (ret_definitions c) (ret_values c))
  else if 0 <? strlen stmt then
    PrintLevel SEMI [stmt; expr]
  else
    PrintLevel SEMI [expr].

Definition PrintReturn (expr : string) (tuple : bool) : P unit :=
  expr <-
    (if strlen expr =? 0 then
       c <- get_ctx ;;
       if 0 <? strlen (ret_values c) then ret (Chop (ret_values c)) else ret expr
     else ret expr) ;;
  let expr := if tuple then "make_tuple(" ++ expr ++ ")" else expr in
  PrintStmt "return" expr.

Definition PrintFunc (receiver name params results : string) : P unit :=
  '(receiver, params, results) <-
    (if (strlen receiver =? 0) && (strlen params =? 0) && (strlen results =? 0)
        && String.eqb name "main"
     then
       (* the "main" *)
       ret (receiver, "int argc, char **argv", "int")
     else
       let results :=
         if strlen results =? 0 then "void"
         else if IsMultiValue results then "tuple<" ++ results ++ ">"
         else results in
       if 0 <? strlen receiver then
         match strings.SplitN2 receiver " " with
         | [part0; part1] =>
             c <- get_ctx ;;
             set_ctx (mkCContext (iota c) (deferred c) part1
                        (ret_definitions c) (ret_values c)) ;;
             ret ("/* " ++ part1 ++ " */ " ++ strings.TrimRight part0 "*" ++ "::",
                  params, results)
         | _ => panic
         end
       else ret (receiver, params, results)) ;;
  Fprint (results ++ " " ++ receiver ++ name ++ "(" ++ params ++ ") ").

Definition PrintFor (init cond post : string) : P unit :=
  let init := strings.TrimRight init SEMI in
  let post := strings.TrimRight post SEMI in
  let onlycond := (strlen init =? 0) && (strlen post =? 0) in
  let cond := if strlen cond =? 0 then "true" else cond in
  (if onlycond then
     (* make it a while *)
     PrintLevel NONE ["while ("; cond]
   else
     PrintLevel NONE ["for ("] ;;
     (if 0 <? strlen init then Print [init] else ret tt) ;;
     Print ["; " ++ cond ++ ";"] ;;
     (if 0 <? strlen post then Print [" " ++ post] else ret tt)) ;;
  Print [") "].

Definition PrintRange (key value expr : string) : P unit :=
  let '(key, value) := if String.eqb key "_" then (value, "") else (key, value) in
  PrintLevel NONE ["for (auto"; key] ;;
  (if 0 <? strlen value then Print [","; value] else ret tt) ;;
  Print [":"; expr; ") "].

Definition PrintSwitch (init expr : string) : P unit :=
  (if 0 <? strlen init then PrintLevel SEMI [init] else ret tt) ;;
  PrintLevel NONE ["switch ("; expr; ")"].

Definition PrintCase (expr : string) : P unit :=
  if 0 <? strlen expr then PrintLevel COLON ["case"; expr]
  else PrintLevel NL ["default:"].

Definition PrintEndCase : P unit := PrintLevel SEMI ["break"].

Definition PrintIf (init cond : string) : P unit :=
  (if 0 <? strlen init then PrintLevel NONE [init ++ " if "]
   else PrintLevel NONE ["if "]) ;;
  Print ["("; cond; ") "].

Definition PrintElse : P unit := Print [" else "].

Definition PrintEmpty : P unit := PrintLevel SEMI [""].

Definition PrintAssignment (lhs op rhs : string) (ltuple rtuple : bool) : P unit :=
  let '(lhs, op, rhs) :=
    if String.eqb op ":=" then
      let '(rtype, rvalue) := GuessType rhs in (rtype ++ " " ++ lhs, "=", rvalue)
    else (lhs, op, rhs) in
  let lhs := if ltuple then "tie(" ++ lhs ++ ")" else lhs in
  let rhs := if rtuple then "make_tuple(" ++ rhs ++ ")" else rhs in
  PrintLevel SEMI [lhs; op; rhs].

Definition FormatPair (v : Pair) (t : FieldType) : P string :=
  let name := Name v in
  let value := Value v in
  let '(name, value) :=
    if strings.HasSuffix value "]" then
      let i := strings.LastIndex value "[" in
      if i <? 0 then
        (* it should be an error *)
        (name, value)
      else
        let arr := strings.slice_from value i in
        let value := strings.slice_to value i in
        if 0 <? strlen name then (name ++ arr, value) else (name, value ++ arr)
    else (name, value) in
  let value :=
    if strings.HasPrefix value "*" then
      let i := strings.LastIndex value "*" + 1 in
      strings.slice_from value i ++ strings.slice_to value i
    else value in
  r <-
    (match t with
     | METHOD =>
         if strlen name =? 0 then ret ("// extends " ++ value)
         else ret ("virtual " ++ Sprintf value [name])
     | _ =>
         if FieldType_eqb t RESULT && (0 <? strlen name) then
           p <- get ;;
           match ctx p with
           | c :: _ =>
               set_ctx (mkCContext (iota c) (deferred c) (receiver c)
                          (ret_definitions c ++ value ++ " " ++ name ++ ";")
                          (ret_values c ++ name ++ ", "))
           | [] => ret tt
           end ;;
           ret (value ++ " /* " ++ name ++ " */")
         else if FieldType_eqb t PARAM && strings.Contains value "%s" then
           ret (Sprintf value [name])
         else if FieldType_eqb t FIELD && (strlen name =? 0) then
           ret (getIdentifier value ++ " " ++ value)
         else if (0 <? strlen name) && (0 <? strlen value) then
           ret (value ++ " " ++ name)
         else ret (value ++ name)
     end) ;;
  match t with
  | METHOD | FIELD => i <- indent ;; ret (i ++ r ++ SEMI)
  | _ => ret (r ++ COMMA)
  end.

Definition PrintSend (ch value : string) : P unit :=
  PrintLevel SEMI [ch ++ ".Send(" ++ value ++ ")"].

Definition FormatFuncLit (ftype body : string) : string :=
  Sprintf (ftype ++ "%s") [""; body].

End Printer.

End cprinter.

(** ** The syntax tree ([go/ast]) *)

(** The induction principle of the tree goes through the lists, options
    and pairs it is nested in. *)
Scheme All for list.
Scheme All for option.
Scheme All for prod.

Module ast.

(** A token, by its spelling ([Tok.String()]). *)
Definition Token : Type := string.

(** [ast.ChanDir]. *)
Definition SEND : Z := 1.
Definition RECV : Z := 2.

(** The nodes of the tree.  A field holding an interface value
    ([ast.Expr], [ast.Stmt], [ast.Decl]) that may be [nil] is an
    [option]; a [*ast.FieldList] is an optional list of fields, each a
    list of names and a type; an [*ast.Ident] is its name. *)
Inductive Node : Type :=
(* the file, declarations and specs *)
| File (Name : string) (Decls : list Node)
| ImportSpec (Name : option string) (Path : string)
| TypeSpec (Name : string) (Type_ : option Node)
| ValueSpec (Names : list string) (Type_ : option Node) (Values : list Node)
| GenDecl (Tok : Token) (Specs : list Node)
| FuncDecl (Recv : option (list (list string * option Node))) (Name : string)
    (Params Results : option (list (list string * option Node)))
    (Body : option Node)
| BadDecl
(* statements *)
| BlockStmt (List_ : list Node)
| IfStmt (Init Cond : option Node) (Body : Node) (Else : option Node)
| ForStmt (Init Cond Post : option Node) (Body : Node)
| SwitchStmt (Init Tag : option Node) (Body : Node)
| TypeSwitchStmt (Init Assign : option Node) (Body : Node)
| CaseClause (List_ : list Node) (Body : list Node)
| RangeStmt (Key Value X : option Node) (Body : Node)
| BranchStmt (Tok : Token) (Label : option string)
| DeferStmt (Call : Node)
| GoStmt (Call : Node)
| ReturnStmt (Results : list Node)
| ExprStmt (X : option Node)
| DeclStmt (Decl : option Node)
| AssignStmt (Lhs : list Node) (Tok : Token) (Rhs : list Node)
| IncDecStmt (X : option Node) (Tok : Token)
| EmptyStmt
| LabeledStmt (Label : string) (Stmt : Node)
| SendStmt (Chan Value : Node)
| SelectStmt (Body : Node)
| CommClause (Comm : option Node) (Body : list Node)
| BadStmt
(* expressions and types *)
| Ident (Name : string)
| StarExpr (X : option Node)
| ArrayType (Len Elt : option Node)
| MapType (Key Value : option Node)
| InterfaceType (Methods : option (list (list string * option Node)))
| StructType (Fields : option (list (list string * option Node)))
| ChanType (Dir : Z) (Value : option Node)
| FuncType (Params Results : option (list (list string * option Node)))
| BasicLit (Value : string)
| CompositeLit (Type_ : option Node) (Elts : list Node)
| Ellipsis (Elt : option Node)
| UnaryExpr (Op : Token) (X : option Node)
| BinaryExpr (X : option Node) (Op : Token) (Y : option Node)
| IndexExpr (X Index : option Node)
| KeyValueExpr (Key Value : option Node)
| SliceExpr (X Low High Max : option Node)
| SelectorExpr (X : option Node) (Sel : string)
| CallExpr (Fun : option Node) (Args : list Node) (Ellipsis_pos : Z)
| TypeAssertExpr (X Type_ : option Node)
| ParenExpr (X : option Node)
| FuncLit (Type_ : Node) (Body : Node)
| BadExpr.

Definition Field : Type := (list string * option Node)%type.
Definition FieldList : Type := list Field.

End ast.

(** ** The walker ([walker/walker.go]) *)

Module walkngo.

Import ast Printer.

Definition strlen (s : string) : Z := Z.of_nat (String.length s).

(** identString return the Ident name or "" *)
Definition identString (i : option string) : string :=
  match i with
  | Some name => name
  | None => ""
  end.

(** ifTrue retruns the input value if the condition is true, an empty
    string otherwise *)
Definition ifTrue (val : string) (cond : bool) : string :=
  if cond then val else "".

Definition wrapIf (val : string) : string :=
  if 0 <? strlen val then "(" ++ val ++ ")" else "".

Definition parseNames (v : list string) : string := strings.Join v ", ".

Section Walker.

Context {PS : Type} {Pr : Printer PS}.

(** [fmt.Sprintf("%#v", n)]: the Go-syntax dump of a node. *)
Variable GoSyntax : Node -> string.

(** GoWalker is the context for the AST visitor.  The printer writes to
    [buffer] (its writer, set by [NewWalker]); [stdout] is what [Flush]
    has printed so far. *)
Record GoWalker : Type := mkGoWalker {
  p : PS;
  parent : option Node;
  buffer : string;
  flush : bool;
  stdout : string
}.

Definition NewWalker (p : PS) : GoWalker := mkGoWalker p None "" true "".

(** Walker code: a panic is [None]. *)
Definition W (A : Type) : Type := GoWalker -> option (A * GoWalker).

Definition retW {A : Type} (a : A) : W A := fun w => Some (a, w).

Definition bindW {A B : Type} (m : W A) (f : A -> W B) : W B :=
  fun w =>
    match m w with
    | None => None
    | Some (a, w1) => f a w1
    end.

Definition panicW {A : Type} : W A := fun _ => None.

Notation "x <- m ;; k" := (bindW m (fun x => k))
  (at level 61, m at next level, right associativity).
Notation "m ;; k" := (bindW m (fun _ => k))
  (at level 61, right associativity).

(** [w.p.M(args)]: the text the printer writes lands in the buffer. *)
Definition call (m : Method) : W unit :=
  fun w =>
    match invoke m (p w) with
    | None => None
    | Some (p', out) =>
        Some (tt, mkGoWalker p' (parent w) (buffer w ++ out) (flush w) (stdout w))
    end.

Definition get_parent : W (option Node) := fun w => Some (parent w, w).

Definition set_parent (n : option Node) : W unit :=
  fun w => Some (tt, mkGoWalker (p w) n (buffer w) (flush w) (stdout w)).

Definition get_flush : W bool := fun w => Some (flush w, w).

Definition set_flush (b : bool) : W unit :=
  fun w => Some (tt, mkGoWalker (p w) (parent w) (buffer w) b (stdout w)).

Definition get_buffer : W string := fun w => Some (buffer w, w).

(** [w.buffer.Reset()]. *)
Definition buffer_Reset : W unit :=
  fun w => Some (tt, mkGoWalker (p w) (parent w) "" (flush w) (stdout w)).

(** [fmt.Print(s)]. *)
Definition fmt_Print (s : string) : W unit :=
  fun w => Some (tt, mkGoWalker (p w) (parent w) (buffer w) (flush w) (stdout w ++ s)).

Definition Flush : W unit :=
  f <- get_flush ;;
  b <- get_buffer ;;
  if f && (0 <? strlen b) then
    fmt_Print b ;;
    buffer_Reset
  else retW tt.

(** A call on a value that may be [nil]. *)
Definition nilable {A : Type} (f : Node -> W A) (zero : A) (o : option Node) : W A :=
  match o with
  | None => retW zero
  | Some n => f n
  end.

(** [for _, x := range l { f(x) }]. *)
Definition forW {A B : Type} (f : A -> W B) : list A -> W unit :=
  fix go (l : list A) : W unit :=
    match l with
    | [] => retW tt
    | x :: l' => f x ;; go l'
    end.

(** [for _, x := range l { out = append(out, f(x)) }]. *)
Definition mapW {A B : Type} (f : A -> W B) : list A -> W (list B) :=
  fix go (l : list A) : W (list B) :=
    match l with
    | [] => retW []
    | x :: l' => y <- f x ;; ys <- go l' ;; retW (y :: ys)
    end.

(** [BufferVisit], over the visitor it calls. *)
Definition BufferVisit_with (Visit : option Node -> W bool) (node : option Node) : W string :=
  Flush ;;
  prev <- get_flush ;;
  set_flush false ;;
  Visit node ;;
  set_flush prev ;;
  b <- get_buffer ;;
  let ret := strings.TrimSpace b in
  f <- get_flush ;;
  (if f then buffer_Reset else retW tt) ;;
  retW ret.

(** [parseExprList], over the formatter it calls. *)
Definition parseExprList_with (parseExpr : Node -> W string) (l : list Node) : W string :=
  exprs <- mapW parseExpr l ;;
  retW (strings.Join exprs ", ").

(** [parseFieldList], over the formatter it calls. *)
Definition parseFieldList_with (parseExpr : option Node -> W string)
    (l : option FieldList) (sep : string) : W string :=
  match l with
  | Some List_ =>
      fields <- mapW (fun f : Field =>
                        let field := parseNames (fst f) in
                        if 0 <? strlen field then
                          t <- parseExpr (snd f) ;; retW (field ++ " " ++ t)
                        else parseExpr (snd f)) List_ ;;
      retW (strings.Join fields sep)
  | None => retW ""
  end.

Definition exprOr_with (parseExpr : option Node -> W string) (expr : option Node) (v : string) : W string :=
  match expr with
  | Some _ => parseExpr expr
  | None => retW v
  end.

(** Implement the Visitor interface for GoWalker.  The result tells
    whether the visitor itself is returned ([ret = w]) or [nil]. *)
Fixpoint Visit (node : Node) {struct node} : W bool :=
  pparent <- get_parent ;;
  set_parent (Some node) ;;
  ret <-
    match node with
    | File Name Decls =>
        call (PrintPackage Name) ;;
        forW Visit Decls ;;
        retW false
    | ImportSpec Name Path =>
        call (PrintImport (identString Name) Path) ;;
        retW false
    | TypeSpec Name Type_ =>
        t <- nilable parseExpr "" Type_ ;;
        call (PrintType Name t) ;;
        retW false
    | ValueSpec Names Type_ Values =>
        match pparent with
        | Some (GenDecl Tok _) =>
            let vtype := Tok in
            t <- nilable parseExpr "" Type_ ;;
            vs <- parseExprList_with parseExpr Values ;;
            call (PrintValue vtype (parseNames Names) t vs) ;;
            retW false
        | _ => panicW
        end
    | GenDecl Tok Specs =>
        forW Visit Specs ;;
        retW false
    | FuncDecl Recv Name Params Results Body =>
        recv <- parseFieldList_with (nilable parseExpr "") Recv ", " ;;
        params <- parseFieldList_with (nilable parseExpr "") Params ", " ;;
        results <- parseFieldList_with (nilable parseExpr "") Results ", " ;;
        call (PrintFunc recv Name params results) ;;
        match Body with
        | Some b => Visit b
        | None => panicW (* a nil *ast.BlockStmt is dereferenced *)
        end ;;
        call (Print [NL]) ;;
        retW false
    | BlockStmt List_ =>
        call (PrintLevel ["{" ++ NL]) ;;
        call (UpdateLevel UP) ;;
        forW Visit List_ ;;
        call (UpdateLevel DOWN) ;;
        call (PrintLevel ["}"]) ;;
        retW false
    | IfStmt Init Cond Body Else =>
        init <- BufferVisit_with (nilable Visit false) Init ;;
        cond <- nilable parseExpr "" Cond ;;
        call (PrintIf init cond) ;;
        Visit Body ;;
        match Else with
        | Some e =>
            call SameLine ;;
            call PrintElse ;;
            Visit e ;;
            retW tt
        | None => retW tt
        end ;;
        call (Print [NL]) ;;
        retW false
    | ForStmt Init Cond Post Body =>
        init <- BufferVisit_with (nilable Visit false) Init ;;
        cond <- nilable parseExpr "" Cond ;;
        post <- BufferVisit_with (nilable Visit false) Post ;;
        call (PrintFor init cond post) ;;
        Visit Body ;;
        call (Print [NL]) ;;
        retW false
    | SwitchStmt Init Tag Body =>
        init <- BufferVisit_with (nilable Visit false) Init ;;
        tag <- nilable parseExpr "" Tag ;;
        call (PrintSwitch init tag) ;;
        Visit Body ;;
        call (Print [NL]) ;;
        retW false
    | TypeSwitchStmt Init Assign Body =>
        init <- BufferVisit_with (nilable Visit false) Init ;;
        assign <- BufferVisit_with (nilable Visit false) Assign ;;
        call (PrintSwitch init assign) ;;
        Visit Body ;;
        call (Print [NL]) ;;
        retW false
    | CaseClause List_ Body =>
        match List_ with
        | _ :: _ =>
            l <- parseExprList_with parseExpr List_ ;;
            call (PrintLevel ["case"; l; ":"; NL])
        | [] => call (PrintLevel ["default:"; NL])
        end ;;
        call (UpdateLevel UP) ;;
        forW Visit Body ;;
        call (UpdateLevel DOWN) ;;
        retW false
    | RangeStmt Key Value X Body =>
        k <- nilable parseExpr "" Key ;;
        v <- nilable parseExpr "" Value ;;
        x <- nilable parseExpr "" X ;;
        call (PrintLevel ["for"; k; ","; v; ":= range"; x]) ;;
        Visit Body ;;
        call (Print [NL]) ;;
        retW false
    | BranchStmt Tok Label =>
        call (PrintStmt Tok (identString Label)) ;;
        retW false
    | DeferStmt Call =>
        c <- parseExpr Call ;;
        call (PrintStmt "defer" c) ;;
        retW false
    | GoStmt Call =>
        c <- parseExpr Call ;;
        call (PrintStmt "go" c) ;;
        retW false
    | ReturnStmt Results =>
        r <- parseExprList_with parseExpr Results ;;
        call (PrintStmt "return" r) ;;
        retW false
    | ExprStmt X =>
        x <- nilable parseExpr "" X ;;
        call (PrintLevel [x; NL]) ;;
        retW false
    | DeclStmt Decl =>
        nilable Visit false Decl ;;
        retW false
    | AssignStmt Lhs Tok Rhs =>
        lhs <- parseExprList_with parseExpr Lhs ;;
        rhs <- parseExprList_with parseExpr Rhs ;;
        call (PrintLevel [lhs; Tok; rhs; NL]) ;;
        retW false
    | IncDecStmt X Tok =>
        x <- nilable parseExpr "" X ;;
        call (PrintLevel [x ++ Tok; " "]) ;;
        retW false
    | EmptyStmt =>
        call PrintEmpty ;;
        retW false
    | _ =>
        call (Print ["/* Node: " ++ GoSyntax node ++ " */" ++ NL]) ;;
        retW true
    end ;;
  Flush ;;
  set_parent pparent ;;
  retW ret

with parseExpr (expr : Node) {struct expr} : W string :=
  match expr with
  (* a name *)
  | Ident Name => retW Name
  (* *thing *)
  | StarExpr X =>
      x <- nilable parseExpr "" X ;;
      retW ("*" ++ x)
  (* [len]type *)
  | ArrayType Len Elt =>
      l <- nilable parseExpr "" Len ;;
      e <- nilable parseExpr "" Elt ;;
      retW ("[" ++ l ++ "]" ++ e)
  (* [key]value *)
  | MapType Key Value =>
      k <- nilable parseExpr "" Key ;;
      v <- nilable parseExpr "" Value ;;
      retW ("[" ++ k ++ "]" ++ v)
  (* interface{ things } *)
  | InterfaceType Methods =>
      m <- parseFieldList_with (nilable parseExpr "") Methods "; " ;;
      retW ("interface{" ++ m ++ "}")
  (* struct{ things } *)
  | StructType Fields =>
      f <- parseFieldList_with (nilable parseExpr "") Fields "; " ;;
      retW ("struct{" ++ f ++ "}")
  (* <-chan type *)
  | ChanType Dir Value =>
      let ctype := if Dir =? SEND then "chan<-"
                   else if Dir =? RECV then "<-chan"
                   else "chan" in
      v <- nilable parseExpr "" Value ;;
      retW (ctype ++ " " ++ v)
  (* (params...) (result) *)
  | FuncType Params Results =>
      ps <- parseFieldList_with (nilable parseExpr "") Params ", " ;;
      rs <- parseFieldList_with (nilable parseExpr "") Results ", " ;;
      retW ("(" ++ ps ++ ") " ++ wrapIf rs)
  (* "thing", 0, true, false, nil *)
  | BasicLit Value => retW Value
  (* type{list} *)
  | CompositeLit Type_ Elts =>
      t <- nilable parseExpr "" Type_ ;;
      es <- parseExprList_with parseExpr Elts ;;
      retW (t ++ "{" ++ es ++ "}")
  (* ...type *)
  | Ellipsis Elt =>
      e <- nilable parseExpr "" Elt ;;
      retW ("..." ++ e)
  (* -3 *)
  | UnaryExpr Op X =>
      x <- nilable parseExpr "" X ;;
      retW (Op ++ x)
  (* 3 + 2 *)
  | BinaryExpr X Op Y =>
      x <- nilable parseExpr "" X ;;
      y <- nilable parseExpr "" Y ;;
      retW (x ++ " " ++ Op ++ " " ++ y)
  (* array[index] *)
  | IndexExpr X Index =>
      x <- nilable parseExpr "" X ;;
      i <- nilable parseExpr "" Index ;;
      retW (x ++ "[" ++ i ++ "]")
  (* key: value *)
  | KeyValueExpr Key Value =>
      k <- nilable parseExpr "" Key ;;
      v <- nilable parseExpr "" Value ;;
      retW (k ++ ": " ++ v)
  (* x[low:hi:max] *)
  | SliceExpr X Low High Max =>
      match Max with
      | None =>
          x <- nilable parseExpr "" X ;;
          l <- nilable parseExpr "" Low ;;
          h <- nilable parseExpr "" High ;;
          retW (x ++ "[" ++ l ++ ":" ++ h ++ "]")
      | Some _ =>
          x <- nilable parseExpr "" X ;;
          l <- nilable parseExpr "" Low ;;
          h <- nilable parseExpr "" High ;;
          m <- nilable parseExpr "" Max ;;
          retW (x ++ "[" ++ l ++ ":" ++ h ++ ":" ++ m ++ "]")
      end
  (* package.member *)
  | SelectorExpr X Sel =>
      x <- nilable parseExpr "" X ;;
      retW (x ++ "." ++ Sel)
  (* funcname(args) *)
  | CallExpr Fun Args Ellipsis_pos =>
      f <- nilable parseExpr "" Fun ;;
      args <- parseExprList_with parseExpr Args ;;
      retW (f ++ "(" ++ args ++ ifTrue "..." (0 <? Ellipsis_pos) ++ ")")
  (* name.(type) *)
  | TypeAssertExpr X Type_ =>
      x <- nilable parseExpr "" X ;;
      t <- exprOr_with (nilable parseExpr "") Type_ "type" ;;
      retW (x ++ ".(" ++ t ++ ")")
  (* (expr) *)
  | ParenExpr X =>
      x <- nilable parseExpr "" X ;;
      retW ("(" ++ x ++ ")")
  (* func(params) (ret) { body } *)
  | FuncLit Type_ Body =>
      t <- parseExpr Type_ ;;
      b <- BufferVisit_with (nilable Visit false) (Some Body) ;;
      retW ("func" ++ t ++ " " ++ b)
  | _ => retW ("/* Expr: " ++ GoSyntax expr ++ " */")
  end.

Definition BufferVisit (node : option Node) : W string :=
  BufferVisit_with (nilable Visit false) node.

Definition parseExprList (l : list Node) : W string :=
  parseExprList_with parseExpr l.

Definition parseFieldList (l : option FieldList) (sep : string) : W string :=
  parseFieldList_with (nilable parseExpr "") l sep.

Definition exprOr (expr : option Node) (v : string) : W string :=
  exprOr_with (nilable parseExpr "") expr v.

End Walker.

End walkngo.

(** ** Scenarios and auxiliary definitions *)

Declare Scope cp_scope.
Delimit Scope cp_scope with cp.
Notation "x <- m ;; k" := (cprinter.bind m (fun x => k))
  (at level 61, m at next level, right associativity) : cp_scope.
Notation "m ;; k" := (cprinter.bind m (fun _ => k))
  (at level 61, right associativity) : cp_scope.

Declare Scope walk_scope.
Delimit Scope walk_scope with walk.
Notation "x <- m ;; k" := (walkngo.bindW m (fun x => k))
  (at level 61, m at next level, right associativity) : walk_scope.
Notation "m ;; k" := (walkngo.bindW m (fun _ => k))
  (at level 61, right associativity) : walk_scope.

(** The text [indent] yields at a level, when the same-line flag is and
    is not set. *)
Definition indent_text (level : Z) (sameline : bool) : string :=
  if sameline then "" else strings.repeat_nat "  " (Z.to_nat level).

(** The context with its sequence counter at [k]. *)
Definition with_iota (c : cprinter.CContext) (k : Z) : cprinter.CContext :=
  cprinter.mkCContext k (cprinter.deferred c) (cprinter.receiver c)
    (cprinter.ret_definitions c) (cprinter.ret_values c).

Definition with_deferred (c : cprinter.CContext) (k : Z) : cprinter.CContext :=
  cprinter.mkCContext (cprinter.iota c) k (cprinter.receiver c)
    (cprinter.ret_definitions c) (cprinter.ret_values c).

Definition with_receiver (c : cprinter.CContext) (r : string) : cprinter.CContext :=
  cprinter.mkCContext (cprinter.iota c) (cprinter.deferred c) r
    (cprinter.ret_definitions c) (cprinter.ret_values c).

(** [n] unspecified constant values consumed one after the other. *)
Fixpoint consume (n : nat) : cprinter.P (list string) :=
  match n with
  | O => cprinter.ret []
  | S n' =>
      (v <- cprinter.FormatIdent cprinter.IOTA ;;
       vs <- consume n' ;;
       cprinter.ret (v :: vs))%cp
  end.

(** The integers [k], [k+1], ..., [k+n-1]. *)
Fixpoint counts (k : Z) (n : nat) : list Z :=
  match n with
  | O => []
  | S n' => k :: counts (k + 1) n'
  end.

(** The wrapper a deferred call is rendered as, under the name [name]. *)
Definition deferred_wrapper (name expr : string) : string :=
  "Deferred " ++ name ++ "([](){ " ++ expr ++ "; })".

(** The statements of a body, each a keyword and its text, announced
    one after the other. *)
Fixpoint announce_all (SEMI : string) (body : list (string * string)) : cprinter.P unit :=
  match body with
  | [] => cprinter.ret tt
  | (stmt, expr) :: rest =>
      (cprinter.PrintStmt SEMI stmt expr ;; announce_all SEMI rest)%cp
  end.

(** The text of a statement that is not a deferred call. *)
Definition statement_text (stmt expr : string) : string :=
  if String.eqb stmt "go" then "Goroutine([](){ " ++ expr ++ "; })"
  else if 0 <? cprinter.strlen stmt then stmt ++ " " ++ expr
  else expr.

(** The text of the statements of a body, the deferred calls among them
    numbered from [k] on. *)
Fixpoint body_text (SEMI ind : string) (k : Z) (body : list (string * string)) : string :=
  match body with
  | [] => ""
  | (stmt, expr) :: rest =>
      if String.eqb stmt "defer" then
        (ind ++ deferred_wrapper ("defer" ++ Itoa k) expr ++ SEMI)
          ++ body_text SEMI ind (k + 1) rest
      else
        (ind ++ statement_text stmt expr ++ SEMI) ++ body_text SEMI ind k rest
  end.

(** The number of deferred calls among the statements of a body. *)
Fixpoint count_defer (body : list (string * string)) : nat :=
  match body with
  | [] => O
  | (stmt, _) :: rest =>
      if String.eqb stmt "defer" then S (count_defer rest) else count_defer rest
  end.

(** The result type a function header carries. *)
Definition header_results (results : string) : string :=
  if cprinter.strlen results =? 0 then "void"
  else if cprinter.IsMultiValue results then "tuple<" ++ results ++ ">"
  else results.

(** The header of a method: the receiver is named in a comment and its
    type qualifies the function name. *)
Definition method_header (rtype rname name params results : string) : string :=
  header_results results ++ " "
    ++ ("/* " ++ rname ++ " */ " ++ strings.TrimRight rtype "*" ++ "::")
    ++ name ++ "(" ++ params ++ ") ".

(** Modelled from the spec: the printer's terminators and list separator
    are constants declared outside these sources.  The examples take the
    empty terminator, the statement terminator with its line feed, and
    the comma-space separator the spec gives to lists. *)
Definition ex_NONE : string := "".
Definition ex_SEMI : string := ";" ++ NL.
Definition ex_COMMA : string := ", ".

(** [fmt.Sprintf] for the examples: the verbs [%s] and [%%] of a format,
    with Go's marks for a missing and for an extra operand. *)
Fixpoint Sprintf_s (format : string) (args : list string) : string :=
  match format with
  | EmptyString =>
      match args with
      | [] => ""
      | _ => "%!(EXTRA " ++ strings.Join (map (fun a => "string=" ++ a) args) ", " ++ ")"
      end
  | String c rest =>
      if Ascii.eqb c "%" then
        match rest with
        | String d rest' =>
            if Ascii.eqb d "s" then
              match args with
              | a :: args' => a ++ Sprintf_s rest' args'
              | [] => "%!s(MISSING)" ++ Sprintf_s rest' []
              end
            else if Ascii.eqb d "%" then String "%" (Sprintf_s rest' args)
            else String c (String d (Sprintf_s rest' args))
        | EmptyString => "%!(NOVERB)"
        end
      else String c (Sprintf_s rest args)
  end.

(** A printer as [Reset] leaves it. *)
Definition printer0 : cprinter.CPrinter := cprinter.mkCPrinter 0 false [].

(** Two constant groups, all values unspecified, announced in one
    context: [const ( A; B; C )] and then [const ( D )]. *)
Definition two_constant_groups : cprinter.P unit :=
  (cprinter.PushContext ;;
   cprinter.PrintBlockStart cprinter.CONST ;;
   cprinter.PrintValue ex_NONE "const" "" "A" "" false false ;;
   cprinter.PrintValue ex_NONE "const" "" "B" "" false false ;;
   cprinter.PrintValue ex_NONE "const" "" "C" "" false false ;;
   cprinter.PrintBlockEnd ex_NONE cprinter.CONST ;;
   cprinter.PrintBlockStart cprinter.CONST ;;
   cprinter.PrintValue ex_NONE "const" "" "D" "" false false ;;
   cprinter.PrintBlockEnd ex_NONE cprinter.CONST)%cp.

(** A function with the named results [(x int, err error)] and a bare
    return: the results are formatted, the body is opened, a nested
    block is opened and closed, and the return is announced. *)
Definition named_results_body (results : list cprinter.Pair) (tuple : bool) : cprinter.P (list string) :=
  (cprinter.PushContext ;;
   rs <- (fix go (l : list cprinter.Pair) : cprinter.P (list string) :=
            match l with
            | [] => cprinter.ret []
            | v :: l' =>
                r <- cprinter.FormatPair ex_SEMI ex_COMMA Sprintf_s v cprinter.RESULT ;;
                rs <- go l' ;;
                cprinter.ret (r :: rs)
            end) results ;;
   cprinter.PrintBlockStart cprinter.CODE ;;
   cprinter.PrintBlockStart cprinter.CODE ;;
   cprinter.PrintBlockEnd ex_NONE cprinter.CODE ;;
   cprinter.PrintReturn ex_SEMI ex_COMMA "" tuple ;;
   cprinter.PrintBlockEnd ex_NONE cprinter.CODE ;;
   cprinter.ret rs)%cp.

(** *** A printer for the examples *)

(** The walker is written against the [Printer] interface alone.  The
    examples run it over [Outline], a printer that keeps a level and
    nothing else: [UpdateLevel] moves the level, [Print] writes its
    values, [SameLine] does nothing, and every other call writes its
    text indented by the level. *)
Definition Outline_text (m : Printer.Method) : string :=
  match m with
  | Printer.PrintPackage name => "package " ++ name ++ NL
  | Printer.PrintImport name path => "import " ++ name ++ " " ++ path ++ NL
  | Printer.PrintType name typedef => "type " ++ name ++ " " ++ typedef ++ NL
  | Printer.PrintValue vtype names typedef values =>
      vtype ++ " " ++ names ++ " " ++ typedef ++ " = " ++ values ++ NL
  | Printer.PrintFunc receiver name params results =>
      "func " ++ receiver ++ " " ++ name ++ "(" ++ params ++ ") " ++ results ++ " "
  | Printer.Print values => strings.Join values " "
  | Printer.PrintLevel values => strings.Join values " "
  | Printer.UpdateLevel _ => ""
  | Printer.PrintIf init cond => "if " ++ init ++ "; " ++ cond ++ " "
  | Printer.SameLine => ""
  | Printer.PrintElse => "else "
  | Printer.PrintFor init cond post => "for " ++ init ++ "; " ++ cond ++ "; " ++ post ++ " "
  | Printer.PrintSwitch init expr => "switch " ++ init ++ "; " ++ expr ++ " "
  | Printer.PrintStmt stmt expr => stmt ++ " " ++ expr ++ NL
  | Printer.PrintEmpty => ";" ++ NL
  end.

Definition Outline : Printer.Printer Z :=
  {| Printer.invoke := fun m l =>
       match m with
       | Printer.UpdateLevel delta => Some (wrap (l + delta), "")
       | Printer.Print values => Some (l, strings.Join values " ")
       | Printer.SameLine => Some (l, "")
       | _ => Some (l, strings.repeat_nat "  " (Z.to_nat l) ++ Outline_text m)
       end |}.

(** For the examples: a dump that shows the kind of a node only. *)
Definition dump_kind (n : ast.Node) : string :=
  match n with
  | ast.LabeledStmt _ _ => "&ast.LabeledStmt{...}"
  | ast.SendStmt _ _ => "&ast.SendStmt{...}"
  | ast.SelectStmt _ => "&ast.SelectStmt{...}"
  | ast.CommClause _ _ => "&ast.CommClause{...}"
  | ast.BadStmt => "&ast.BadStmt{...}"
  | ast.BadDecl => "&ast.BadDecl{...}"
  | ast.BadExpr => "&ast.BadExpr{...}"
  | _ => "&ast.Node{...}"
  end.

(** A walker over the example printer, as [NewWalker] makes it. *)
Definition walker0 : walkngo.GoWalker (PS := Z) := walkngo.NewWalker 0.

(** *** Node kinds with a case of their own *)

Definition Visit_handles (n : ast.Node) : bool :=
  match n with
  | ast.File _ _ | ast.ImportSpec _ _ | ast.TypeSpec _ _ | ast.ValueSpec _ _ _
  | ast.GenDecl _ _ | ast.FuncDecl _ _ _ _ _ | ast.BlockStmt _ | ast.IfStmt _ _ _ _
  | ast.ForStmt _ _ _ _ | ast.SwitchStmt _ _ _ | ast.TypeSwitchStmt _ _ _
  | ast.CaseClause _ _ | ast.RangeStmt _ _ _ _ | ast.BranchStmt _ _ | ast.DeferStmt _
  | ast.GoStmt _ | ast.ReturnStmt _ | ast.ExprStmt _ | ast.DeclStmt _
  | ast.AssignStmt _ _ _ | ast.IncDecStmt _ _ | ast.EmptyStmt => true
  | _ => false
  end.

Definition parseExpr_handles (e : ast.Node) : bool :=
  match e with
  | ast.Ident _ | ast.StarExpr _ | ast.ArrayType _ _ | ast.MapType _ _
  | ast.InterfaceType _ | ast.StructType _ | ast.ChanType _ _ | ast.FuncType _ _
  | ast.BasicLit _ | ast.CompositeLit _ _ | ast.Ellipsis _ | ast.UnaryExpr _ _
  | ast.BinaryExpr _ _ _ | ast.IndexExpr _ _ | ast.KeyValueExpr _ _
  | ast.SliceExpr _ _ _ _ | ast.SelectorExpr _ _ | ast.CallExpr _ _ _
  | ast.TypeAssertExpr _ _ | ast.ParenExpr _ | ast.FuncLit _ _ => true
  | _ => false
  end.

(** The placeholders of the two fallbacks. *)
Definition node_placeholder (GoSyntax : ast.Node -> string) (n : ast.Node) : string :=
  "/* Node: " ++ GoSyntax n ++ " */" ++ NL.

Definition expr_placeholder (GoSyntax : ast.Node -> string) (e : ast.Node) : string :=
  "/* Expr: " ++ GoSyntax e ++ " */".

(** *** The nesting depth of blocks and case clauses *)

Definition depth_opt (f : ast.Node -> nat) (o : option ast.Node) : nat :=
  match o with
  | Some n => f n
  | None => O
  end.

Definition depth_list (f : ast.Node -> nat) (l : list ast.Node) : nat :=
  fold_right (fun x acc => Nat.max (f x) acc) O l.

Definition depth_fields (f : ast.Node -> nat) (fl : option ast.FieldList) : nat :=
  match fl with
  | Some l => fold_right (fun fd acc => Nat.max (depth_opt f (snd fd)) acc) O l
  | None => O
  end.

Fixpoint depth (n : ast.Node) : nat :=
  match n with
  | ast.File _ Decls => depth_list depth Decls
  | ast.ImportSpec _ _ => O
  | ast.TypeSpec _ t => depth_opt depth t
  | ast.ValueSpec _ t vs => Nat.max (depth_opt depth t) (depth_list depth vs)
  | ast.GenDecl _ Specs => depth_list depth Specs
  | ast.FuncDecl Recv _ Params Results Body =>
      Nat.max (depth_fields depth Recv)
        (Nat.max (depth_fields depth Params)
           (Nat.max (depth_fields depth Results) (depth_opt depth Body)))
  | ast.BadDecl => O
  | ast.BlockStmt l => S (depth_list depth l)
  | ast.IfStmt i c b e =>
      Nat.max (depth_opt depth i)
        (Nat.max (depth_opt depth c) (Nat.max (depth b) (depth_opt depth e)))
  | ast.ForStmt i c po b =>
      Nat.max (depth_opt depth i)
        (Nat.max (depth_opt depth c) (Nat.max (depth_opt depth po) (depth b)))
  | ast.SwitchStmt i t b =>
      Nat.max (depth_opt depth i) (Nat.max (depth_opt depth t) (depth b))
  | ast.TypeSwitchStmt i a b =>
      Nat.max (depth_opt depth i) (Nat.max (depth_opt depth a) (depth b))
  | ast.CaseClause l b => Nat.max (depth_list depth l) (S (depth_list depth b))
  | ast.RangeStmt k v x b =>
      Nat.max (depth_opt depth k)
        (Nat.max (depth_opt depth v) (Nat.max (depth_opt depth x) (depth b)))
  | ast.BranchStmt _ _ => O
  | ast.DeferStmt c => depth c
  | ast.GoStmt c => depth c
  | ast.ReturnStmt rs => depth_list depth rs
  | ast.ExprStmt x => depth_opt depth x
  | ast.DeclStmt d => depth_opt depth d
  | ast.AssignStmt l _ r => Nat.max (depth_list depth l) (depth_list depth r)
  | ast.IncDecStmt x _ => depth_opt depth x
  | ast.EmptyStmt => O
  | ast.LabeledStmt _ s => depth s
  | ast.SendStmt c v => Nat.max (depth c) (depth v)
  | ast.SelectStmt b => depth b
  | ast.CommClause c b => Nat.max (depth_opt depth c) (S (depth_list depth b))
  | ast.BadStmt => O
  | ast.Ident _ => O
  | ast.StarExpr x => depth_opt depth x
  | ast.ArrayType l e => Nat.max (depth_opt depth l) (depth_opt depth e)
  | ast.MapType k v => Nat.max (depth_opt depth k) (depth_opt depth v)
  | ast.InterfaceType m => depth_fields depth m
  | ast.StructType f => depth_fields depth f
  | ast.ChanType _ v => depth_opt depth v
  | ast.FuncType ps rs => Nat.max (depth_fields depth ps) (depth_fields depth rs)
  | ast.BasicLit _ => O
  | ast.CompositeLit t es => Nat.max (depth_opt depth t) (depth_list depth es)
  | ast.Ellipsis e => depth_opt depth e
  | ast.UnaryExpr _ x => depth_opt depth x
  | ast.BinaryExpr x _ y => Nat.max (depth_opt depth x) (depth_opt depth y)
  | ast.IndexExpr x i => Nat.max (depth_opt depth x) (depth_opt depth i)
  | ast.KeyValueExpr k v => Nat.max (depth_opt depth k) (depth_opt depth v)
  | ast.SliceExpr x l h m =>
      Nat.max (depth_opt depth x)
        (Nat.max (depth_opt depth l) (Nat.max (depth_opt depth h) (depth_opt depth m)))
  | ast.SelectorExpr x _ => depth_opt depth x
  | ast.CallExpr f args _ => Nat.max (depth_opt depth f) (depth_list depth args)
  | ast.TypeAssertExpr x t => Nat.max (depth_opt depth x) (depth_opt depth t)
  | ast.ParenExpr x => depth_opt depth x
  | ast.FuncLit t b => Nat.max (depth t) (depth b)
  | ast.BadExpr => O
  end.

(** *** Printers that keep a level *)

(** A printer keeps a level when [UpdateLevel] adds its argument to it
    (as a Go [int]) and no other method changes it. *)
Class LevelPrinter {PS : Type} (Pr : Printer.Printer PS) (level : PS -> Z) : Prop := {
  UpdateLevel_level : forall (d : Z) (s s' : PS) (o : string),
    Printer.invoke (Printer.UpdateLevel d) s = Some (s', o) ->
    level s' = wrap (level s + d);
  other_level : forall (m : Printer.Method) (s s' : PS) (o : string),
    (forall d : Z, m <> Printer.UpdateLevel d) ->
    Printer.invoke m s = Some (s', o) ->
    level s' = level s
}.

(** The printer [Pr] with a monitor: every call is passed on and the
    level it leaves is appended to a log. *)
Definition Monitored {PS : Type} (Pr : Printer.Printer PS) (level : PS -> Z) :
    Printer.Printer (PS * list Z) :=
  {| Printer.invoke := fun m st =>
       match Printer.invoke m (fst st) with
       | None => None
       | Some (s', o) => Some ((s', (snd st ++ [level s'])%list), o)
       end |}.


(** *** Relations kept by walker code *)

(** [m] keeps [R] from the states of [Pre]: whenever it returns, the
    state it leaves is related to the one it started from. *)
Definition keeps {PS A : Type}
    (Pre : walkngo.GoWalker (PS := PS) -> Prop)
    (R : walkngo.GoWalker (PS := PS) -> walkngo.GoWalker (PS := PS) -> Prop)
    (m : walkngo.W (PS := PS) A) : Prop :=
  forall w a w', Pre w -> m w = Some (a, w') -> R w w'.

(** A capture leaves the flushing mode as it found it and, when it was
    off, leaves what has been printed alone. *)
Definition flush_frame {PS : Type} (w w' : walkngo.GoWalker (PS := PS)) : Prop :=
  walkngo.flush w' = walkngo.flush w /\
  (walkngo.flush w = false -> walkngo.stdout w' = walkngo.stdout w).


(** The walker a capture renders into: what was pending has been
    flushed, the buffer is empty and flushing is off. *)
Definition isolated {PS : Type} (w : walkngo.GoWalker (PS := PS)) : walkngo.GoWalker (PS := PS) :=
  walkngo.mkGoWalker (walkngo.p w) (walkngo.parent w) "" false
    (walkngo.stdout w ++ walkngo.buffer w).



(** A relation on walkers that looks at the printer only. *)
Definition on_p {PS : Type} (Rp : PS -> PS -> Prop)
    (w w' : walkngo.GoWalker (PS := PS)) : Prop :=
  Rp (walkngo.p w) (walkngo.p w').

Definition at_p {PS : Type} (Pp : nat -> PS -> Prop) (d : nat)
    (w : walkngo.GoWalker (PS := PS)) : Prop :=
  Pp d (walkngo.p w).

(** The level is left as it was. *)
Definition same_level {PS : Type} (level : PS -> Z) (s s' : PS) : Prop :=
  level s' = level s.

(** The level is left as it was, and every level the monitor has logged
    on the way is at least that level. *)
Definition level_floor {PS : Type} (level : PS -> Z) (s s' : PS * list Z) : Prop :=
  level (fst s') = level (fst s) /\
  exists new : list Z,
    snd s' = (snd s ++ new)%list /\ Forall (fun x => level (fst s) <= x) new.

(** Three blocks nested in a function body, with a switch in between:
    [{ { switch { case 1: { } } } }]. *)
Definition nested_blocks : ast.Node :=
  ast.BlockStmt
    [ast.BlockStmt
       [ast.SwitchStmt None None
          (ast.BlockStmt
             [ast.CaseClause [ast.BasicLit "1"] [ast.BlockStmt [ast.EmptyStmt]]])];
     ast.EmptyStmt].

(** A printer operation that leaves the level as it was. *)
Definition level_kept {A : Type} (m : cprinter.P A) : Prop :=
  forall p a p' o, m p = Some (a, p', o) -> cprinter.level p' = cprinter.level p.

(** The walker after a placeholder [ph] has been printed through the
    printer, left in state [s'], and flushed. *)
Definition placed {PS : Type} (w : walkngo.GoWalker (PS := PS)) (s' : PS) (ph : string) :
    walkngo.GoWalker (PS := PS) :=
  if walkngo.flush w then
    walkngo.mkGoWalker s' (walkngo.parent w) "" true
      (walkngo.stdout w ++ (walkngo.buffer w ++ ph))
  else
    walkngo.mkGoWalker s' (walkngo.parent w) (walkngo.buffer w ++ ph) false
      (walkngo.stdout w).

(** A call under a label, [L: f()]: the walker has no case for the
    labelled statement, and has one for the statement under it. *)
Definition call_statement : ast.Node :=
  ast.ExprStmt (Some (ast.CallExpr (Some (ast.Ident "f")) [] 0)).

Definition labelled_call : ast.Node := ast.LabeledStmt "L" call_statement.

(** A type switch guard, [x.(type)]: a type assertion whose type is
    elided. *)
Definition elided_assertion : ast.Node :=
  ast.TypeAssertExpr (Some (ast.Ident "x")) None.

(** [struct { a int; b string }]. *)
Definition two_fields : ast.Node :=
  ast.StructType (Some [(["a"], Some (ast.Ident "int")); (["b"], Some (ast.Ident "string"))]).

(** A field as [parseFieldList] renders it: its names, a space and its
    type, or the type alone when it has no name. *)
Definition field_text (f : list string * string) : string :=
  let field := walkngo.parseNames (fst f) in
  if 0 <? walkngo.strlen field then field ++ " " ++ snd f else snd f.

(** The field of the tree with the names and the type name of [f]. *)
Definition ident_field (f : list string * string) : ast.Field :=
  (fst f, Some (ast.Ident (snd f))).

(** A printer operation that moves the level by [d] (as a Go [int]). *)
Definition level_moved {A : Type} (d : Z) (m : cprinter.P A) : Prop :=
  forall p a p' o, m p = Some (a, p', o) -> cprinter.level p' = wrap (cprinter.level p + d).

(** *** Counting bytes *)

(** The number of bytes of [s] equal to [c]. *)
Fixpoint count_byte (c : ascii) (s : string) : Z :=
  match s with
  | EmptyString => 0
  | String d s' => (if Ascii.eqb d c then 1 else 0) + count_byte c s'
  end.

(** Every byte of [s] is in the cutset. *)
Fixpoint all_in_cutset (s cutset : string) : bool :=
  match s with
  | EmptyString => true
  | String c s' => strings.in_cutset c cutset && all_in_cutset s' cutset
  end.

(** The last byte of a text. *)
Fixpoint last_byte (s : string) : option ascii :=
  match s with
  | EmptyString => None
  | String c EmptyString => Some c
  | String _ s' => last_byte s'
  end.

(** *** Announcements in a scope *)

(** Two chains of contexts that differ in the top context at most. *)
Definition top_touched (cs cs' : list cprinter.CContext) : Prop :=
  cs' = cs \/
  exists (c c' : cprinter.CContext) (rest : list cprinter.CContext),
    cs = c :: rest /\ cs' = c' :: rest.

(** A printer operation that touches the top context at most. *)
Definition scoped {A : Type} (m : cprinter.P A) : Prop :=
  forall p a p' o, m p = Some (a, p', o) -> top_touched (cprinter.ctx p) (cprinter.ctx p').

(** The calls a client makes on the printer, [Reset] apart; [AScope] is
    a [PushContext], the calls of a body and the [PopContext] that ends
    it. *)
Inductive Announcement : Type :=
| APrint (values : list string)
| APrintLevel (term : string) (values : list string)
| APrintLevelIn (term : string) (values : list string)
| AUpdateLevel (delta : Z)
| ASameLine
| APrintBlockStart (b : cprinter.BlockType)
| APrintBlockEnd (b : cprinter.BlockType)
| APrintPackage (name : string)
| APrintImport (name path : string)
| APrintType (name typedef : string)
| APrintValue (vtype typedef names values : string) (ntuple vtuple : bool)
| APrintStmt (stmt expr : string)
| APrintReturn (expr : string) (tuple : bool)
| APrintFunc (receiver name params results : string)
| APrintFor (init cond post : string)
| APrintRange (key value expr : string)
| APrintSwitch (init expr : string)
| APrintCase (expr : string)
| APrintEndCase
| APrintIf (init cond : string)
| APrintElse
| APrintEmpty
| APrintAssignment (lhs op rhs : string) (ltuple rtuple : bool)
| APrintSend (ch value : string)
| AFormatIdent (id : string)
| AFormatSelector (pname sel : string) (isObject : bool)
| AFormatPair (v : cprinter.Pair) (t : cprinter.FieldType)
| AScope (body : list Announcement).

(** The result of a formatter is dropped. *)
Definition drop {A : Type} (m : cprinter.P A) : cprinter.P unit :=
  (_ <- m ;; cprinter.ret tt)%cp.

Section Announce.

Variables NONE SEMI COLON COMMA : string.
Variable Sprintf : string -> list string -> string.

Fixpoint announce (a : Announcement) : cprinter.P unit :=
  match a with
  | APrint values => cprinter.Print values
  | APrintLevel term values => cprinter.PrintLevel term values
  | APrintLevelIn term values => cprinter.PrintLevelIn term values
  | AUpdateLevel delta => cprinter.UpdateLevel delta
  | ASameLine => cprinter.SameLine
  | APrintBlockStart b => cprinter.PrintBlockStart b
  | APrintBlockEnd b => cprinter.PrintBlockEnd NONE b
  | APrintPackage name => cprinter.PrintPackage name
  | APrintImport name path => cprinter.PrintImport name path
  | APrintType name typedef => cprinter.PrintType SEMI Sprintf name typedef
  | APrintValue vtype typedef names values ntuple vtuple =>
      cprinter.PrintValue NONE vtype typedef names values ntuple vtuple
  | APrintStmt stmt expr => cprinter.PrintStmt SEMI stmt expr
  | APrintReturn expr tuple => cprinter.PrintReturn SEMI COMMA expr tuple
  | APrintFunc receiver name params results =>
      cprinter.PrintFunc receiver name params results
  | APrintFor init cond post => cprinter.PrintFor NONE SEMI init cond post
  | APrintRange key value expr => cprinter.PrintRange NONE key value expr
  | APrintSwitch init expr => cprinter.PrintSwitch NONE SEMI init expr
  | APrintCase expr => cprinter.PrintCase COLON expr
  | APrintEndCase => cprinter.PrintEndCase SEMI
  | APrintIf init cond => cprinter.PrintIf NONE init cond
  | APrintElse => cprinter.PrintElse
  | APrintEmpty => cprinter.PrintEmpty SEMI
  | APrintAssignment lhs op rhs ltuple rtuple =>
      cprinter.PrintAssignment SEMI lhs op rhs ltuple rtuple
  | APrintSend ch value => cprinter.PrintSend SEMI ch value
  | AFormatIdent id => drop (cprinter.FormatIdent id)
  | AFormatSelector pname sel isObject => drop (cprinter.FormatSelector pname sel isObject)
  | AFormatPair v t => drop (cprinter.FormatPair SEMI COMMA Sprintf v t)
  | AScope body =>
      (cprinter.PushContext ;;
       (fix go (l : list Announcement) : cprinter.P unit :=
          match l with
          | [] => cprinter.ret tt
          | x :: l' => announce x ;; go l'
          end) body ;;
       cprinter.PopContext)%cp
  end.

Definition announce_list : list Announcement -> cprinter.P unit :=
  fix go (l : list Announcement) : cprinter.P unit :=
    match l with
    | [] => cprinter.ret tt
    | x :: l' => (announce x ;; go l')%cp
    end.

End Announce.

(** The announcements of a deferred call, and their number in a body
    (those of the scopes nested in the body are not counted: they
    belong to contexts of their own). *)
Definition is_defer (a : Announcement) : bool :=
  match a with
  | APrintStmt stmt _ => String.eqb stmt "defer"
  | _ => false
  end.

Definition defers (body : list Announcement) : nat :=
  List.length (filter is_defer body).

(** The deferred counter of the current context, if there is one. *)
Definition top_deferred (cs : list cprinter.CContext) : option Z :=
  match cs with
  | c :: _ => Some (cprinter.deferred c)
  | [] => None
  end.

(** A printer operation that, started where the deferred counter of the
    current context is [d], leaves it there. *)
Definition deferred_kept {A : Type} (d : option Z) (m : cprinter.P A) : Prop :=
  forall p a p' o,
    top_deferred (cprinter.ctx p) = d ->
    m p = Some (a, p', o) ->
    top_deferred (cprinter.ctx p') = d.

(** The start of a method that defers a call, opens a scope of its own
    around a second deferred call, and assigns a variable. *)
Definition body_with_defers : list Announcement :=
  [APrintFunc "T* r" "Get" "" "int";
   APrintBlockStart cprinter.CODE;
   AFormatIdent "iota";
   APrintStmt "defer" "f()";
   AScope [AFormatIdent "iota"; APrintStmt "defer" "g()"];
   APrintAssignment "n" "=" "1" false false].

(** A method that defers a call, opens a scope of its own around a
    second deferred call, and returns a member of its receiver. *)
Definition method_with_scope : list Announcement :=
  [APrintFunc "T* r" "Get" "" "int";
   APrintBlockStart cprinter.CODE;
   AFormatIdent "iota";
   APrintStmt "defer" "f()";
   AScope [AFormatIdent "iota"; APrintStmt "defer" "g()"];
   APrintReturn "r.x" false].

(** *** Named results *)

(** The results of a function, formatted one after the other. *)
Fixpoint format_results (SEMI COMMA : string) (Sprintf : string -> list string -> string)
    (l : list cprinter.Pair) : cprinter.P (list string) :=
  match l with
  | [] => cprinter.ret []
  | v :: l' =>
      (r <- cprinter.FormatPair SEMI COMMA Sprintf v cprinter.RESULT ;;
       rs <- format_results SEMI COMMA Sprintf l' ;;
       cprinter.ret (r :: rs))%cp
  end.

(** A named result whose type is neither an array nor a pointer, and
    whose name does not end with a byte of the separator. *)
Definition plain_result (COMMA : string) (v : cprinter.Pair) : Prop :=
  0 < cprinter.strlen (cprinter.Name v) /\
  cprinter.Chop COMMA (cprinter.Name v) = cprinter.Name v /\
  strings.HasSuffix (cprinter.Value v) "]" = false /\
  strings.HasPrefix (cprinter.Value v) "*" = false.

(** The declarations of the results, and their names as they are
    collected for a bare return. *)
Fixpoint result_definitions (l : list cprinter.Pair) : string :=
  match l with
  | [] => ""
  | v :: l' => (cprinter.Value v ++ " " ++ cprinter.Name v ++ ";") ++ result_definitions l'
  end.

Fixpoint result_values (l : list cprinter.Pair) : string :=
  match l with
  | [] => ""
  | v :: l' => (cprinter.Name v ++ ", ") ++ result_values l'
  end.

(** A result as it is rendered in the header. *)
Definition result_text (COMMA : string) (v : cprinter.Pair) : string :=
  (cprinter.Value v ++ " /* " ++ cprinter.Name v ++ " */") ++ COMMA.

(** The context with the results [l] recorded in it. *)
Definition with_results (c : cprinter.CContext) (l : list cprinter.Pair) : cprinter.CContext :=
  cprinter.mkCContext (cprinter.iota c) (cprinter.deferred c) (cprinter.receiver c)
    (cprinter.ret_definitions c ++ result_definitions l)
    (cprinter.ret_values c ++ result_values l).

(** *** Walker scenarios and predicates *)

(** A walker over the example printer in the middle of a traversal: a
    parent is set and some text is pending in the buffer. *)
Definition pending_walker : walkngo.GoWalker (PS := Z) :=
  walkngo.mkGoWalker 0 (Some ast.BadDecl) "pending" true "".

(** Whether the parent is a [*ast.GenDecl], as the type assertion of the
    [ValueSpec] case asks. *)
Definition is_GenDecl (o : option ast.Node) : bool :=
  match o with
  | Some (ast.GenDecl _ _) => true
  | _ => false
  end.

(** Walker code that returns the same result from every state and
    leaves the state as it is. *)
Definition pure {PS A : Type} (m : walkngo.W (PS := PS) A) : Prop :=
  exists a : A, forall w, m w = Some (a, w).

(** A property of nodes that holds of an optional node, and of the types
    of a field list, when it holds of the nodes that are there. *)
Definition holds_opt (f : ast.Node -> bool) (o : option ast.Node) : bool :=
  match o with
  | Some n => f n
  | None => true
  end.

Definition holds_fields (f : ast.Node -> bool) (fl : option ast.FieldList) : bool :=
  match fl with
  | Some l => forallb (fun fd => holds_opt f (snd fd)) l
  | None => true
  end.

(** An expression that holds no function literal, at any depth the
    formatter descends to. *)
Fixpoint closure_free (e : ast.Node) : bool :=
  match e with
  | ast.FuncLit _ _ => false
  | ast.StarExpr x => holds_opt closure_free x
  | ast.ArrayType l e => holds_opt closure_free l && holds_opt closure_free e
  | ast.MapType k v => holds_opt closure_free k && holds_opt closure_free v
  | ast.InterfaceType m => holds_fields closure_free m
  | ast.StructType f => holds_fields closure_free f
  | ast.ChanType _ v => holds_opt closure_free v
  | ast.FuncType ps rs => holds_fields closure_free ps && holds_fields closure_free rs
  | ast.CompositeLit t es => holds_opt closure_free t && forallb closure_free es
  | ast.Ellipsis e => holds_opt closure_free e
  | ast.UnaryExpr _ x => holds_opt closure_free x
  | ast.BinaryExpr x _ y => holds_opt closure_free x && holds_opt closure_free y
  | ast.IndexExpr x i => holds_opt closure_free x && holds_opt closure_free i
  | ast.KeyValueExpr k v => holds_opt closure_free k && holds_opt closure_free v
  | ast.SliceExpr x l h m =>
      holds_opt closure_free x && holds_opt closure_free l
      && holds_opt closure_free h && holds_opt closure_free m
  | ast.SelectorExpr x _ => holds_opt closure_free x
  | ast.CallExpr f args _ => holds_opt closure_free f && forallb closure_free args
  | ast.TypeAssertExpr x t => holds_opt closure_free x && holds_opt closure_free t
  | ast.ParenExpr x => holds_opt closure_free x
  | _ => true
  end.

(** *** Trees the walker can traverse *)

(** A printer that never panics. *)
Definition total_printer {PS : Type} (Pr : Printer.Printer PS) : Prop :=
  forall (m : Printer.Method) (s : PS), Printer.invoke m s <> None.

(** A printer that records the calls made on it and writes nothing. *)
Definition Recorder : Printer.Printer (list Printer.Method) :=
  {| Printer.invoke := fun m s => Some ((s ++ [m])%list, "") |}.

(** The trees on which the walker's own two panics cannot happen, at the
    nodes it descends to: every value specification is a specification
    of a general declaration ([g] tells whether the node is visited as
    one), and every function declaration has a body.  The children of
    a node the walker has no case for are not looked at. *)
Fixpoint well_formed (g : bool) (n : ast.Node) : bool :=
  match n with
  | ast.File _ Decls => forallb (well_formed false) Decls
  | ast.ImportSpec _ _ => true
  | ast.TypeSpec _ t => holds_opt (well_formed false) t
  | ast.ValueSpec _ t vs =>
      g && holds_opt (well_formed false) t && forallb (well_formed false) vs
  | ast.GenDecl _ Specs => forallb (well_formed true) Specs
  | ast.FuncDecl Recv _ Params Results Body =>
      holds_fields (well_formed false) Recv && holds_fields (well_formed false) Params
      && holds_fields (well_formed false) Results
      && match Body with
         | Some b => well_formed false b
         | None => false
         end
  | ast.BlockStmt l => forallb (well_formed false) l
  | ast.IfStmt i c b e =>
      holds_opt (well_formed false) i && holds_opt (well_formed false) c
      && well_formed false b && holds_opt (well_formed false) e
  | ast.ForStmt i c po b =>
      holds_opt (well_formed false) i && holds_opt (well_formed false) c
      && holds_opt (well_formed false) po && well_formed false b
  | ast.SwitchStmt i t b =>
      holds_opt (well_formed false) i && holds_opt (well_formed false) t
      && well_formed false b
  | ast.TypeSwitchStmt i a b =>
      holds_opt (well_formed false) i && holds_opt (well_formed false) a
      && well_formed false b
  | ast.CaseClause l b => forallb (well_formed false) l && forallb (well_formed false) b
  | ast.RangeStmt k v x b =>
      holds_opt (well_formed false) k && holds_opt (well_formed false) v
      && holds_opt (well_formed false) x && well_formed false b
  | ast.DeferStmt c => well_formed false c
  | ast.GoStmt c => well_formed false c
  | ast.ReturnStmt rs => forallb (well_formed false) rs
  | ast.ExprStmt x => holds_opt (well_formed false) x
  | ast.DeclStmt d => holds_opt (well_formed false) d
  | ast.AssignStmt l _ r => forallb (well_formed false) l && forallb (well_formed false) r
  | ast.IncDecStmt x _ => holds_opt (well_formed false) x
  | ast.StarExpr x => holds_opt (well_formed false) x
  | ast.ArrayType l e => holds_opt (well_formed false) l && holds_opt (well_formed false) e
  | ast.MapType k v => holds_opt (well_formed false) k && holds_opt (well_formed false) v
  | ast.InterfaceType m => holds_fields (well_formed false) m
  | ast.StructType f => holds_fields (well_formed false) f
  | ast.ChanType _ v => holds_opt (well_formed false) v
  | ast.FuncType ps rs =>
      holds_fields (well_formed false) ps && holds_fields (well_formed false) rs
  | ast.CompositeLit t es =>
      holds_opt (well_formed false) t && forallb (well_formed false) es
  | ast.Ellipsis e => holds_opt (well_formed false) e
  | ast.UnaryExpr _ x => holds_opt (well_formed false) x
  | ast.BinaryExpr x _ y => holds_opt (well_formed false) x && holds_opt (well_formed false) y
  | ast.IndexExpr x i => holds_opt (well_formed false) x && holds_opt (well_formed false) i
  | ast.KeyValueExpr k v => holds_opt (well_formed false) k && holds_opt (well_formed false) v
  | ast.SliceExpr x l h m =>
      holds_opt (well_formed false) x && holds_opt (well_formed false) l
      && holds_opt (well_formed false) h && holds_opt (well_formed false) m
  | ast.SelectorExpr x _ => holds_opt (well_formed false) x
  | ast.CallExpr f args _ =>
      holds_opt (well_formed false) f && forallb (well_formed false) args
  | ast.TypeAssertExpr x t =>
      holds_opt (well_formed false) x && holds_opt (well_formed false) t
  | ast.ParenExpr x => holds_opt (well_formed false) x
  | ast.FuncLit t b => well_formed false t && well_formed false b
  | _ => true
  end.

(** Walker code that, from the states whose parent satisfies [Q], never
    panics and leaves the parent as it was. *)
Definition steady {PS A : Type} (Q : option ast.Node -> Prop)
    (m : walkngo.W (PS := PS) A) : Prop :=
  forall w, Q (walkngo.parent w) ->
    exists (a : A) (w' : walkngo.GoWalker (PS := PS)),
      m w = Some (a, w') /\ walkngo.parent w' = walkngo.parent w.

(** [package main; var x int; func main() { f(x) }]. *)
Definition small_file : ast.Node :=
  ast.File "main"
    [ast.GenDecl "var" [ast.ValueSpec ["x"] (Some (ast.Ident "int")) []];
     ast.FuncDecl None "main" (Some []) None
       (Some (ast.BlockStmt
                [ast.ExprStmt
                   (Some (ast.CallExpr (Some (ast.Ident "f")) [ast.Ident "x"] 0))]))].

(** Walker code whose result, when it returns, satisfies [P]. *)
Definition results_in {PS A : Type} (P : A -> Prop) (m : walkngo.W (PS := PS) A) : Prop :=
  forall w a w', m w = Some (a, w') -> P a.

(** The announcements that are not meant to move the indentation level:
    all but [UpdateLevel], the start and the end of a block, and
    [PrintLevelIn], which steps back and forth. *)
Fixpoint level_neutral (a : Announcement) : bool :=
  match a with
  | AUpdateLevel _ | APrintBlockStart _ | APrintBlockEnd _ | APrintLevelIn _ _ => false
  | AScope body => forallb level_neutral body
  | _ => true
  end.

(** ** The helpers at work *)

Example Itoa_examples : Itoa 0 = "0" /\ Itoa 12 = "12" /\ Itoa (-7) = "-7".
Proof. repeat split. Qed.

Example strings_examples :
  strings.TrimRight "a, b, " ", " = "a, b" /\
  strings.SplitN2 "T* r" " " = ["T*"; "r"] /\
  strings.SplitN2 "T" " " = ["T"] /\
  strings.LastIndex "int[3]" "[" = 3 /\
  strings.HasSuffix "int[3]" "]" = true /\
  strings.slice_from "int[3]" 3 = "[3]" /\
  strings.TrimSpace "  x := 1
" = "x := 1".
Proof. repeat split. Qed.

Example GuessType_examples :
  cprinter.GuessType "0" = ("int", "0") /\ cprinter.GuessType "1.5" = ("float64", "1.5") /\
  cprinter.GuessType "x" = ("auto", "x") /\ cprinter.GuessType "map<int, int>{}" = ("map<int, int>", "map<int, int>{}") /\
  cprinter.GuessType "int[3]{1}" = ("int[3]", "int[3]{1}") /\ cprinter.GuessType "f(x[1])" = ("auto", "f(x[1])").
Proof. repeat split. Qed.

(** ** Facts about the helpers *)

Lemma wrap_small (z : Z) : int_range z -> wrap z = z.
Proof.
  unfold int_range, wrap. intros H.
  rewrite Z.mod_small; lia.
Qed.

Lemma Itoa_nonempty (z : Z) : (cprinter.strlen (Itoa z) =? 0) = false.
Proof.
  unfold Itoa, cprinter.strlen.
  destruct (Z.to_int z) as [d | d]; simpl.
  - destruct d; reflexivity.
  - reflexivity.
Qed.

Lemma Itoa_inj (a b : Z) : Itoa a = Itoa b -> a = b.
Proof.
  unfold Itoa. intros H.
  apply DecimalZ.to_int_inj.
  assert (N : forall z, Z.to_int z <> Decimal.Pos Decimal.Nil /\ Z.to_int z <> Decimal.Neg Decimal.Nil).
  { intros [| q | q]; simpl; split; try discriminate;
      intros [= E]; revert E; apply DecimalPos.Unsigned.to_uint_nonnil. }
  assert (E : Some (Z.to_int a) = Some (Z.to_int b)).
  { rewrite <- (NilZero.isi (Z.to_int a)) by apply N.
    rewrite <- (NilZero.isi (Z.to_int b)) by apply N.
    now rewrite H. }
  now injection E.
Qed.

(** The indentation of a level: [strings.Repeat] returns it for the
    levels from 0 up to (and without) 2^62, and panics at every other
    level (a negative count, or a length [2 * level] that overflows). *)
Lemma Repeat_indent (l : Z) :
  0 <= l < 2 ^ 62 ->
  strings.Repeat "  " l = Some (strings.repeat_nat "  " (Z.to_nat l)).
Proof.
  intros H. unfold strings.Repeat.
  destruct (Z.ltb_spec l 0) as [H0 | _]; [lia |].
  change (Z.of_nat (String.length "  ")) with 2.
  destruct (Z.ltb_spec (2 ^ 63 - 1) (2 * l)) as [H1 | _]; [lia | reflexivity].
Qed.

Lemma Repeat_indent_panics (l : Z) :
  l < 0 \/ 2 ^ 62 <= l -> strings.Repeat "  " l = None.
Proof.
  intros H. unfold strings.Repeat.
  destruct (Z.ltb_spec l 0) as [_ | H0]; [reflexivity |].
  change (Z.of_nat (String.length "  ")) with 2.
  destruct (Z.ltb_spec (2 ^ 63 - 1) (2 * l)) as [_ | H1]; [reflexivity | lia].
Qed.

Lemma append_nil_r (s : string) : s ++ "" = s.
Proof. induction s; simpl; congruence. Qed.

Lemma append_assoc_s (a b c : string) : (a ++ b) ++ c = a ++ (b ++ c).
Proof. induction a; simpl; congruence. Qed.

Lemma length_app_s (a b : string) :
  String.length (a ++ b) = (String.length a + String.length b)%nat.
Proof. induction a; simpl; congruence. Qed.

Lemma prefix_nil (s : string) : String.prefix "" s = true.
Proof. destruct s; reflexivity. Qed.



Lemma FormatIdent_IOTA (l : Z) (s : bool) (c : cprinter.CContext) (rest : list cprinter.CContext) :
  cprinter.FormatIdent cprinter.IOTA (cprinter.mkCPrinter l s (c :: rest)) =
  Some (Itoa (cprinter.iota c),
        cprinter.mkCPrinter l s (with_iota c (wrap (cprinter.iota c + 1)) :: rest), "").
Proof. reflexivity. Qed.

Lemma consume_counts (n : nat) : forall (k l : Z) (s : bool) (c : cprinter.CContext) rest,
  0 <= k -> k + Z.of_nat n < 2 ^ 63 ->
  consume n (cprinter.mkCPrinter l s (with_iota c k :: rest)) =
  Some (map Itoa (counts k n),
        cprinter.mkCPrinter l s (with_iota c (k + Z.of_nat n) :: rest), "").
Proof.
  induction n as [| n IH]; intros k l s c rest Hk Hn.
  - simpl. now rewrite Z.add_0_r.
  - cbn [consume]. unfold cprinter.bind at 1.
    rewrite FormatIdent_IOTA. cbn [cprinter.iota with_iota].
    rewrite wrap_small by (unfold int_range; lia).
    unfold cprinter.bind at 1.
    change (with_iota (with_iota c k) (k + 1)) with (with_iota c (k + 1)).
    rewrite IH by lia.
    replace (k + Z.of_nat (S n)) with (k + 1 + Z.of_nat n) by lia.
    reflexivity.
Qed.

(** ** The C printer: sequence constants *)

Lemma PrintValue_unspecified (NONE typedef names : string) (nt vt : bool)
    (l : Z) (s : bool) (c : cprinter.CContext) (rest : list cprinter.CContext) :
  cprinter.PrintValue NONE "const" typedef names "" nt vt
    (cprinter.mkCPrinter l s (c :: rest)) =
  cprinter.PrintValue NONE "const" typedef names (Itoa (cprinter.iota c)) nt vt
    (cprinter.mkCPrinter l s (with_iota c (wrap (cprinter.iota c + 1)) :: rest)).
Proof.
  unfold cprinter.PrintValue.
  rewrite Itoa_nonempty.
  change (("const" =? "var")%string) with false.
  change (("const" =? "const")%string) with true.
  change (cprinter.strlen "" =? 0) with true.
  cbn [andb].
  unfold cprinter.bind at 1.
  unfold cprinter.bind at 1.
  rewrite FormatIdent_IOTA.
  unfold cprinter.bind at 3.
  cbn [cprinter.ret].
  reflexivity.
Qed.

Lemma PrintLevel_ctx (term : string) (values : list string) (p p' : cprinter.CPrinter) (o : string) :
  cprinter.PrintLevel term values p = Some (tt, p', o) ->
  cprinter.ctx p' = cprinter.ctx p /\ cprinter.level p' = cprinter.level p.
Proof.
  unfold cprinter.PrintLevel, cprinter.indent, cprinter.bind, cprinter.get,
    cprinter.put, cprinter.ret, cprinter.Fprint, cprinter.panic.
  destruct (cprinter.sameline p).
  - intros [= <- _]. now split.
  - destruct (strings.Repeat "  " (cprinter.level p)); [| discriminate].
    intros [= <- _]. now split.
Qed.

Lemma group_keeps_counter (NONE : string) (p p' : cprinter.CPrinter) (o : string) :
  (cprinter.PrintBlockStart cprinter.CONST p = Some (tt, p', o) ->
   cprinter.ctx p' = cprinter.ctx p) /\
  (cprinter.PrintBlockEnd NONE cprinter.CONST p = Some (tt, p', o) ->
   cprinter.ctx p' = cprinter.ctx p).
Proof.
  split.
  - unfold cprinter.PrintBlockStart.
    unfold cprinter.bind at 1.
    destruct (cprinter.PrintLevel NL ["("] p) as [[[[] p1] o1] |] eqn:E1; [| discriminate].
    apply PrintLevel_ctx in E1. destruct E1 as [E1 _].
    cbn. intros [= <- _]. exact E1.
  - unfold cprinter.PrintBlockEnd.
    unfold cprinter.bind at 1.
    cbn [cprinter.UpdateLevel cprinter.bind cprinter.get cprinter.put].
    match goal with
    | |- context [cprinter.PrintLevel ?t ?v ?q] =>
        destruct (cprinter.PrintLevel t v q) as [[[[] p1] o1] |] eqn:E1; [| discriminate]
    end.
    apply PrintLevel_ctx in E1. destruct E1 as [E1 _].
    intros [= <- _]. exact E1.
Qed.

(** C1 (as amended).  In a freshly pushed context the consumed
    unspecified constant values render the counts 0, 1, 2, ... in order;
    an unspecified value of a [const] announcement is replaced by the
    current count, which then goes up by one; opening or closing a
    constant group leaves the context, and so the count, as it is. *)
Theorem sequence_constants_count :
  forall (n : nat) (l : Z) (s : bool) (rest : list cprinter.CContext),
    Z.of_nat n < 2 ^ 63 ->
    (cprinter.PushContext ;; consume n)%cp (cprinter.mkCPrinter l s rest) =
      Some (map Itoa (counts 0 n),
            cprinter.mkCPrinter l s (with_iota cprinter.new_context (Z.of_nat n) :: rest),
            "")
    /\ (forall (NONE typedef names : string) (nt vt : bool) (c : cprinter.CContext),
          cprinter.PrintValue NONE "const" typedef names "" nt vt
            (cprinter.mkCPrinter l s (c :: rest)) =
          cprinter.PrintValue NONE "const" typedef names (Itoa (cprinter.iota c)) nt vt
            (cprinter.mkCPrinter l s (with_iota c (wrap (cprinter.iota c + 1)) :: rest)))
    /\ (forall (NONE : string) (p p' : cprinter.CPrinter) (o : string),
          (cprinter.PrintBlockStart cprinter.CONST p = Some (tt, p', o) ->
           cprinter.ctx p' = cprinter.ctx p) /\
          (cprinter.PrintBlockEnd NONE cprinter.CONST p = Some (tt, p', o) ->
           cprinter.ctx p' = cprinter.ctx p)).
Proof.
  intros n l s rest Hn. split; [| split].
  - unfold cprinter.bind at 1. cbn [cprinter.PushContext cprinter.bind cprinter.get cprinter.put].
    cbn [cprinter.level cprinter.sameline cprinter.ctx].
    change cprinter.new_context with (with_iota cprinter.new_context 0).
    rewrite consume_counts by lia.
    reflexivity.
  - intros. apply PrintValue_unspecified.
  - intros. apply group_keeps_counter.
Qed.

Lemma sequence_constants_count_witness :
  (cprinter.PushContext ;; consume 3)%cp printer0 =
    Some (["0"; "1"; "2"],
          cprinter.mkCPrinter 0 false [with_iota cprinter.new_context 3], "").
Proof.
  exact (proj1 (sequence_constants_count 3 0 false [] eq_refl)).
Defined.

(** C1, the claim as stated fails: a second constant group announced in
    the same context does not start again at 0; its first unspecified
    value renders 3. *)
Lemma sequence_constants_no_reset :
  two_constant_groups printer0 =
    Some (tt,
          cprinter.mkCPrinter 0 false [with_iota cprinter.new_context 4],
          "(" ++ NL ++
          "  const int A = 0;" ++ NL ++
          "  const int B = 1;" ++ NL ++
          "  const int C = 2;" ++ NL ++
          ")(" ++ NL ++
          "  const int D = 3;" ++ NL ++
          ")").
Proof. vm_compute. reflexivity. Qed.

(** ** The C printer: the implicit receiver *)

Lemma strlen_pos_false (s : string) : 0 < cprinter.strlen s -> (cprinter.strlen s =? 0) = false.
Proof. intros H. apply Z.eqb_neq. lia. Qed.

(** C2.  When the function-header announcement records the receiver name
    (the second part of the receiver text) in the current context, a
    member selection on an object named like the receiver renders with
    ["this->"], and one on any other name keeps its qualifier. *)
Theorem implicit_receiver :
  forall (recv rtype rname name params results : string)
         (l : Z) (s : bool) (c : cprinter.CContext) (rest : list cprinter.CContext),
    0 < cprinter.strlen recv ->
    strings.SplitN2 recv " " = [rtype; rname] ->
    let p' := cprinter.mkCPrinter l s (with_receiver c rname :: rest) in
    cprinter.PrintFunc recv name params results (cprinter.mkCPrinter l s (c :: rest)) =
      Some (tt, p', method_header rtype rname name params results)
    /\ (forall sel : string,
          cprinter.FormatSelector rname sel true p' = Some ("this->" ++ sel, p', ""))
    /\ (forall other sel : string,
          other <> rname ->
          cprinter.FormatSelector other sel true p' = Some ((other ++ ".") ++ sel, p', "")).
Proof.
  intros recv rtype rname name params results l s c rest Hlen Hsplit.
  cbn zeta. split; [| split].
  - unfold cprinter.PrintFunc, method_header, header_results.
    rewrite (strlen_pos_false recv Hlen). cbn [andb].
    apply Z.ltb_lt in Hlen. rewrite Hlen. rewrite Hsplit.
    destruct (cprinter.strlen results =? 0);
      [| destruct (cprinter.IsMultiValue results)]; reflexivity.
  - intros sel. unfold cprinter.FormatSelector.
    cbn. now rewrite String.eqb_refl.
  - intros other sel Hne. unfold cprinter.FormatSelector.
    cbn. destruct (String.eqb_spec rname other) as [E | _]; [| reflexivity].
    now elim Hne.
Qed.

Lemma implicit_receiver_witness :
  let p' := cprinter.mkCPrinter 0 false [with_receiver cprinter.new_context "r"] in
  cprinter.PrintFunc "T* r" "Get" "" "int"
      (cprinter.mkCPrinter 0 false [cprinter.new_context]) =
    Some (tt, p', "int /* r */ T::Get() ")
  /\ (forall sel : string,
        cprinter.FormatSelector "r" sel true p' = Some ("this->" ++ sel, p', ""))
  /\ (forall other sel : string,
        other <> "r" ->
        cprinter.FormatSelector other sel true p' = Some ((other ++ ".") ++ sel, p', "")).
Proof.
  exact (implicit_receiver "T* r" "T*" "r" "Get" "" "int" 0 false
           cprinter.new_context [] eq_refl eq_refl).
Defined.

(** C10.  With no context ([p.ctx] is [nil]) [Selector] returns the
    explicit qualifier for every name, and so does a member selection on
    an object: the implicit-self form is never produced. *)
Theorem selector_without_context :
  forall (l : Z) (s : bool) (name sel : string),
    cprinter.Selector [] name = name ++ "."
    /\ cprinter.FormatSelector name sel true (cprinter.mkCPrinter l s []) =
         Some ((name ++ ".") ++ sel, cprinter.mkCPrinter l s [], "").
Proof. intros. split; reflexivity. Qed.

(** ** The C printer: deferred calls *)

Lemma PrintLevel_text (term : string) (values : list string) (l : Z) (s : bool)
    (cs : list cprinter.CContext) :
  0 <= l < 2 ^ 62 ->
  cprinter.PrintLevel term values (cprinter.mkCPrinter l s cs) =
  Some (tt, cprinter.mkCPrinter l false cs,
        indent_text l s ++ strings.Join values " " ++ term).
Proof.
  intros Hl.
  unfold cprinter.PrintLevel, cprinter.indent, cprinter.bind, cprinter.get,
    cprinter.put, cprinter.ret, cprinter.Fprint, indent_text.
  cbn [cprinter.sameline cprinter.level cprinter.ctx].
  destruct s.
  - reflexivity.
  - rewrite (Repeat_indent l Hl). reflexivity.
Qed.

Lemma PrintStmt_defer (SEMI expr : string) (l : Z) (s : bool)
    (c : cprinter.CContext) (rest : list cprinter.CContext) :
  0 <= l < 2 ^ 62 ->
  cprinter.PrintStmt SEMI "defer" expr (cprinter.mkCPrinter l s (c :: rest)) =
  Some (tt,
        cprinter.mkCPrinter l false
          (with_deferred c (wrap (cprinter.deferred c + 1)) :: rest),
        indent_text l s
          ++ deferred_wrapper ("defer" ++ Itoa (cprinter.deferred c)) expr ++ SEMI).
Proof.
  intros Hl.
  unfold cprinter.PrintStmt.
  change (("defer" =? "go")%string) with false.
  change (("defer" =? "defer")%string) with true.
  cbv iota.
  unfold cprinter.bind at 1. cbn [cprinter.get_ctx cprinter.ctx].
  unfold cprinter.bind at 1.
  rewrite PrintLevel_text by exact Hl.
  cbn [cprinter.set_ctx cprinter.ctx cprinter.level cprinter.sameline].
  unfold deferred_wrapper, with_deferred.
  cbn [strings.Join String.concat String.append].
  rewrite append_nil_r. reflexivity.
Qed.

Lemma PrintStmt_other (SEMI stmt expr : string) (l : Z) (s : bool)
    (cs : list cprinter.CContext) :
  0 <= l < 2 ^ 62 ->
  String.eqb stmt "defer" = false ->
  cprinter.PrintStmt SEMI stmt expr (cprinter.mkCPrinter l s cs) =
  Some (tt, cprinter.mkCPrinter l false cs,
        indent_text l s ++ statement_text stmt expr ++ SEMI).
Proof.
  intros Hl Hd.
  unfold cprinter.PrintStmt, statement_text. rewrite Hd.
  destruct (String.eqb stmt "go"); [| destruct (0 <? cprinter.strlen stmt)];
    rewrite PrintLevel_text by exact Hl; reflexivity.
Qed.

Lemma announce_all_text (SEMI : string) (body : list (string * string)) :
  forall (k l : Z) (c : cprinter.CContext) (rest : list cprinter.CContext),
    0 <= l < 2 ^ 62 -> 0 <= k -> k + Z.of_nat (List.length body) < 2 ^ 63 ->
    announce_all SEMI body (cprinter.mkCPrinter l false (with_deferred c k :: rest)) =
    Some (tt,
          cprinter.mkCPrinter l false
            (with_deferred c (k + Z.of_nat (count_defer body)) :: rest),
          body_text SEMI (indent_text l false) k body).
Proof.
  induction body as [| [stmt expr] body IH]; intros k l c rest Hl Hk Hn.
  - cbn. now rewrite Z.add_0_r.
  - cbn [announce_all body_text count_defer].
    change (List.length ((stmt, expr) :: body)) with (S (List.length body)) in Hn.
    unfold cprinter.bind at 1.
    destruct (String.eqb stmt "defer") eqn:Hd.
    + apply String.eqb_eq in Hd. subst stmt.
      rewrite PrintStmt_defer by exact Hl.
      cbn [cprinter.deferred with_deferred].
      rewrite wrap_small by (unfold int_range; lia).
      change (cprinter.mkCContext (cprinter.iota c) (k + 1) (cprinter.receiver c)
                (cprinter.ret_definitions c) (cprinter.ret_values c))
        with (with_deferred c (k + 1)).
      rewrite IH by lia.
      replace (k + Z.of_nat (S (count_defer body)))
        with (k + 1 + Z.of_nat (count_defer body)) by lia.
      reflexivity.
    + rewrite PrintStmt_other by assumption.
      rewrite IH by lia.
      reflexivity.
Qed.

(** ** The C printer: named results *)

(** C4, the code at the failing input: for the named result [a] of an
    array type the declaration is printed once at the top of the body,
    and the bare return is filled with [a[3]], the name with the array
    suffix moved onto it, in place of the name [a]. *)
Theorem named_array_result_return :
  named_results_body [cprinter.mkPair "a" "int[3]"] false printer0 =
    Some (["int /* a[3] */, "],
          cprinter.mkCPrinter 0 false
            [cprinter.mkCContext 0 0 "" "" "a[3], "],
          "{" ++ NL ++
          "  int a[3];" ++ NL ++
          "  {" ++ NL ++
          "  }  return a[3];" ++ NL ++
          "}").
Proof. vm_compute. reflexivity. Qed.

Example named_results_return :
  named_results_body [cprinter.mkPair "x" "int"; cprinter.mkPair "err" "error"] true printer0 =
    Some (["int /* x */, "; "error /* err */, "],
          cprinter.mkCPrinter 0 false
            [cprinter.mkCContext 0 0 "" "" "x, err, "],
          "{" ++ NL ++
          "  int x;error err;" ++ NL ++
          "  {" ++ NL ++
          "  }  return make_tuple(x, err);" ++ NL ++
          "}").
Proof. vm_compute. reflexivity. Qed.

(** ** The walker: relations kept by a traversal *)

Section Keeps.

Context {PS : Type} {Pr : Printer.Printer PS}.
Variable GoSyntax : ast.Node -> string.

Let GW : Type := walkngo.GoWalker (PS := PS).

Variable Pre : nat -> GW -> Prop.
Variable R : GW -> GW -> Prop.

Hypothesis Pre_mono : forall (d d' : nat) (w : GW), (d <= d')%nat -> Pre d' w -> Pre d w.
Hypothesis R_refl : forall w : GW, R w w.
Hypothesis R_trans : forall a b c : GW, R a b -> R b c -> R a c.
Hypothesis Pre_stable : forall (d : nat) (a b : GW), R a b -> Pre d a -> Pre d b.

Hypothesis R_set_parent : forall (d : nat) (n : option ast.Node),
  keeps (Pre d) R (walkngo.set_parent n).
Hypothesis R_call : forall (d : nat) (m : Printer.Method),
  (forall delta : Z, m <> Printer.UpdateLevel delta) ->
  keeps (Pre d) R (walkngo.call m).
Hypothesis R_Flush : forall d : nat, keeps (Pre d) R walkngo.Flush.
Hypothesis R_BufferVisit : forall (d : nat) (visit : option ast.Node -> walkngo.W bool)
    (node : option ast.Node),
  keeps (Pre d) R (visit node) ->
  keeps (Pre d) R (walkngo.BufferVisit_with visit node).
Hypothesis R_bracket : forall (d : nat) (A B : Type) (body : walkngo.W A) (rest : walkngo.W B),
  keeps (Pre d) R body ->
  keeps (Pre (S d)) R rest ->
  keeps (Pre (S d)) R
    (walkngo.call (Printer.UpdateLevel UP) ;;
     body ;;
     walkngo.call (Printer.UpdateLevel DOWN) ;;
     rest)%walk.

Lemma keeps_weaken (d d' : nat) (A : Type) (m : walkngo.W A) :
  (d <= d')%nat -> keeps (Pre d) R m -> keeps (Pre d') R m.
Proof. intros Hd H w a w' Hp E. eapply H; eauto. Qed.

Lemma keeps_ret (d : nat) (A : Type) (a : A) : keeps (Pre d) R (walkngo.retW a).
Proof. intros w x w' _ [= _ <-]. apply R_refl. Qed.

Lemma keeps_panic (d : nat) (A : Type) : keeps (Pre d) R (@walkngo.panicW PS A).
Proof. intros w x w' _ E. discriminate E. Qed.

Lemma keeps_bind (d : nat) (A B : Type) (m : walkngo.W A) (f : A -> walkngo.W B) :
  keeps (Pre d) R m -> (forall a, keeps (Pre d) R (f a)) ->
  keeps (Pre d) R (walkngo.bindW m f).
Proof.
  intros Hm Hf w b w' Hp E. unfold walkngo.bindW in E.
  destruct (m w) as [[a w1] |] eqn:Em; [| discriminate].
  pose proof (Hm _ _ _ Hp Em) as R1.
  eapply R_trans; [exact R1 |].
  eapply Hf; [| exact E]. eapply Pre_stable; eauto.
Qed.

Lemma keeps_get_parent (d : nat) : keeps (Pre d) R walkngo.get_parent.
Proof. intros w x w' _ [= _ <-]. apply R_refl. Qed.

Lemma keeps_nilable (d : nat) (A : Type) (f : ast.Node -> walkngo.W A) (zero : A)
    (o : option ast.Node) :
  option_all ast.Node (fun n => keeps (Pre (depth n)) R (f n)) o ->
  (depth_opt depth o <= d)%nat ->
  keeps (Pre d) R (walkngo.nilable f zero o).
Proof.
  intros H Hd. destruct H as [n Hn |]; simpl in *.
  - eapply keeps_weaken; eauto.
  - apply keeps_ret.
Qed.

Lemma keeps_forW (d : nat) (B : Type) (f : ast.Node -> walkngo.W B) (l : list ast.Node) :
  list_all ast.Node (fun n => keeps (Pre (depth n)) R (f n)) l ->
  (depth_list depth l <= d)%nat ->
  keeps (Pre d) R (walkngo.forW f l).
Proof.
  intros H. induction H as [| n Hn l Hl IH]; intros Hd; simpl in *.
  - apply keeps_ret.
  - apply keeps_bind.
    + eapply keeps_weaken; [| exact Hn]. lia.
    + intros _. apply IH. lia.
Qed.

Lemma keeps_mapW (d : nat) (B : Type) (f : ast.Node -> walkngo.W B) (l : list ast.Node) :
  list_all ast.Node (fun n => keeps (Pre (depth n)) R (f n)) l ->
  (depth_list depth l <= d)%nat ->
  keeps (Pre d) R (walkngo.mapW f l).
Proof.
  intros H. induction H as [| n Hn l Hl IH]; intros Hd; simpl in *.
  - apply keeps_ret.
  - apply keeps_bind.
    + eapply keeps_weaken; [| exact Hn]. lia.
    + intros y. apply keeps_bind; [apply IH; lia |].
      intros ys. apply keeps_ret.
Qed.

Lemma keeps_parseExprList (d : nat) (f : ast.Node -> walkngo.W string) (l : list ast.Node) :
  list_all ast.Node (fun n => keeps (Pre (depth n)) R (f n)) l ->
  (depth_list depth l <= d)%nat ->
  keeps (Pre d) R (walkngo.parseExprList_with f l).
Proof.
  intros H Hd. unfold walkngo.parseExprList_with.
  apply keeps_bind; [now apply keeps_mapW |].
  intros. apply keeps_ret.
Qed.

Lemma keeps_parseFieldList (d : nat) (f : ast.Node -> walkngo.W string)
    (fl : option ast.FieldList) (sep : string) :
  option_all _
    (list_all _
       (prod_all (list string) (fun _ => unit) (option ast.Node)
          (option_all ast.Node (fun n => keeps (Pre (depth n)) R (f n))))) fl ->
  (depth_fields depth fl <= d)%nat ->
  keeps (Pre d) R (walkngo.parseFieldList_with (walkngo.nilable f "") fl sep).
Proof.
  intros H Hd. destruct H as [l Hl |]; simpl in *.
  - apply keeps_bind; [| intros; apply keeps_ret].
    revert Hd. induction Hl as [| fd Hfd l Hl IH]; intros Hd; simpl in *.
    + apply keeps_ret.
    + apply keeps_bind.
      * destruct Hfd as [names _ t Ht]. simpl in *.
        destruct (0 <? walkngo.strlen (walkngo.parseNames names)).
        -- apply keeps_bind; [| intros; apply keeps_ret].
           eapply keeps_nilable; [exact Ht | lia].
        -- eapply keeps_nilable; [exact Ht | lia].
      * intros y. apply keeps_bind; [apply IH; lia |].
        intros. apply keeps_ret.
  - apply keeps_ret.
Qed.

Lemma list_all_impl (A : Type) (P Q : A -> Prop) (l : list A) :
  (forall x, P x -> Q x) -> list_all A P l -> list_all A Q l.
Proof. intros H X. induction X; constructor; auto. Qed.

Lemma option_all_impl (A : Type) (P Q : A -> Prop) (o : option A) :
  (forall x, P x -> Q x) -> option_all A P o -> option_all A Q o.
Proof. intros H X. destruct X; constructor; auto. Qed.

Lemma fields_all_impl (P Q : ast.Node -> Prop) (fl : option ast.FieldList) :
  (forall x, P x -> Q x) ->
  option_all _ (list_all _ (prod_all (list string) (fun _ => unit) (option ast.Node)
                              (option_all ast.Node P))) fl ->
  option_all _ (list_all _ (prod_all (list string) (fun _ => unit) (option ast.Node)
                              (option_all ast.Node Q))) fl.
Proof.
  intros H X. destruct X as [l Hl |]; constructor.
  induction Hl as [| fd Hfd l Hl IH]; constructor; auto.
  destruct Hfd as [names u t Ht]. constructor; auto.
  eapply option_all_impl; eauto.
Qed.

Ltac keeps_depth := cbn [depth depth_opt]; lia.

Ltac keeps_pick := intros ? [? ?]; assumption.

Ltac keeps_ih :=
  match goal with
  | H : keeps _ _ (_ ?c) /\ _ |- keeps _ _ (_ ?c) =>
      eapply keeps_weaken; [| first [exact (proj1 H) | exact (proj2 H)]]; keeps_depth
  | H : keeps _ _ (_ ?c) |- keeps _ _ (_ ?c) =>
      eapply keeps_weaken; [| exact H]; keeps_depth
  | |- keeps _ _ (walkngo.nilable _ _ _) =>
      eapply keeps_nilable;
      [ eapply option_all_impl; [| eassumption]; keeps_pick | keeps_depth ]
  | |- keeps _ _ (walkngo.forW _ _) =>
      eapply keeps_forW;
      [ eapply list_all_impl; [| eassumption]; keeps_pick | keeps_depth ]
  | |- keeps _ _ (walkngo.parseExprList_with _ _) =>
      eapply keeps_parseExprList;
      [ eapply list_all_impl; [| eassumption]; keeps_pick | keeps_depth ]
  | |- keeps _ _ (walkngo.parseFieldList_with _ _ _) =>
      eapply keeps_parseFieldList;
      [ eapply fields_all_impl; [| eassumption]; keeps_pick | keeps_depth ]
  end.

Ltac keeps_step :=
  lazymatch goal with
  | |- keeps _ _ (walkngo.retW _) => apply keeps_ret
  | |- keeps _ _ walkngo.panicW => apply keeps_panic
  | |- keeps _ _ walkngo.get_parent => apply keeps_get_parent
  | |- keeps _ _ (walkngo.set_parent _) => apply R_set_parent
  | |- keeps _ _ walkngo.Flush => apply R_Flush
  | |- keeps _ _ (walkngo.bindW (walkngo.call (Printer.UpdateLevel UP))
                    (fun _ => walkngo.bindW (walkngo.forW _ ?l) _)) =>
      apply keeps_weaken with (d := S (depth_list depth l));
      [ keeps_depth | apply R_bracket ]
  | |- keeps _ _ (walkngo.call _) => apply R_call; intros ? ?; discriminate
  | |- keeps _ _ (walkngo.nilable _ _ (Some _)) => cbn [walkngo.nilable]
  | |- keeps _ _ (walkngo.BufferVisit_with _ _) => apply R_BufferVisit
  | |- keeps _ _ (walkngo.exprOr_with _ _ _) => unfold walkngo.exprOr_with
  | |- keeps _ _ (walkngo.bindW _ _) => apply keeps_bind; [| intros ?]
  | H : option_all _ _ ?x |- keeps _ _ (match ?x with _ => _ end) =>
      destruct H as [? [? ?] |]
  | |- keeps _ _ (match ?x with _ => _ end) => destruct x
  | |- _ => keeps_ih
  end.

Lemma Visit_keeps : forall n : ast.Node,
  keeps (Pre (depth n)) R (walkngo.Visit GoSyntax n) /\
  keeps (Pre (depth n)) R (walkngo.parseExpr GoSyntax n).
Proof.
  induction n; (split; [cbn [walkngo.Visit] | cbn [walkngo.parseExpr]]);
    repeat keeps_step.
Qed.

End Keeps.

(** ** The walker: capturing a subtree *)

Section Capture.

Context {PS : Type} {Pr : Printer.Printer PS}.
Variable GoSyntax : ast.Node -> string.

Let GW : Type := walkngo.GoWalker (PS := PS).
Let top : nat -> GW -> Prop := fun _ _ => True.

Lemma Flush_eq (w : GW) :
  walkngo.Flush w =
  Some (tt,
        if walkngo.flush w && (0 <? walkngo.strlen (walkngo.buffer w))
        then walkngo.mkGoWalker (walkngo.p w) (walkngo.parent w) ""
               (walkngo.flush w) (walkngo.stdout w ++ walkngo.buffer w)
        else w).
Proof.
  unfold walkngo.Flush, walkngo.bindW, walkngo.get_flush, walkngo.get_buffer.
  destruct (walkngo.flush w && (0 <? walkngo.strlen (walkngo.buffer w))); reflexivity.
Qed.

Lemma strlen_zero (s : string) : (0 <? walkngo.strlen s) = false -> s = "".
Proof.
  destruct s; [reflexivity |].
  unfold walkngo.strlen. cbn [String.length]. intros H.
  apply Z.ltb_ge in H. lia.
Qed.

Lemma flush_frame_refl (w : GW) : flush_frame w w.
Proof. split; auto. Qed.

Lemma flush_frame_trans (a b c : GW) : flush_frame a b -> flush_frame b c -> flush_frame a c.
Proof.
  intros [F1 S1] [F2 S2]. split; [congruence |].
  intros H. rewrite S2, S1; congruence.
Qed.

Lemma flush_frame_call (d : nat) (m : Printer.Method) :
  keeps (top d) flush_frame (walkngo.call m).
Proof.
  intros w a w' _ E. unfold walkngo.call in E.
  destruct (Printer.invoke m (walkngo.p w)) as [[s o] |]; [| discriminate].
  injection E as _ <-. split; auto.
Qed.

Lemma flush_frame_set_parent (d : nat) (n : option ast.Node) :
  keeps (top d) flush_frame (walkngo.set_parent n).
Proof. intros w a w' _ [= _ <-]. split; auto. Qed.

Lemma flush_frame_Flush (d : nat) : keeps (top d) flush_frame walkngo.Flush.
Proof.
  intros w a w' _ E. rewrite Flush_eq in E. injection E as _ <-.
  destruct (walkngo.flush w) eqn:F; cbn [andb].
  - destruct (0 <? walkngo.strlen (walkngo.buffer w)); split; cbn; congruence.
  - split; auto.
Qed.

Lemma flush_frame_BufferVisit (d : nat) (visit : option ast.Node -> walkngo.W bool)
    (node : option ast.Node) :
  keeps (top d) flush_frame (visit node) ->
  keeps (top d) flush_frame (walkngo.BufferVisit_with visit node).
Proof.
  intros Hv w a w' _ E.
  unfold walkngo.BufferVisit_with in E. unfold walkngo.bindW at 1 in E.
  rewrite Flush_eq in E.
  set (w1 := if walkngo.flush w && (0 <? walkngo.strlen (walkngo.buffer w))
             then _ else w) in E.
  assert (F1 : flush_frame w w1).
  { apply (flush_frame_Flush d w tt w1 I). apply Flush_eq. }
  cbn [walkngo.bindW walkngo.get_flush walkngo.set_flush] in E.
  unfold walkngo.bindW at 1 in E.
  match type of E with
  | context [visit node ?w2] =>
      destruct (visit node w2) as [[r w3] |] eqn:Ev; [| discriminate];
      pose proof (Hv _ _ _ I Ev) as [F3 S3]
  end.
  cbn [walkngo.flush walkngo.stdout] in F3, S3.
  cbn [walkngo.bindW walkngo.set_flush walkngo.get_buffer walkngo.get_flush
         walkngo.flush walkngo.buffer_Reset walkngo.retW] in E.
  destruct F1 as [F1 S1].
  destruct (walkngo.flush w1) eqn:Fw1; injection E as _ <-;
    split; cbn [walkngo.flush walkngo.stdout]; try congruence.
  intros Hw. rewrite S3 by reflexivity. apply S1, Hw.
Qed.

Lemma flush_frame_bracket (d : nat) (A B : Type) (body : walkngo.W A) (rest : walkngo.W B) :
  keeps (top d) flush_frame body ->
  keeps (top (S d)) flush_frame rest ->
  keeps (top (S d)) flush_frame
    (walkngo.call (Printer.UpdateLevel UP) ;;
     body ;;
     walkngo.call (Printer.UpdateLevel DOWN) ;;
     rest)%walk.
Proof.
  intros Hb Hr.
  assert (T : forall a b c : GW, flush_frame a b -> flush_frame b c -> flush_frame a c)
    by apply flush_frame_trans.
  assert (St : forall (k : nat) (a b : GW), flush_frame a b -> top k a -> top k b)
    by (intros; exact I).
  apply (keeps_bind top flush_frame T St); [apply flush_frame_call |]. intros _.
  apply (keeps_bind top flush_frame T St); [exact Hb |]. intros _.
  apply (keeps_bind top flush_frame T St); [apply flush_frame_call |]. intros _.
  exact Hr.
Qed.

(** A traversal leaves the flushing mode as it was and, with flushing
    off, prints nothing. *)
Lemma Visit_flush_frame (n : ast.Node) (w w' : GW) (r : bool) :
  walkngo.Visit GoSyntax n w = Some (r, w') -> flush_frame w w'.
Proof.
  intros E.
  refine (proj1 (Visit_keeps GoSyntax top flush_frame _ _ _ _ _ _ _ _ _ n) w r w' I E).
  - intros; exact I.
  - apply flush_frame_refl.
  - apply flush_frame_trans.
  - intros; exact I.
  - apply flush_frame_set_parent.
  - intros d m _. apply flush_frame_call.
  - apply flush_frame_Flush.
  - apply flush_frame_BufferVisit.
  - apply flush_frame_bracket.
Qed.









End Capture.
Lemma BufferVisit_with_live (PS : Type) (Pr : Printer.Printer PS)
    (visit : option ast.Node -> walkngo.W bool) (node : option ast.Node)
    (w : walkngo.GoWalker (PS := PS)) :
  walkngo.flush w = true ->
  walkngo.BufferVisit_with visit node w =
    match visit node (isolated w) with
    | Some (_, w2) =>
        Some (strings.TrimSpace (walkngo.buffer w2),
              walkngo.mkGoWalker (walkngo.p w2) (walkngo.parent w2) "" true
                (walkngo.stdout w2))
    | None => None
    end.
Proof.
  destruct w as [p0 par buf fl out]. cbn [walkngo.flush]. intros ->.
  unfold walkngo.BufferVisit_with, walkngo.Flush, walkngo.bindW, walkngo.get_flush,
    walkngo.get_buffer, walkngo.set_flush, walkngo.fmt_Print, walkngo.buffer_Reset,
    walkngo.retW, isolated.
  cbn [walkngo.flush walkngo.buffer walkngo.p walkngo.parent walkngo.stdout andb].
  destruct (0 <? walkngo.strlen buf) eqn:E.
  - cbn [walkngo.flush walkngo.buffer walkngo.p walkngo.parent walkngo.stdout].
    destruct (visit node _) as [[r w2] |]; reflexivity.
  - apply strlen_zero in E. subst buf. rewrite append_nil_r.
    cbn [walkngo.flush walkngo.buffer walkngo.p walkngo.parent walkngo.stdout].
    destruct (visit node _) as [[r w2] |]; reflexivity.
Qed.

Lemma BufferVisit_with_suspended (PS : Type) (Pr : Printer.Printer PS)
    (visit : option ast.Node -> walkngo.W bool) (node : option ast.Node)
    (w : walkngo.GoWalker (PS := PS)) :
  walkngo.flush w = false ->
  walkngo.BufferVisit_with visit node w =
    match visit node w with
    | Some (_, w2) =>
        Some (strings.TrimSpace (walkngo.buffer w2),
              walkngo.mkGoWalker (walkngo.p w2) (walkngo.parent w2) (walkngo.buffer w2)
                false (walkngo.stdout w2))
    | None => None
    end.
Proof.
  destruct w as [p0 par buf fl out]. cbn [walkngo.flush]. intros ->.
  unfold walkngo.BufferVisit_with, walkngo.Flush, walkngo.bindW, walkngo.get_flush,
    walkngo.get_buffer, walkngo.set_flush, walkngo.fmt_Print, walkngo.buffer_Reset,
    walkngo.retW.
  cbn [walkngo.flush walkngo.buffer walkngo.p walkngo.parent walkngo.stdout andb].
  destruct (visit node _) as [[r w2] |]; reflexivity.
Qed.




(** ** The walker: the indentation level *)

Section PrinterRelation.

Context {PS : Type} {Pr : Printer.Printer PS}.
Variable GoSyntax : ast.Node -> string.
Variable Pp : nat -> PS -> Prop.
Variable Rp : PS -> PS -> Prop.

Hypothesis Pp_mono : forall (d d' : nat) (s : PS), (d <= d')%nat -> Pp d' s -> Pp d s.
Hypothesis Rp_refl : forall s : PS, Rp s s.
Hypothesis Rp_trans : forall a b c : PS, Rp a b -> Rp b c -> Rp a c.
Hypothesis Pp_stable : forall (d : nat) (a b : PS), Rp a b -> Pp d a -> Pp d b.
Hypothesis Rp_invoke : forall (d : nat) (m : Printer.Method) (s s' : PS) (o : string),
  (forall delta : Z, m <> Printer.UpdateLevel delta) ->
  Pp d s -> Printer.invoke m s = Some (s', o) -> Rp s s'.
Hypothesis Pp_up : forall (d : nat) (s s1 : PS) (o : string),
  Pp (S d) s -> Printer.invoke (Printer.UpdateLevel UP) s = Some (s1, o) -> Pp d s1.
Hypothesis Rp_up_down : forall (d : nat) (s s1 s2 s3 : PS) (o1 o3 : string),
  Pp (S d) s ->
  Printer.invoke (Printer.UpdateLevel UP) s = Some (s1, o1) ->
  Rp s1 s2 ->
  Printer.invoke (Printer.UpdateLevel DOWN) s2 = Some (s3, o3) ->
  Rp s s3.

Lemma on_p_call (d : nat) (m : Printer.Method) :
  (forall delta : Z, m <> Printer.UpdateLevel delta) ->
  keeps (at_p Pp d) (on_p Rp) (walkngo.call m).
Proof.
  intros Hm w a w' Hp E. unfold walkngo.call in E.
  destruct (Printer.invoke m (walkngo.p w)) as [[s o] |] eqn:Ei; [| discriminate].
  injection E as _ <-. unfold on_p. cbn. eapply Rp_invoke; eauto.
Qed.

Lemma on_p_Flush (d : nat) : keeps (at_p Pp d) (on_p Rp) walkngo.Flush.
Proof.
  intros w a w' _ E. rewrite Flush_eq in E. injection E as _ <-.
  unfold on_p. destruct (_ && _); apply Rp_refl.
Qed.

Lemma on_p_BufferVisit (d : nat) (visit : option ast.Node -> walkngo.W bool)
    (node : option ast.Node) :
  keeps (at_p Pp d) (on_p Rp) (visit node) ->
  keeps (at_p Pp d) (on_p Rp) (walkngo.BufferVisit_with visit node).
Proof.
  intros Hv w a w' Hp E.
  unfold walkngo.BufferVisit_with in E. unfold walkngo.bindW at 1 in E.
  rewrite Flush_eq in E.
  set (w1 := if walkngo.flush w && (0 <? walkngo.strlen (walkngo.buffer w))
             then _ else w) in E.
  assert (P1 : walkngo.p w1 = walkngo.p w) by (subst w1; destruct (_ && _); reflexivity).
  cbn [walkngo.bindW walkngo.get_flush walkngo.set_flush] in E.
  unfold walkngo.bindW at 1 in E.
  match type of E with
  | context [visit node ?w2] =>
      destruct (visit node w2) as [[r w3] |] eqn:Ev; [| discriminate];
      assert (R3 : on_p Rp w2 w3) by
        (apply (Hv _ _ _) in Ev; [exact Ev | unfold at_p; cbn; rewrite P1; exact Hp])
  end.
  unfold on_p in R3. cbn [walkngo.p] in R3. rewrite P1 in R3.
  cbn [walkngo.bindW walkngo.set_flush walkngo.get_buffer walkngo.get_flush
         walkngo.flush walkngo.buffer_Reset walkngo.retW] in E.
  destruct (walkngo.flush w1); injection E as _ <-; exact R3.
Qed.

Lemma on_p_bracket (d : nat) (A B : Type) (body : walkngo.W A) (rest : walkngo.W B) :
  keeps (at_p Pp d) (on_p Rp) body ->
  keeps (at_p Pp (S d)) (on_p Rp) rest ->
  keeps (at_p Pp (S d)) (on_p Rp)
    (walkngo.call (Printer.UpdateLevel UP) ;;
     body ;;
     walkngo.call (Printer.UpdateLevel DOWN) ;;
     rest)%walk.
Proof.
  intros Hb Hr w b w' Hp E.
  unfold walkngo.bindW at 1 in E. unfold walkngo.call at 1 in E.
  destruct (Printer.invoke (Printer.UpdateLevel UP) (walkngo.p w)) as [[s1 o1] |] eqn:E1;
    [| discriminate].
  unfold walkngo.bindW at 1 in E.
  match type of E with
  | context [body ?w1] =>
      destruct (body w1) as [[x w2] |] eqn:E2; [| discriminate];
      assert (R2 : on_p Rp w1 w2) by
        (eapply Hb; [| exact E2]; unfold at_p; cbn; eapply Pp_up; eauto)
  end.
  unfold on_p in R2. cbn [walkngo.p] in R2.
  unfold walkngo.bindW at 1 in E. unfold walkngo.call at 1 in E.
  destruct (Printer.invoke (Printer.UpdateLevel DOWN) (walkngo.p w2)) as [[s3 o3] |] eqn:E3;
    [| discriminate].
  assert (R3 : Rp (walkngo.p w) s3) by (eapply Rp_up_down; eauto).
  match type of E with
  | rest ?w3 = _ =>
      assert (R4 : on_p Rp w3 w') by
        (eapply Hr; [| exact E]; unfold at_p; cbn; eapply Pp_stable; eauto)
  end.
  unfold on_p in *. cbn [walkngo.p] in R4. eapply Rp_trans; eauto.
Qed.

Lemma Visit_on_p (n : ast.Node) (w w' : walkngo.GoWalker (PS := PS)) (r : bool) :
  Pp (depth n) (walkngo.p w) ->
  walkngo.Visit GoSyntax n w = Some (r, w') ->
  Rp (walkngo.p w) (walkngo.p w').
Proof.
  intros Hp E.
  refine (proj1 (Visit_keeps GoSyntax (at_p Pp) (on_p Rp) _ _ _ _ _ _ _ _ _ n) w r w' Hp E).
  - intros d d' x. apply Pp_mono.
  - intros x. apply Rp_refl.
  - intros a b c. apply Rp_trans.
  - intros d a b. apply Pp_stable.
  - intros d m x a x' _ [= _ <-]. apply Rp_refl.
  - apply on_p_call.
  - apply on_p_Flush.
  - apply on_p_BufferVisit.
  - apply on_p_bracket.
Qed.

End PrinterRelation.

Lemma wrap_range (z : Z) : int_range (wrap z).
Proof.
  unfold int_range, wrap.
  pose proof (Z.mod_pos_bound (z + 2 ^ 63) (2 ^ 64) ltac:(lia)). lia.
Qed.

Lemma wrap_up_down (l : Z) : int_range l -> wrap (wrap (l + UP) + DOWN) = l.
Proof.
  unfold int_range, wrap, UP, DOWN. intros H.
  replace ((l + 1 + 2 ^ 63) mod 2 ^ 64 - 2 ^ 63 + -1 + 2 ^ 63)
    with ((l + 1 + 2 ^ 63) mod 2 ^ 64 - 1) by lia.
  rewrite Zminus_mod_idemp_l.
  replace (l + 1 + 2 ^ 63 - 1) with (l + 2 ^ 63) by lia.
  rewrite Z.mod_small; lia.
Qed.

Section Levels.

Context {PS : Type} {Pr : Printer.Printer PS}.
Variable level : PS -> Z.
Context {L : LevelPrinter Pr level}.
Variable GoSyntax : ast.Node -> string.

(** A traversal leaves the level of the printer as it found it. *)
Lemma Visit_same_level (n : ast.Node) (w w' : walkngo.GoWalker (PS := PS)) (r : bool) :
  int_range (level (walkngo.p w)) ->
  walkngo.Visit GoSyntax n w = Some (r, w') ->
  level (walkngo.p w') = level (walkngo.p w).
Proof.
  intros Hr E.
  refine (Visit_on_p GoSyntax (fun _ s => int_range (level s)) (same_level level)
            _ _ _ _ _ _ _ n w w' r Hr E); unfold same_level.
  - intros; assumption.
  - reflexivity.
  - intros a b c H1 H2. congruence.
  - intros d a b H1 H2. now rewrite H1.
  - intros d m s s' o Hm _ Ei. eapply other_level; eauto.
  - intros d s s1 o _ E1. rewrite (UpdateLevel_level _ _ _ _ E1). apply wrap_range.
  - intros d s s1 s2 s3 o1 o3 Hs E1 E2 E3.
    rewrite (UpdateLevel_level _ _ _ _ E3), E2, (UpdateLevel_level _ _ _ _ E1).
    now apply wrap_up_down.
Qed.

Lemma Monitored_invoke (m : Printer.Method) (st : PS * list Z) :
  Printer.invoke (Printer := Monitored Pr level) m st =
  match Printer.invoke m (fst st) with
  | None => None
  | Some (s', o) => Some ((s', (snd st ++ [level s'])%list), o)
  end.
Proof. reflexivity. Qed.

(** Under the monitor a traversal leaves the level as it found it and
    logs no level below it. *)
Lemma Visit_level_floor (n : ast.Node)
    (w w' : walkngo.GoWalker (PS := PS * list Z)) (r : bool) :
  int_range (level (fst (walkngo.p w))) ->
  level (fst (walkngo.p w)) + Z.of_nat (depth n) < 2 ^ 63 ->
  walkngo.Visit (Pr := Monitored Pr level) GoSyntax n w = Some (r, w') ->
  level_floor level (walkngo.p w) (walkngo.p w').
Proof.
  intros Hr Hd E.
  refine (Visit_on_p (Pr := Monitored Pr level) GoSyntax
            (fun d s => int_range (level (fst s)) /\ level (fst s) + Z.of_nat d < 2 ^ 63)
            (level_floor level)
            _ _ _ _ _ _ _ n w w' r (conj Hr Hd) E); unfold level_floor.
  - intros d d' s Hle [H1 H2]. split; [exact H1 | lia].
  - intros s. split; [reflexivity |]. exists []. split; [now rewrite List.app_nil_r | constructor].
  - intros a b c [L1 [n1 [S1 F1]]] [L2 [n2 [S2 F2]]]. split; [congruence |].
    exists (n1 ++ n2)%list. split.
    + rewrite S2, S1. now rewrite List.app_assoc.
    + apply List.Forall_app. split; [exact F1 |]. rewrite L1 in F2. exact F2.
  - intros d a b [L1 _] H. now rewrite L1.
  - intros d m s s' o Hm _ Ei. rewrite Monitored_invoke in Ei.
    destruct (Printer.invoke m (fst s)) as [[s1 o1] |] eqn:E1; [| discriminate].
    injection Ei as <- _. cbn [fst snd].
    pose proof (other_level _ _ _ _ Hm E1) as L1. split; [exact L1 |].
    exists [level s1]. split; [reflexivity |]. constructor; [lia | constructor].
  - intros d s s1 o [H1 H2] Ei. rewrite Monitored_invoke in Ei.
    destruct (Printer.invoke (Printer.UpdateLevel UP) (fst s)) as [[s' o'] |] eqn:E1;
      [| discriminate].
    injection Ei as <- _. cbn [fst].
    rewrite (UpdateLevel_level _ _ _ _ E1).
    unfold int_range, UP in *.
    rewrite wrap_small by (unfold int_range; lia). lia.
  - intros d s s1 s2 s3 o1 o3 [H1 H2] Ea [L2 [n2 [S2 F2]]] Eb.
    rewrite Monitored_invoke in Ea, Eb.
    destruct (Printer.invoke (Printer.UpdateLevel UP) (fst s)) as [[a1 p1] |] eqn:E1;
      [| discriminate].
    injection Ea as <- _. cbn [fst snd] in *.
    destruct (Printer.invoke (Printer.UpdateLevel DOWN) (fst s2)) as [[a3 p3] |] eqn:E3;
      [| discriminate].
    injection Eb as <- _. cbn [fst snd].
    pose proof (UpdateLevel_level _ _ _ _ E1) as U1.
    pose proof (UpdateLevel_level _ _ _ _ E3) as U3.
    assert (V1 : level a1 = level (fst s) + 1).
    { rewrite U1. unfold int_range, UP in *.
      rewrite wrap_small by (unfold int_range; lia). lia. }
    assert (V3 : level a3 = level (fst s)).
    { rewrite U3, L2, V1. unfold int_range, DOWN in *.
      rewrite wrap_small by (unfold int_range; lia). lia. }
    split; [exact V3 |].
    exists ([level a1] ++ n2 ++ [level a3])%list. split.
    + rewrite S2. now rewrite <- !List.app_assoc.
    + apply List.Forall_app. split; [constructor; [lia | constructor] |].
      apply List.Forall_app. split.
      * eapply Forall_impl; [| exact F2]. cbn beta. intros x Hx. lia.
      * constructor; [lia | constructor].
Qed.

End Levels.

(** ** The C printer keeps a level *)

Lemma level_kept_ret (A : Type) (a : A) : level_kept (cprinter.ret a).
Proof. intros p x p' o [= _ <- _]. reflexivity. Qed.

Lemma level_kept_panic (A : Type) : level_kept (@cprinter.panic A).
Proof. intros p x p' o E. discriminate E. Qed.

Lemma level_kept_bind (A B : Type) (m : cprinter.P A) (f : A -> cprinter.P B) :
  level_kept m -> (forall a, level_kept (f a)) -> level_kept (cprinter.bind m f).
Proof.
  intros Hm Hf p b p' o E. unfold cprinter.bind in E.
  destruct (m p) as [[[a p1] o1] |] eqn:Em; [| discriminate].
  destruct (f a p1) as [[[b' p2] o2] |] eqn:Ef; [| discriminate].
  injection E as _ <- _.
  rewrite (Hf _ _ _ _ _ Ef). eapply Hm; eauto.
Qed.

Lemma level_kept_Fprint (s : string) : level_kept (cprinter.Fprint s).
Proof. intros p x p' o [= _ <- _]. reflexivity. Qed.

Lemma level_kept_get_ctx : level_kept cprinter.get_ctx.
Proof.
  intros p x p' o E. unfold cprinter.get_ctx in E.
  destruct (cprinter.ctx p); [discriminate |]. now injection E as _ <- _.
Qed.

Lemma level_kept_set_ctx (c : cprinter.CContext) : level_kept (cprinter.set_ctx c).
Proof.
  intros p x p' o E. unfold cprinter.set_ctx in E.
  destruct (cprinter.ctx p); [discriminate |]. now injection E as _ <- _.
Qed.

Lemma level_kept_indent : level_kept cprinter.indent.
Proof.
  intros p x p' o E.
  unfold cprinter.indent, cprinter.bind, cprinter.get, cprinter.put, cprinter.ret,
    cprinter.panic in E.
  destruct (cprinter.sameline p).
  - now injection E as _ <- _.
  - destruct (strings.Repeat "  " (cprinter.level p)); [| discriminate].
    now injection E as _ <- _.
Qed.

Lemma level_kept_PrintLevel (term : string) (values : list string) :
  level_kept (cprinter.PrintLevel term values).
Proof.
  apply level_kept_bind; [apply level_kept_indent |].
  intros. apply level_kept_Fprint.
Qed.

Lemma level_kept_Print (values : list string) : level_kept (cprinter.Print values).
Proof. apply level_kept_Fprint. Qed.

Lemma level_kept_SameLine : level_kept cprinter.SameLine.
Proof. intros p x p' o [= _ <- _]. reflexivity. Qed.

Ltac level_kept_step :=
  lazymatch goal with
  | |- level_kept (cprinter.ret _) => apply level_kept_ret
  | |- level_kept cprinter.panic => apply level_kept_panic
  | |- level_kept (cprinter.Fprint _) => apply level_kept_Fprint
  | |- level_kept cprinter.get_ctx => apply level_kept_get_ctx
  | |- level_kept (cprinter.set_ctx _) => apply level_kept_set_ctx
  | |- level_kept (cprinter.PrintLevel _ _) => apply level_kept_PrintLevel
  | |- level_kept (cprinter.Print _) => apply level_kept_Print
  | |- level_kept (cprinter.bind _ _) => apply level_kept_bind; [| intros ?]
  | |- level_kept (if ?c then _ else _) => destruct c
  | |- level_kept (match ?x with _ => _ end) => destruct x
  end.

Lemma level_kept_PrintStmt (SEMI stmt expr : string) :
  level_kept (cprinter.PrintStmt SEMI stmt expr).
Proof. unfold cprinter.PrintStmt. repeat level_kept_step. Qed.

Lemma level_kept_PrintFunc (receiver name params results : string) :
  level_kept (cprinter.PrintFunc receiver name params results).
Proof. unfold cprinter.PrintFunc. repeat level_kept_step. Qed.

Lemma level_moved_UpdateLevel (d : Z) : level_moved d (cprinter.UpdateLevel d).
Proof. intros p x p' o [= _ <- _]. reflexivity. Qed.

Lemma level_moved_after (A B : Type) (d : Z) (m : cprinter.P A) (f : A -> cprinter.P B) :
  level_kept m -> (forall a, level_moved d (f a)) -> level_moved d (cprinter.bind m f).
Proof.
  intros Hm Hf p b p' o E. unfold cprinter.bind in E.
  destruct (m p) as [[[a p1] o1] |] eqn:Em; [| discriminate].
  destruct (f a p1) as [[[b' p2] o2] |] eqn:Ef; [| discriminate].
  injection E as _ <- _.
  rewrite (Hf _ _ _ _ _ Ef). now rewrite (Hm _ _ _ _ Em).
Qed.

Lemma level_moved_before (A B : Type) (d : Z) (m : cprinter.P A) (f : A -> cprinter.P B) :
  level_moved d m -> (forall a, level_kept (f a)) -> level_moved d (cprinter.bind m f).
Proof.
  intros Hm Hf p b p' o E. unfold cprinter.bind in E.
  destruct (m p) as [[[a p1] o1] |] eqn:Em; [| discriminate].
  destruct (f a p1) as [[[b' p2] o2] |] eqn:Ef; [| discriminate].
  injection E as _ <- _.
  rewrite (Hf _ _ _ _ _ Ef). eapply Hm; eauto.
Qed.

Lemma level_moved_PrintBlockStart (b : cprinter.BlockType) :
  level_moved UP (cprinter.PrintBlockStart b).
Proof.
  unfold cprinter.PrintBlockStart.
  apply level_moved_after; [apply level_kept_PrintLevel |]. intros _.
  apply level_moved_before; [apply level_moved_UpdateLevel |]. intros _.
  destruct b; repeat level_kept_step.
Qed.

Lemma level_moved_PrintBlockEnd (NONE : string) (b : cprinter.BlockType) :
  level_moved DOWN (cprinter.PrintBlockEnd NONE b).
Proof.
  unfold cprinter.PrintBlockEnd.
  apply level_moved_before; [apply level_moved_UpdateLevel |]. intros _.
  apply level_kept_PrintLevel.
Qed.

Lemma Outline_level : LevelPrinter Outline (fun l : Z => l).
Proof.
  split.
  - intros d s s' o E. cbn in E. injection E as <- _. reflexivity.
  - intros m s s' o Hm E.
    destruct m; cbn in E; try (injection E as <- _; reflexivity).
    now elim (Hm delta).
Qed.

Lemma PrintBlockEnd_negative (NONE : string) (b : cprinter.BlockType) (l : Z)
    (cs : list cprinter.CContext) :
  - 2 ^ 63 < l <= 0 ->
  cprinter.PrintBlockEnd NONE b (cprinter.mkCPrinter l false cs) = None.
Proof.
  intros Hl. unfold cprinter.PrintBlockEnd, cprinter.bind at 1.
  cbn [cprinter.UpdateLevel cprinter.bind cprinter.get cprinter.put
         cprinter.level cprinter.sameline cprinter.ctx].
  unfold DOWN. rewrite wrap_small by (unfold int_range; lia).
  unfold cprinter.PrintLevel, cprinter.bind at 1, cprinter.indent, cprinter.bind at 1.
  cbn [cprinter.get cprinter.sameline cprinter.level].
  unfold strings.Repeat.
  destruct (Z.ltb_spec (l + -1) 0) as [_ | H]; [reflexivity | lia].
Qed.

(** C7.  For a printer that keeps a level, a traversal of any node
    (any block among them) leaves the level as it found it; and under a
    monitor that logs the level after every call of the printer, from a
    level that is not negative no logged level is below the level at
    the start, so none is negative (the nesting being within the range
    of a Go [int]).  For the C printer, opening a block moves the level
    up by one and closing it brings it back, and a block cannot be
    closed below level 0: the printer panics. *)
Theorem indentation_balance :
  forall (PS : Type) (Pr : Printer.Printer PS) (level : PS -> Z)
         (L : LevelPrinter Pr level) (GoSyntax : ast.Node -> string) (n : ast.Node),
    (forall (w w' : walkngo.GoWalker (PS := PS)) (r : bool),
        int_range (level (walkngo.p w)) ->
        walkngo.Visit GoSyntax n w = Some (r, w') ->
        level (walkngo.p w') = level (walkngo.p w))
    /\ (forall (w w' : walkngo.GoWalker (PS := PS * list Z)) (r : bool),
          0 <= level (fst (walkngo.p w)) ->
          level (fst (walkngo.p w)) + Z.of_nat (depth n) < 2 ^ 63 ->
          walkngo.Visit (Pr := Monitored Pr level) GoSyntax n w = Some (r, w') ->
          level (fst (walkngo.p w')) = level (fst (walkngo.p w)) /\
          exists new : list Z,
            snd (walkngo.p w') = (snd (walkngo.p w) ++ new)%list /\
            Forall (fun x => 0 <= x /\ level (fst (walkngo.p w)) <= x) new)
    /\ (forall (NONE : string) (b : cprinter.BlockType)
               (p p1 q p2 : cprinter.CPrinter) (o1 o2 : string),
          int_range (cprinter.level p) ->
          cprinter.PrintBlockStart b p = Some (tt, p1, o1) ->
          cprinter.level q = cprinter.level p1 ->
          cprinter.PrintBlockEnd NONE b q = Some (tt, p2, o2) ->
          cprinter.level p1 = wrap (cprinter.level p + UP) /\
          cprinter.level p2 = cprinter.level p)
    /\ (forall (NONE : string) (b : cprinter.BlockType) (l : Z)
               (cs : list cprinter.CContext),
          - 2 ^ 63 < l <= 0 ->
          cprinter.PrintBlockEnd NONE b (cprinter.mkCPrinter l false cs) = None).
Proof.
  intros PS Pr level L GoSyntax n. split; [| split; [| split]].
  - intros w w' r Hr E. eapply Visit_same_level; eauto.
  - intros w w' r H0 Hd E.
    destruct (Visit_level_floor level GoSyntax n w w' r) as [L1 [new [S1 F1]]]; auto.
    { unfold int_range. lia. }
    split; [exact L1 |]. exists new. split; [exact S1 |].
    eapply Forall_impl; [| exact F1]. cbn beta. intros x Hx. lia.
  - intros NONE b p p1 q p2 o1 o2 Hr E1 Hq E2.
    pose proof (level_moved_PrintBlockStart b _ _ _ _ E1) as M1.
    pose proof (level_moved_PrintBlockEnd NONE b _ _ _ _ E2) as M2.
    split; [exact M1 |].
    rewrite M2, Hq, M1. now apply wrap_up_down.
  - intros. now apply PrintBlockEnd_negative.
Qed.

Lemma indentation_balance_witness :
  (forall (w w' : walkngo.GoWalker (PS := Z)) (r : bool),
      int_range (walkngo.p w) ->
      walkngo.Visit (Pr := Outline) dump_kind nested_blocks w = Some (r, w') ->
      walkngo.p w' = walkngo.p w)
  /\ (exists w' : walkngo.GoWalker (PS := Z * list Z),
        walkngo.Visit (Pr := Monitored Outline (fun l : Z => l)) dump_kind nested_blocks
          (walkngo.NewWalker (0, [])) = Some (false, w')
        /\ fst (walkngo.p w') = 0
        /\ snd (walkngo.p w') = [0; 1; 1; 2; 2; 2; 3; 3; 4; 4; 5; 5; 4; 4; 3; 2; 2; 2; 1; 1; 1; 0; 0]
        /\ exists new : list Z,
             snd (walkngo.p w') = ([] ++ new)%list /\
             Forall (fun x => 0 <= x /\ 0 <= x) new).
Proof.
  pose proof (indentation_balance Z Outline (fun l : Z => l)
                Outline_level dump_kind nested_blocks) as [H1 [H2 _]].
  split; [exact H1 |].
  eexists. split; [vm_compute; reflexivity |].
  split; [reflexivity |]. split; [reflexivity |].
  apply (H2 (walkngo.NewWalker (0, [])) _ false);
    [cbn; lia | vm_compute; reflexivity | vm_compute; reflexivity].
Defined.
(** ** The walker: nodes without a case *)

Lemma strlen_app_pos (a b : string) (c : ascii) :
  (0 <? walkngo.strlen (a ++ String c b)) = true.
Proof.
  apply Z.ltb_lt. unfold walkngo.strlen.
  destruct a; cbn [String.append String.length]; lia.
Qed.

Lemma Visit_unhandled (PS : Type) (Pr : Printer.Printer PS) (GoSyntax : ast.Node -> string)
    (n : ast.Node) (w : walkngo.GoWalker (PS := PS)) (s' : PS) :
  Visit_handles n = false ->
  Printer.invoke (Printer.Print [node_placeholder GoSyntax n]) (walkngo.p w) =
    Some (s', node_placeholder GoSyntax n) ->
  walkngo.Visit GoSyntax n w = Some (true, placed w s' (node_placeholder GoSyntax n)).
Proof.
  intros Hn Ei.
  destruct n; try discriminate Hn;
    cbn [walkngo.Visit];
    unfold walkngo.bindW at 1; cbn [walkngo.get_parent];
    unfold walkngo.bindW at 1; cbn [walkngo.set_parent];
    unfold walkngo.bindW at 1; unfold walkngo.bindW at 1;
    unfold walkngo.call;
    cbn [walkngo.p walkngo.parent walkngo.buffer walkngo.flush walkngo.stdout];
    unfold node_placeholder in *; rewrite Ei;
    cbn [walkngo.retW]; unfold walkngo.bindW at 1; rewrite Flush_eq;
    cbn [walkngo.p walkngo.parent walkngo.buffer walkngo.flush walkngo.stdout];
    unfold placed;
    change ("/* Node: " ++ ?x) with (String "/" ("* Node: " ++ x));
    rewrite strlen_app_pos;
    destruct (walkngo.flush w) eqn:F; cbn [andb walkngo.bindW walkngo.set_parent walkngo.retW];
    reflexivity.
Qed.

Lemma parseExpr_unhandled (PS : Type) (Pr : Printer.Printer PS)
    (GoSyntax : ast.Node -> string) (e : ast.Node) (w : walkngo.GoWalker (PS := PS)) :
  parseExpr_handles e = false ->
  walkngo.parseExpr GoSyntax e w = Some (expr_placeholder GoSyntax e, w).
Proof. intros He. destruct e; try discriminate He; reflexivity. Qed.

(** X27.  A node of a kind the walker has no case for is answered with
    the tagged placeholder holding its dump, printed through the printer
    (one that writes the arguments of [Print] as they are), and with the
    visitor itself; the statements after it in a list are visited from
    the state it leaves.  An expression of a kind the formatter has no
    case for is rendered as the tagged placeholder holding its dump, the
    walker untouched.  Both return: nothing panics.  The placeholder is
    all the walker writes for such a node: what is under the node is
    not visited. *)
Theorem unhandled_placeholder :
  forall (PS : Type) (Pr : Printer.Printer PS) (GoSyntax : ast.Node -> string),
    (forall (values : list string) (s : PS),
        Printer.invoke (Printer.Print values) s = Some (s, strings.Join values " ")) ->
    (forall (n : ast.Node) (w : walkngo.GoWalker (PS := PS)),
        Visit_handles n = false ->
        walkngo.Visit GoSyntax n w =
          Some (true, placed w (walkngo.p w) (node_placeholder GoSyntax n)))
    /\ (forall (n : ast.Node) (rest : list ast.Node) (w : walkngo.GoWalker (PS := PS)),
          Visit_handles n = false ->
          walkngo.forW (walkngo.Visit GoSyntax) (n :: rest) w =
          walkngo.forW (walkngo.Visit GoSyntax) rest
            (placed w (walkngo.p w) (node_placeholder GoSyntax n)))
    /\ (forall (e : ast.Node) (w : walkngo.GoWalker (PS := PS)),
          parseExpr_handles e = false ->
          walkngo.parseExpr GoSyntax e w = Some (expr_placeholder GoSyntax e, w)).
Proof.
  intros PS Pr GoSyntax Hprint.
  assert (V : forall (n : ast.Node) (w : walkngo.GoWalker (PS := PS)),
             Visit_handles n = false ->
             walkngo.Visit GoSyntax n w =
               Some (true, placed w (walkngo.p w) (node_placeholder GoSyntax n))).
  { intros n w Hn. apply Visit_unhandled; [exact Hn |]. apply Hprint. }
  split; [exact V | split].
  - intros n rest w Hn. cbn [walkngo.forW]. unfold walkngo.bindW at 1.
    now rewrite (V n w Hn).
  - intros e w He. now apply parseExpr_unhandled.
Qed.

Lemma unhandled_placeholder_witness :
  walkngo.Visit (Pr := Outline) dump_kind (ast.LabeledStmt "L" ast.EmptyStmt) walker0 =
    Some (true,
          walkngo.mkGoWalker 0 None "" true
            ("/* Node: &ast.LabeledStmt{...} */" ++ NL))
  /\ walkngo.forW (walkngo.Visit (Pr := Outline) dump_kind)
       [ast.LabeledStmt "L" ast.EmptyStmt; ast.EmptyStmt] walker0 =
     Some (tt,
           walkngo.mkGoWalker 0 None "" true
             ("/* Node: &ast.LabeledStmt{...} */" ++ NL ++ ";" ++ NL))
  /\ walkngo.parseExpr (Pr := Outline) dump_kind ast.BadExpr walker0 =
     Some ("/* Expr: &ast.BadExpr{...} */", walker0).
Proof.
  pose proof (unhandled_placeholder Z Outline dump_kind
                (fun values s => eq_refl)) as [H1 [H2 H3]].
  split; [| split].
  - exact (H1 (ast.LabeledStmt "L" ast.EmptyStmt) walker0 eq_refl).
  - rewrite (H2 (ast.LabeledStmt "L" ast.EmptyStmt) [ast.EmptyStmt] walker0 eq_refl).
    vm_compute. reflexivity.
  - exact (H3 ast.BadExpr walker0 eq_refl).
Defined.

(** C8, the code at the failing input.  A block holds the labelled
    statement [L: f()] and an empty statement.  The calls the walker
    makes on the printer are the opening of the block, the placeholder
    of the labelled statement, the empty statement and the closing of
    the block: the statement [f()] under the label is announced by no
    call.  Without the label the same statement is announced.  (The
    dump in the placeholder is that of the labelled statement, whatever
    [%#v] prints for it.) *)
Theorem unhandled_children_dropped :
  forall GoSyntax : ast.Node -> string,
    walkngo.Visit (Pr := Recorder) GoSyntax
        (ast.BlockStmt [labelled_call; ast.EmptyStmt]) (walkngo.NewWalker []) =
      Some (false,
            walkngo.mkGoWalker
              [Printer.PrintLevel ["{" ++ NL];
               Printer.UpdateLevel UP;
               Printer.Print [node_placeholder GoSyntax labelled_call];
               Printer.PrintEmpty;
               Printer.UpdateLevel DOWN;
               Printer.PrintLevel ["}"]]
              None "" true "")
    /\ walkngo.Visit (Pr := Recorder) GoSyntax
         (ast.BlockStmt [call_statement; ast.EmptyStmt]) (walkngo.NewWalker []) =
       Some (false,
             walkngo.mkGoWalker
               [Printer.PrintLevel ["{" ++ NL];
                Printer.UpdateLevel UP;
                Printer.PrintLevel ["f()"; NL];
                Printer.PrintEmpty;
                Printer.UpdateLevel DOWN;
                Printer.PrintLevel ["}"]]
               None "" true "").
Proof. intros GoSyntax. split; reflexivity. Qed.

(** ** The walker: absent children and lists *)

Lemma mapW_length (PS A B : Type) (f : A -> walkngo.W (PS := PS) B) (l : list A) :
  forall (w w' : walkngo.GoWalker (PS := PS)) (ys : list B),
    walkngo.mapW f l w = Some (ys, w') -> List.length ys = List.length l.
Proof.
  induction l as [| x l IH]; intros w w' ys E; cbn [walkngo.mapW] in E.
  - injection E as <- _. reflexivity.
  - unfold walkngo.bindW in E.
    destruct (f x w) as [[y w1] |]; [| discriminate].
    destruct (walkngo.mapW f l w1) as [[ys' w2] |] eqn:E2; [| discriminate].
    injection E as <- _. cbn. f_equal. eapply IH; eauto.
Qed.

Lemma mapW_app (PS A B : Type) (f : A -> walkngo.W (PS := PS) B) (l1 l2 : list A) :
  forall (w w1 w2 : walkngo.GoWalker (PS := PS)) (t1 t2 : list B),
    walkngo.mapW f l1 w = Some (t1, w1) ->
    walkngo.mapW f l2 w1 = Some (t2, w2) ->
    walkngo.mapW f (l1 ++ l2)%list w = Some ((t1 ++ t2)%list, w2).
Proof.
  induction l1 as [| x l1 IH]; intros w w1 w2 t1 t2 E1 E2.
  - cbn [walkngo.mapW] in E1. injection E1 as <- <-. exact E2.
  - cbn [walkngo.mapW List.app] in *. unfold walkngo.bindW in *.
    destruct (f x w) as [[y wa] |]; [| discriminate].
    destruct (walkngo.mapW f l1 wa) as [[ys wb] |] eqn:Em; [| discriminate].
    injection E1 as <- <-.
    rewrite (IH _ _ _ _ _ Em E2). reflexivity.
Qed.

Lemma parseExprList_idents (PS : Type) (Pr : Printer.Printer PS)
    (GoSyntax : ast.Node -> string) (names : list string) (w : walkngo.GoWalker (PS := PS)) :
  walkngo.mapW (walkngo.parseExpr GoSyntax) (map ast.Ident names) w = Some (names, w).
Proof.
  induction names as [| x names IH]; [reflexivity |].
  cbn [map walkngo.mapW]. unfold walkngo.bindW.
  cbn [walkngo.parseExpr walkngo.retW]. now rewrite IH.
Qed.

Lemma mapW_map_pure (PS A B C : Type) (f : A -> walkngo.W (PS := PS) B)
    (h : C -> A) (g : C -> B) (l : list C) (w : walkngo.GoWalker (PS := PS)) :
  (forall x w0, f (h x) w0 = Some (g x, w0)) ->
  walkngo.mapW f (map h l) w = Some (map g l, w).
Proof.
  intros H. induction l as [| x l IH]; [reflexivity |].
  cbn [map walkngo.mapW]. unfold walkngo.bindW. rewrite H, IH. reflexivity.
Qed.

Lemma mapW_fields_with (PS : Type) (parseExpr : ast.Node -> walkngo.W (PS := PS) string)
    (fs : list (list string * string)) :
  (forall (x : string) (w0 : walkngo.GoWalker (PS := PS)),
      parseExpr (ast.Ident x) w0 = Some (x, w0)) ->
  forall w : walkngo.GoWalker (PS := PS),
    walkngo.mapW
      (fun f : ast.Field =>
         let field := walkngo.parseNames (fst f) in
         if 0 <? walkngo.strlen field
         then walkngo.bindW (walkngo.nilable parseExpr "" (snd f))
                (fun t => walkngo.retW (field ++ " " ++ t))
         else walkngo.nilable parseExpr "" (snd f))
      (map ident_field fs) w =
    Some (map field_text fs, w).
Proof.
  intros Hid w. apply mapW_map_pure. clear w. intros f w.
  unfold ident_field, field_text. cbn [fst snd walkngo.nilable]. cbv zeta.
  destruct (0 <? walkngo.strlen (walkngo.parseNames (fst f))).
  - unfold walkngo.bindW. rewrite Hid. reflexivity.
  - apply Hid.
Qed.

Lemma parseFieldList_idents_with (PS : Type)
    (parseExpr : ast.Node -> walkngo.W (PS := PS) string)
    (fs : list (list string * string)) (sep : string) (w : walkngo.GoWalker (PS := PS)) :
  (forall (x : string) (w0 : walkngo.GoWalker (PS := PS)),
      parseExpr (ast.Ident x) w0 = Some (x, w0)) ->
  walkngo.parseFieldList_with (walkngo.nilable parseExpr "")
    (Some (map ident_field fs)) sep w =
  Some (strings.Join (map field_text fs) sep, w).
Proof.
  intros Hid. unfold walkngo.parseFieldList_with.
  cbv beta iota. unfold walkngo.bindW at 1. now rewrite mapW_fields_with.
Qed.

Lemma parseFieldList_idents (PS : Type) (Pr : Printer.Printer PS)
    (GoSyntax : ast.Node -> string) (fs : list (list string * string)) (sep : string)
    (w : walkngo.GoWalker (PS := PS)) :
  walkngo.parseFieldList_with (walkngo.nilable (walkngo.parseExpr GoSyntax) "")
    (Some (map ident_field fs)) sep w =
  Some (strings.Join (map field_text fs) sep, w).
Proof. apply parseFieldList_idents_with. reflexivity. Qed.

(** The receiver, the parameters and the results of a function
    declaration reach the printer as three texts, each joined with
    [", "]. *)
Lemma FuncDecl_separators (GoSyntax : ast.Node -> string)
    (recv params results : list (list string * string)) (name : string) :
  walkngo.Visit (Pr := Recorder) GoSyntax
    (ast.FuncDecl (Some (map ident_field recv)) name (Some (map ident_field params))
       (Some (map ident_field results)) (Some (ast.BlockStmt [])))
    (walkngo.NewWalker []) =
  Some (false,
        walkngo.mkGoWalker
          [Printer.PrintFunc (strings.Join (map field_text recv) ", ") name
             (strings.Join (map field_text params) ", ")
             (strings.Join (map field_text results) ", ");
           Printer.PrintLevel ["{" ++ NL];
           Printer.UpdateLevel UP;
           Printer.UpdateLevel DOWN;
           Printer.PrintLevel ["}"];
           Printer.Print [NL]]
          None "" true "").
Proof.
  cbn [walkngo.Visit].
  unfold walkngo.bindW at 1. cbn [walkngo.get_parent walkngo.NewWalker walkngo.parent].
  unfold walkngo.bindW at 1. cbn [walkngo.set_parent].
  unfold walkngo.bindW at 1. unfold walkngo.bindW at 1.
  rewrite parseFieldList_idents_with by reflexivity.
  unfold walkngo.bindW at 1. rewrite parseFieldList_idents_with by reflexivity.
  unfold walkngo.bindW at 1. rewrite parseFieldList_idents_with by reflexivity.
  reflexivity.
Qed.

(** C9 (as amended).  An absent child is rendered as the empty string,
    the walker untouched, in every construct of the formatter that has
    children: the construct comes out with nothing in the child's place
    and nothing panics.  The one exception is the type of a type
    assertion, rendered as the word [type] when it is elided.  A list
    of names is joined with [", "]; a list of expressions is rendered
    element by element, in the order of the list, and joined with
    [", "]; a list of fields is rendered field by field, in order, and
    joined with the separator the caller passes: [", "] for the
    parameters and results of a function type and for the receiver, the
    parameters and the results of a function declaration, ["; "] for
    the fields of a struct and the methods of an interface; an absent
    field list is the empty string. *)
Theorem absent_and_lists :
  forall (PS : Type) (Pr : Printer.Printer PS) (GoSyntax : ast.Node -> string)
         (w : walkngo.GoWalker (PS := PS)),
    let parseExpr := walkngo.parseExpr GoSyntax in
    (* absent children *)
    (walkngo.nilable parseExpr "" None w = Some ("", w)
     /\ walkngo.identString None = ""
     /\ parseExpr (ast.StarExpr None) w = Some ("*", w)
     /\ parseExpr (ast.ArrayType None None) w = Some ("[]", w)
     /\ parseExpr (ast.MapType None None) w = Some ("[]", w)
     /\ parseExpr (ast.InterfaceType None) w = Some ("interface{}", w)
     /\ parseExpr (ast.StructType None) w = Some ("struct{}", w)
     /\ parseExpr (ast.ChanType 0 None) w = Some ("chan ", w)
     /\ parseExpr (ast.FuncType None None) w = Some ("() ", w)
     /\ parseExpr (ast.CompositeLit None []) w = Some ("{}", w)
     /\ parseExpr (ast.Ellipsis None) w = Some ("...", w)
     /\ parseExpr (ast.ParenExpr None) w = Some ("()", w)
     /\ parseExpr (ast.IndexExpr None None) w = Some ("[]", w)
     /\ parseExpr (ast.KeyValueExpr None None) w = Some (": ", w)
     /\ parseExpr (ast.SliceExpr None None None None) w = Some ("[:]", w)
     /\ parseExpr (ast.CallExpr None [] 0) w = Some ("()", w)
     /\ (forall op : string,
           parseExpr (ast.UnaryExpr op None) w = Some (op ++ "", w)
           /\ parseExpr (ast.BinaryExpr None op None) w = Some ("" ++ " " ++ op ++ " " ++ "", w)
           /\ parseExpr (ast.SelectorExpr None op) w = Some ("" ++ "." ++ op, w))
     /\ (forall x op : string,
           parseExpr (ast.StarExpr (Some (ast.Ident x))) w = Some ("*" ++ x, w)
           /\ parseExpr (ast.ArrayType None (Some (ast.Ident x))) w = Some ("[]" ++ x, w)
           /\ parseExpr (ast.BinaryExpr (Some (ast.Ident x)) op None) w =
                Some (x ++ " " ++ op ++ " " ++ "", w)
           /\ parseExpr (ast.SliceExpr (Some (ast.Ident x)) None None None) w =
                Some (x ++ "[:]", w)
           /\ parseExpr (ast.CallExpr (Some (ast.Ident x)) [] 0) w = Some (x ++ "()", w))
     /\ (forall (names : list string) (sep : string),
           walkngo.parseFieldList GoSyntax (Some [(names, None)]) sep w =
             Some (if 0 <? walkngo.strlen (walkngo.parseNames names)
                   then walkngo.parseNames names ++ " " ++ ""
                   else "", w)))
    (* the elided type of a type assertion *)
    /\ (forall x : string,
          parseExpr (ast.TypeAssertExpr None None) w = Some (".(type)", w)
          /\ parseExpr (ast.TypeAssertExpr (Some (ast.Ident x)) None) w =
               Some (x ++ ".(type)", w))
    (* lists of names and of expressions *)
    /\ (forall names : list string,
          walkngo.parseNames names = strings.Join names ", "
          /\ walkngo.parseExprList GoSyntax (map ast.Ident names) w =
               Some (strings.Join names ", ", w)
          /\ (forall f : string,
                parseExpr (ast.CallExpr (Some (ast.Ident f)) (map ast.Ident names) 0) w =
                  Some (f ++ "(" ++ strings.Join names ", " ++ "" ++ ")", w)))
    /\ (forall l : list ast.Node,
          walkngo.parseExprList GoSyntax l w =
          match walkngo.mapW parseExpr l w with
          | Some (texts, w') => Some (strings.Join texts ", ", w')
          | None => None
          end)
    /\ (forall e : ast.Node,
          walkngo.mapW parseExpr [e] w =
          match parseExpr e w with
          | Some (text, w') => Some ([text], w')
          | None => None
          end)
    /\ (forall (l1 l2 : list ast.Node) (t1 t2 : list string)
               (w1 w2 : walkngo.GoWalker (PS := PS)),
          walkngo.mapW parseExpr l1 w = Some (t1, w1) ->
          walkngo.mapW parseExpr l2 w1 = Some (t2, w2) ->
          walkngo.mapW parseExpr (l1 ++ l2)%list w = Some ((t1 ++ t2)%list, w2))
    (* lists of fields *)
    /\ (forall sep : string, walkngo.parseFieldList GoSyntax None sep w = Some ("", w))
    /\ (forall (fs : list (list string * string)) (sep : string),
          walkngo.parseFieldList GoSyntax (Some (map ident_field fs)) sep w =
          Some (strings.Join (map field_text fs) sep, w))
    /\ (forall fs rs : list (list string * string),
          parseExpr (ast.StructType (Some (map ident_field fs))) w =
            Some ("struct{" ++ strings.Join (map field_text fs) "; " ++ "}", w)
          /\ parseExpr (ast.InterfaceType (Some (map ident_field fs))) w =
            Some ("interface{" ++ strings.Join (map field_text fs) "; " ++ "}", w)
          /\ parseExpr (ast.FuncType (Some (map ident_field fs)) (Some (map ident_field rs))) w =
            Some ("(" ++ strings.Join (map field_text fs) ", " ++ ") "
                    ++ walkngo.wrapIf (strings.Join (map field_text rs) ", "), w))
    (* the receiver, the parameters and the results of a declaration,
       as the calls made on a printer that records them show *)
    /\ (forall (recv params results : list (list string * string)) (name : string),
          walkngo.Visit (Pr := Recorder) GoSyntax
            (ast.FuncDecl (Some (map ident_field recv)) name (Some (map ident_field params))
               (Some (map ident_field results)) (Some (ast.BlockStmt [])))
            (walkngo.NewWalker []) =
          Some (false,
                walkngo.mkGoWalker
                  [Printer.PrintFunc (strings.Join (map field_text recv) ", ") name
                     (strings.Join (map field_text params) ", ")
                     (strings.Join (map field_text results) ", ");
                   Printer.PrintLevel ["{" ++ NL];
                   Printer.UpdateLevel UP;
                   Printer.UpdateLevel DOWN;
                   Printer.PrintLevel ["}"];
                   Printer.Print [NL]]
                  None "" true "")).
Proof.
  intros PS Pr GoSyntax w. cbv zeta.
  assert (FL : forall (fs : list (list string * string)) (sep : string)
                      (w0 : walkngo.GoWalker (PS := PS)),
             walkngo.parseFieldList_with (walkngo.nilable (walkngo.parseExpr GoSyntax) "")
               (Some (map ident_field fs)) sep w0 =
             Some (strings.Join (map field_text fs) sep, w0))
    by (intros; apply parseFieldList_idents).
  split; [| split; [| split; [| split; [| split; [| split; [| split; [| split; [| split]]]]]]]];
    [| | | | | | | | | intros; apply FuncDecl_separators].
  - repeat split; try reflexivity.
    intros names sep. unfold walkngo.parseFieldList, walkngo.parseFieldList_with.
    cbn [walkngo.mapW walkngo.bindW fst snd walkngo.nilable walkngo.retW].
    destruct (0 <? walkngo.strlen (walkngo.parseNames names)); reflexivity.
  - intros x. split; reflexivity.
  - intros names. split; [reflexivity |]. split.
    + unfold walkngo.parseExprList, walkngo.parseExprList_with, walkngo.bindW.
      now rewrite parseExprList_idents.
    + intros f. cbn [walkngo.parseExpr walkngo.nilable].
      unfold walkngo.bindW at 1. cbn [walkngo.retW].
      unfold walkngo.bindW at 1.
      unfold walkngo.parseExprList_with, walkngo.bindW at 1.
      rewrite parseExprList_idents. reflexivity.
  - intros l. unfold walkngo.parseExprList, walkngo.parseExprList_with, walkngo.bindW.
    destruct (walkngo.mapW (walkngo.parseExpr GoSyntax) l w) as [[texts w'] |]; reflexivity.
  - intros e. cbn [walkngo.mapW]. unfold walkngo.bindW.
    destruct (walkngo.parseExpr GoSyntax e w) as [[text w'] |]; reflexivity.
  - intros l1 l2 t1 t2 w1 w2 E1 E2. eapply mapW_app; eauto.
  - reflexivity.
  - intros fs sep. apply FL.
  - intros fs rs. split; [| split].
    + change (walkngo.parseExpr GoSyntax (ast.StructType (Some (map ident_field fs))) w)
        with (walkngo.bindW
                (walkngo.parseFieldList GoSyntax (Some (map ident_field fs)) "; ")
                (fun f => walkngo.retW ("struct{" ++ f ++ "}")) w).
      unfold walkngo.bindW, walkngo.parseFieldList. now rewrite FL.
    + change (walkngo.parseExpr GoSyntax (ast.InterfaceType (Some (map ident_field fs))) w)
        with (walkngo.bindW
                (walkngo.parseFieldList GoSyntax (Some (map ident_field fs)) "; ")
                (fun f => walkngo.retW ("interface{" ++ f ++ "}")) w).
      unfold walkngo.bindW, walkngo.parseFieldList. now rewrite FL.
    + change (walkngo.parseExpr GoSyntax
                (ast.FuncType (Some (map ident_field fs)) (Some (map ident_field rs))) w)
        with (walkngo.bindW
                (walkngo.parseFieldList GoSyntax (Some (map ident_field fs)) ", ")
                (fun ps =>
                   walkngo.bindW
                     (walkngo.parseFieldList GoSyntax (Some (map ident_field rs)) ", ")
                     (fun rs0 => walkngo.retW ("(" ++ ps ++ ") " ++ walkngo.wrapIf rs0))) w).
      unfold walkngo.bindW, walkngo.parseFieldList. rewrite FL. now rewrite FL.
Qed.

(** C9, the claim as stated fails: the fields of a struct are a list
    joined with a semicolon and a space; and the absent type of a type
    assertion is rendered as a word, not as the empty string. *)
Lemma struct_fields_separator :
  walkngo.parseExpr (Pr := Outline) dump_kind two_fields walker0 =
    Some ("struct{a int; b string}", walker0)
  /\ walkngo.parseExpr (Pr := Outline) dump_kind elided_assertion walker0 =
    Some ("x.(type)", walker0).
Proof. split; reflexivity. Qed.

(** ** The walker and the printer: a return of two values *)




(** ** Further properties of the helpers *)

Lemma TrimRight_app_cut (s t cutset : string) :
  strings.TrimRight t cutset = "" ->
  strings.TrimRight (s ++ t) cutset = strings.TrimRight s cutset.
Proof.
  intros Ht. induction s as [| a s IH]; cbn [append strings.TrimRight].
  - exact Ht.
  - now rewrite IH.
Qed.

Lemma in_cutset_mid (c : ascii) (pre post : string) :
  strings.in_cutset c (pre ++ String c post) = true.
Proof.
  induction pre as [| a pre IH]; cbn.
  - now rewrite Ascii.eqb_refl.
  - destruct (Ascii.eqb c a); auto.
Qed.

Lemma TrimRight_of_cutset (t pre : string) : strings.TrimRight t (pre ++ t) = "".
Proof.
  revert pre. induction t as [| a t IH]; intros pre; cbn [strings.TrimRight].
  - reflexivity.
  - pose proof (IH (pre ++ String a "")) as E.
    rewrite append_assoc_s in E. cbn [append] in E. rewrite E.
    now rewrite in_cutset_mid.
Qed.

Lemma TrimRight_idem (s cutset : string) :
  strings.TrimRight (strings.TrimRight s cutset) cutset = strings.TrimRight s cutset.
Proof.
  induction s as [| a s IH]; cbn [strings.TrimRight]; [reflexivity |].
  destruct (strings.TrimRight s cutset) as [| b t] eqn:E.
  - destruct (strings.in_cutset a cutset) eqn:Ea; cbn [strings.TrimRight]; [reflexivity |].
    now rewrite Ea.
  - cbn [strings.TrimRight] in *. now rewrite IH.
Qed.

Lemma TrimRight_app_keep (pre n cutset : string) :
  strings.TrimRight n cutset = n -> n <> "" ->
  strings.TrimRight (pre ++ n) cutset = pre ++ n.
Proof.
  intros Hn Hne. induction pre as [| a pre IH]; cbn [append strings.TrimRight].
  - exact Hn.
  - rewrite IH. destruct (pre ++ n) eqn:E; [| reflexivity].
    destruct pre; [cbn in E; contradiction | discriminate].
Qed.

Lemma TrimRight_last (s cutset : string) (a : ascii) :
  strings.in_cutset a cutset = false ->
  strings.TrimRight (String a "") cutset = String a "".
Proof. intros H. cbn. now rewrite H. Qed.

Lemma TrimRight_split (s cutset : string) :
  exists rest : string,
    s = strings.TrimRight s cutset ++ rest /\ all_in_cutset rest cutset = true.
Proof.
  induction s as [| a s [rest [E H]]]; cbn [strings.TrimRight].
  - exists "". split; reflexivity.
  - destruct (strings.TrimRight s cutset) as [| b t] eqn:Et.
    + cbn [append] in E. subst rest.
      destruct (strings.in_cutset a cutset) eqn:Ea.
      * exists (String a s). split; [reflexivity |].
        cbn [all_in_cutset]. now rewrite Ea, H.
      * exists s. split; [reflexivity | exact H].
    + exists rest. split; [| exact H].
      cbn [append]. f_equal. exact E.
Qed.

Lemma TrimRight_end (s cutset : string) :
  match last_byte (strings.TrimRight s cutset) with
  | Some c => strings.in_cutset c cutset = false
  | None => strings.TrimRight s cutset = ""
  end.
Proof.
  induction s as [| a s IH]; cbn [strings.TrimRight]; [reflexivity |].
  destruct (strings.TrimRight s cutset) as [| b t] eqn:Et.
  - destruct (strings.in_cutset a cutset) eqn:Ea; cbn [last_byte]; [reflexivity | exact Ea].
  - change (last_byte (String a (String b t))) with (last_byte (String b t)).
    destruct (last_byte (String b t)); [exact IH | discriminate IH].
Qed.

(** X1.  [Chop] is a trim by cutset: it removes from the end of the
    line the longest run of bytes that belong to the separator, in any
    order and number (with the separator [", "], every trailing comma
    and space).  The line is the chopped line followed by bytes of the
    separator only, and the chopped line is empty or ends with a byte
    that is not of the separator.  So chopping [line ++ COMMA] is
    chopping [line], and chopping twice is chopping once. *)
Theorem Chop_separator :
  forall COMMA line : string,
    (exists rest : string,
        line = cprinter.Chop COMMA line ++ rest /\ all_in_cutset rest COMMA = true)
    /\ match last_byte (cprinter.Chop COMMA line) with
       | Some c => strings.in_cutset c COMMA = false
       | None => cprinter.Chop COMMA line = ""
       end
    /\ cprinter.Chop COMMA (line ++ COMMA) = cprinter.Chop COMMA line
    /\ cprinter.Chop COMMA (cprinter.Chop COMMA line) = cprinter.Chop COMMA line.
Proof.
  intros COMMA line. unfold cprinter.Chop. split; [| split; [| split]].
  - apply TrimRight_split.
  - apply TrimRight_end.
  - apply TrimRight_app_cut. apply (TrimRight_of_cutset COMMA "").
  - apply TrimRight_idem.
Qed.

(** The separator is removed byte by byte, not as a whole: a trailing
    run of commas and spaces goes, also when it is part of the line. *)
Example Chop_examples :
  cprinter.Chop ", " "x, err, " = "x, err"
  /\ cprinter.Chop ", " "a ,, " = "a"
  /\ cprinter.Chop ", " "a, b," = "a, b"
  /\ cprinter.Chop ", " ", " = "".
Proof. repeat split. Qed.

(** ** Matching brackets *)

Lemma substring_full (s : string) : String.substring 0 (String.length s) s = s.
Proof. induction s; simpl; congruence. Qed.

Lemma slice_from_0 (s : string) : strings.slice_from s 0 = s.
Proof.
  unfold strings.slice_from. cbn [Z.to_nat]. rewrite Nat.sub_0_r. apply substring_full.
Qed.

Lemma slice_from_S (c : ascii) (s : string) (i : Z) :
  0 <= i -> strings.slice_from (String c s) (i + 1) = strings.slice_from s i.
Proof.
  intros Hi. unfold strings.slice_from.
  replace (Z.to_nat (i + 1)) with (S (Z.to_nat i)) by lia.
  reflexivity.
Qed.

Lemma slice_from_length (s : string) (i : Z) :
  0 <= i <= cprinter.strlen s ->
  cprinter.strlen (strings.slice_from s i) = cprinter.strlen s - i.
Proof.
  revert i. induction s as [| c s IH]; intros i Hi.
  - unfold cprinter.strlen in *. cbn in *. assert (i = 0) by lia. subst. reflexivity.
  - destruct (Z.eq_dec i 0) as [-> | Hne].
    + now rewrite slice_from_0.
    + replace i with (i - 1 + 1) by lia.
      unfold cprinter.strlen in Hi. cbn [String.length] in Hi.
      rewrite slice_from_S by lia.
      rewrite IH by (unfold cprinter.strlen; lia).
      unfold cprinter.strlen. cbn [String.length]. lia.
Qed.

Lemma slice_from_get (s : string) (i : Z) (k : nat) :
  0 <= i ->
  String.get k (strings.slice_from s i) = String.get (k + Z.to_nat i) s.
Proof.
  revert i. induction s as [| c s IH]; intros i Hi.
  - unfold strings.slice_from. destruct (Z.to_nat i); reflexivity.
  - destruct (Z.eq_dec i 0) as [-> | Hne].
    + rewrite slice_from_0. cbn [Z.to_nat]. now rewrite Nat.add_0_r.
    + replace i with (i - 1 + 1) at 1 by lia.
      rewrite slice_from_S by lia. rewrite IH by lia.
      replace (k + Z.to_nat i)%nat with (S (k + Z.to_nat (i - 1))) by lia.
      reflexivity.
Qed.

(** [Index] returns -1 or a position where the substring starts. *)
Lemma Index_from_spec (sub s : string) : forall i : Z,
  0 <= i ->
  strings.Index_from s sub i = -1 \/
  (i <= strings.Index_from s sub i <= i + cprinter.strlen s /\
   String.prefix sub (strings.slice_from s (strings.Index_from s sub i - i)) = true).
Proof.
  induction s as [| c s IH]; intros i Hi; cbn [strings.Index_from].
  - destruct (String.prefix sub "") eqn:E; [| now left].
    right. rewrite Z.sub_diag, slice_from_0. unfold cprinter.strlen. cbn. split; [lia | exact E].
  - destruct (String.prefix sub (String c s)) eqn:E.
    + right. rewrite Z.sub_diag, slice_from_0. unfold cprinter.strlen. cbn [String.length].
      split; [lia | exact E].
    + destruct (IH (i + 1)) as [H | [H1 H2]]; [lia | now left |].
      right. unfold cprinter.strlen in *. cbn [String.length]. split; [lia |].
      replace (strings.Index_from s sub (i + 1) - i)
        with (strings.Index_from s sub (i + 1) - (i + 1) + 1) by lia.
      rewrite slice_from_S by lia. exact H2.
Qed.

Lemma prefix_byte (ch : ascii) (s : string) :
  String.prefix (String ch "") s = true -> String.get 0 s = Some ch.
Proof.
  destruct s as [| c s]; cbn; [discriminate |].
  destruct (ascii_dec ch c) as [-> | _]; [reflexivity | discriminate].
Qed.

Lemma findMatch_loop_sound (ch cl : ascii) (s : string) : forall (p cnt q : Z),
  cprinter.findMatch_loop s ch cl p cnt = (q, true) ->
  exists k : nat,
    q = p + Z.of_nat k /\ (k < String.length s)%nat /\ String.get k s = Some cl /\
    (ch <> cl ->
     cnt + count_byte ch (String.substring 0 (S k) s)
       = count_byte cl (String.substring 0 (S k) s)).
Proof.
  induction s as [| c s IH]; intros p cnt q E; cbn [cprinter.findMatch_loop] in E.
  - discriminate.
  - destruct (Ascii.eqb_spec c ch) as [-> | Hc].
    + destruct (IH _ _ _ E) as (k & Hq & Hk & Hg & Hb).
      exists (S k). cbn [String.length String.get]. repeat split; [lia | lia | exact Hg |].
      intros Hne. specialize (Hb Hne).
      change (String.substring 0 (S (S k)) (String ch s))
        with (String ch (String.substring 0 (S k) s)).
      cbn [count_byte]. rewrite Ascii.eqb_refl.
      destruct (Ascii.eqb_spec ch cl) as [Heq | _]; [contradiction | lia].
    + destruct (Ascii.eqb_spec c cl) as [-> | Hcl].
      * destruct (Z.eqb_spec (cnt - 1) 0) as [Hz | Hz].
        -- injection E as <-. exists O. cbn. repeat split; [lia | lia |].
           intros Hne. rewrite Ascii.eqb_refl.
           destruct (Ascii.eqb_spec cl ch) as [Heq | _]; [congruence |].
           destruct s; cbn; lia.
        -- destruct (IH _ _ _ E) as (k & Hq & Hk & Hg & Hb).
           exists (S k). cbn [String.length String.get]. repeat split; [lia | lia | exact Hg |].
           intros Hne. specialize (Hb Hne).
           change (String.substring 0 (S (S k)) (String cl s))
             with (String cl (String.substring 0 (S k) s)).
           cbn [count_byte]. rewrite Ascii.eqb_refl.
           destruct (Ascii.eqb_spec cl ch) as [Heq | _]; [congruence | lia].
      * destruct (IH _ _ _ E) as (k & Hq & Hk & Hg & Hb).
        exists (S k). cbn [String.length String.get]. repeat split; [lia | lia | exact Hg |].
        intros Hne. specialize (Hb Hne).
        change (String.substring 0 (S (S k)) (String c s))
          with (String c (String.substring 0 (S k) s)).
        cbn [count_byte].
        destruct (Ascii.eqb_spec c ch) as [Heq | _]; [contradiction |].
        destruct (Ascii.eqb_spec c cl) as [Heq | _]; [contradiction | lia].
Qed.

(** The position [findMatch] returns, in general. *)
Lemma findMatch_position (s : string) (ch : ascii) (q : Z) :
  cprinter.findMatch s ch = (q, true) ->
  let open := strings.Index s (String ch "") in
  0 <= open /\ open <= q < cprinter.strlen s /\
  cprinter.byte_at s open = Some ch /\
  cprinter.byte_at s q = Some (cprinter.closing_of ch) /\
  (ch <> cprinter.closing_of ch ->
   let seg := strings.slice_to (strings.slice_from s open) (q - open + 1) in
   count_byte ch seg = count_byte (cprinter.closing_of ch) seg).
Proof.
  unfold cprinter.findMatch. cbn zeta.
  pose proof (Index_from_spec (String ch "") s 0 (Z.le_refl 0)) as HI.
  change (strings.Index_from s (String ch "") 0) with (strings.Index s (String ch "")) in HI.
  revert HI. generalize (strings.Index s (String ch "")). intros open HI.
  destruct (Z.ltb_spec open 0) as [Hneg | Hpos]; [discriminate |].
  intros E.
  destruct HI as [H | [Hr Hp]]; [lia |].
  rewrite Z.sub_0_r in Hp. apply prefix_byte in Hp.
  rewrite slice_from_get in Hp by lia. cbn [Nat.add] in Hp.
  destruct (findMatch_loop_sound _ _ _ _ _ _ E) as (k & Hq & Hk & Hg & Hb).
  assert (Hlen : cprinter.strlen (strings.slice_from s open) = cprinter.strlen s - open)
    by (apply slice_from_length; lia).
  unfold cprinter.strlen in Hlen.
  rewrite slice_from_get in Hg by lia.
  unfold cprinter.byte_at, cprinter.strlen.
  repeat split; try lia.
  - exact Hp.
  - replace (Z.to_nat q) with (k + Z.to_nat open)%nat by lia. exact Hg.
  - intros Hne. specialize (Hb Hne). unfold strings.slice_to.
    replace (Z.to_nat (q - open + 1)) with (S k) by lia. lia.
Qed.



(** ** Guessing a type *)

(** X3.  [GuessType] returns the value as it was given.  The type it
    guesses is one of the seven fixed names or, for a map or an array
    literal, the prefix of the value up to and including a closing
    bracket of the value. *)
Theorem GuessType_shape :
  forall value : string,
    snd (cprinter.GuessType value) = value
    /\ (In (fst (cprinter.GuessType value))
          ["auto"; "char"; "string"; "float64"; "int"; "bool"; "void*"]
        \/ exists q : Z,
             0 <= q < cprinter.strlen value
             /\ fst (cprinter.GuessType value) = strings.slice_to value (q + 1)
             /\ (cprinter.byte_at value q = Some "]"%char
                 \/ cprinter.byte_at value q = Some ">"%char)).
Proof.
  intros value.
  assert (Basic : forall t : string,
            In t ["auto"; "char"; "string"; "float64"; "int"; "bool"; "void*"] ->
            snd (t, value) = value /\
            (In (fst (t, value)) ["auto"; "char"; "string"; "float64"; "int"; "bool"; "void*"]
             \/ exists q : Z,
                  0 <= q < cprinter.strlen value
                  /\ fst (t, value) = strings.slice_to value (q + 1)
                  /\ (cprinter.byte_at value q = Some "]"%char
                      \/ cprinter.byte_at value q = Some ">"%char))).
  { intros t Ht. split; [reflexivity | now left]. }
  assert (Found : forall (ch : ascii) (q : Z),
            cprinter.closing_of ch = "]"%char \/ cprinter.closing_of ch = ">"%char ->
            cprinter.findMatch value ch = (q, true) ->
            snd (strings.slice_to value (q + 1), value) = value /\
            (In (fst (strings.slice_to value (q + 1), value))
               ["auto"; "char"; "string"; "float64"; "int"; "bool"; "void*"]
             \/ exists q0 : Z,
                  0 <= q0 < cprinter.strlen value
                  /\ fst (strings.slice_to value (q + 1), value) = strings.slice_to value (q0 + 1)
                  /\ (cprinter.byte_at value q0 = Some "]"%char
                      \/ cprinter.byte_at value q0 = Some ">"%char))).
  { intros ch q Hcl E. split; [reflexivity |]. right. exists q.
    destruct (findMatch_position value ch q E) as (H0 & H1 & _ & H3 & _).
    repeat split; try lia.
    destruct Hcl as [Hcl | Hcl]; rewrite Hcl in H3; auto. }
  assert (Array :
    let r := let i := cprinter.IndexAny_from value "[({" 0 in
             if (0 <=? i) && (match cprinter.byte_at value i with
                              | Some b => Ascii.eqb b "["
                              | None => false
                              end)
             then match cprinter.findMatch value "[" with
                  | (p, true) => (strings.slice_to value (p + 1), value)
                  | _ => ("auto", value)
                  end
             else ("auto", value) in
    snd r = value /\
    (In (fst r) ["auto"; "char"; "string"; "float64"; "int"; "bool"; "void*"]
     \/ exists q : Z,
          0 <= q < cprinter.strlen value
          /\ fst r = strings.slice_to value (q + 1)
          /\ (cprinter.byte_at value q = Some "]"%char
              \/ cprinter.byte_at value q = Some ">"%char))).
  { cbn zeta.
    destruct ((0 <=? cprinter.IndexAny_from value "[({" 0) && _);
      [| apply Basic; cbn; tauto].
    destruct (cprinter.findMatch value "[") as [q [|]] eqn:E;
      [| apply Basic; cbn; tauto].
    apply (Found "["%char q); [now left | exact E]. }
  unfold cprinter.GuessType.
  destruct value as [| c rest] eqn:Ev; [apply Basic; cbn; tauto |].
  rewrite <- Ev in *.
  destruct (Ascii.eqb c "'"); [apply Basic; cbn; tauto |].
  destruct (Ascii.eqb c (ascii_of_nat 34)); [apply Basic; cbn; tauto |].
  destruct (cprinter.is_digit_or_dot c).
  { destruct (strings.Contains value "." || strings.Contains value "E");
      apply Basic; cbn; tauto. }
  destruct (String.eqb value "true" || String.eqb value "false");
    [apply Basic; cbn; tauto |].
  destruct (String.eqb value cprinter.NIL || String.eqb value cprinter.NULL);
    [apply Basic; cbn; tauto |].
  cbn zeta in Array.
  destruct (strings.HasPrefix value "map<"); [| exact Array].
  destruct (cprinter.findMatch value "<") as [q [|]] eqn:E; [| exact Array].
  apply (Found "<"%char q); [now right | exact E].
Qed.

(** ** The C printer: the chain of contexts *)

Lemma top_touched_refl (cs : list cprinter.CContext) : top_touched cs cs.
Proof. now left. Qed.

Lemma top_touched_trans (a b c : list cprinter.CContext) :
  top_touched a b -> top_touched b c -> top_touched a c.
Proof.
  intros [-> | (x & x' & r & -> & ->)] [-> | (y & y' & r' & E & ->)].
  - now left.
  - right. eauto.
  - right. eauto.
  - injection E as _ <-. right. eauto.
Qed.

Lemma scoped_ret (A : Type) (a : A) : scoped (cprinter.ret a).
Proof. intros p x p' o [= _ <- _]. apply top_touched_refl. Qed.

Lemma scoped_panic (A : Type) : scoped (@cprinter.panic A).
Proof. intros p x p' o E. discriminate E. Qed.

Lemma scoped_bind (A B : Type) (m : cprinter.P A) (f : A -> cprinter.P B) :
  scoped m -> (forall a, scoped (f a)) -> scoped (cprinter.bind m f).
Proof.
  intros Hm Hf p b p' o E. unfold cprinter.bind in E.
  destruct (m p) as [[[a p1] o1] |] eqn:Em; [| discriminate].
  destruct (f a p1) as [[[b' p2] o2] |] eqn:Ef; [| discriminate].
  injection E as _ <- _.
  eapply top_touched_trans; [eapply Hm | eapply Hf]; eauto.
Qed.

Lemma scoped_Fprint (s : string) : scoped (cprinter.Fprint s).
Proof. intros p x p' o [= _ <- _]. apply top_touched_refl. Qed.

Lemma scoped_get : scoped cprinter.get.
Proof. intros p x p' o [= _ <- _]. apply top_touched_refl. Qed.

Lemma scoped_get_ctx : scoped cprinter.get_ctx.
Proof.
  intros p x p' o E. unfold cprinter.get_ctx in E.
  destruct (cprinter.ctx p) eqn:Ec; [discriminate |].
  injection E as _ <- _. rewrite Ec. apply top_touched_refl.
Qed.

Lemma scoped_set_ctx (c : cprinter.CContext) : scoped (cprinter.set_ctx c).
Proof.
  intros p x p' o E. unfold cprinter.set_ctx in E.
  destruct (cprinter.ctx p) as [| c0 rest] eqn:Ec; [discriminate |].
  injection E as _ <- _. right. exists c0, c, rest. now split.
Qed.

Lemma scoped_UpdateLevel (d : Z) : scoped (cprinter.UpdateLevel d).
Proof. intros p x p' o [= _ <- _]. apply top_touched_refl. Qed.

Lemma scoped_SameLine : scoped cprinter.SameLine.
Proof. intros p x p' o [= _ <- _]. apply top_touched_refl. Qed.

Lemma scoped_indent : scoped cprinter.indent.
Proof.
  intros p x p' o E.
  unfold cprinter.indent, cprinter.bind, cprinter.get, cprinter.put, cprinter.ret,
    cprinter.panic in E.
  destruct (cprinter.sameline p).
  - injection E as _ <- _. apply top_touched_refl.
  - destruct (strings.Repeat "  " (cprinter.level p)); [| discriminate].
    injection E as _ <- _. apply top_touched_refl.
Qed.

Ltac scoped_step :=
  lazymatch goal with
  | |- scoped (cprinter.ret _) => apply scoped_ret
  | |- scoped cprinter.panic => apply scoped_panic
  | |- scoped (cprinter.Fprint _) => apply scoped_Fprint
  | |- scoped cprinter.get => apply scoped_get
  | |- scoped cprinter.get_ctx => apply scoped_get_ctx
  | |- scoped (cprinter.set_ctx _) => apply scoped_set_ctx
  | |- scoped (cprinter.UpdateLevel _) => apply scoped_UpdateLevel
  | |- scoped cprinter.SameLine => apply scoped_SameLine
  | |- scoped cprinter.indent => apply scoped_indent
  | |- scoped (cprinter.Print _) => apply scoped_Fprint
  | |- scoped (cprinter.PrintLevel _ _) => unfold cprinter.PrintLevel
  | |- scoped (cprinter.FormatIdent _) => unfold cprinter.FormatIdent
  | |- scoped (cprinter.PrintStmt _ _ _) => unfold cprinter.PrintStmt
  | |- scoped (cprinter.bind _ _) => apply scoped_bind; [| intros ?]
  | |- scoped (match ?x with _ => _ end) => destruct x
  end.

Lemma scope_restores (A : Type) (m : cprinter.P A) :
  scoped m ->
  forall p a p' o,
    (cprinter.PushContext ;; m ;; cprinter.PopContext)%cp p = Some (a, p', o) ->
    cprinter.ctx p' = cprinter.ctx p.
Proof.
  intros Hm p a p' o E.
  unfold cprinter.bind at 1 in E.
  cbn [cprinter.PushContext cprinter.bind cprinter.get cprinter.put] in E.
  unfold cprinter.bind at 1 in E.
  match type of E with
  | context [m ?q] => destruct (m q) as [[[x p1] o1] |] eqn:Em; [| discriminate]
  end.
  apply Hm in Em. cbn [cprinter.ctx] in Em.
  unfold cprinter.PopContext in E.
  destruct Em as [Em | (c & c' & rest & E1 & E2)].
  - rewrite Em in E. injection E as _ <- _. reflexivity.
  - rewrite E2 in E. injection E as _ <- _. now injection E1.
Qed.

Lemma scoped_announce_list (NONE SEMI COLON COMMA : string)
    (Sprintf : string -> list string -> string) (body : list Announcement) :
  list_all Announcement (fun a => scoped (announce NONE SEMI COLON COMMA Sprintf a)) body ->
  scoped (announce_list NONE SEMI COLON COMMA Sprintf body).
Proof.
  intros H. induction H as [| a Ha body Hb IH]; cbn [announce_list].
  - apply scoped_ret.
  - apply scoped_bind; [exact Ha | intros _; exact IH].
Qed.

Lemma scoped_announce (NONE SEMI COLON COMMA : string)
    (Sprintf : string -> list string -> string) (a : Announcement) :
  scoped (announce NONE SEMI COLON COMMA Sprintf a).
Proof.
  induction a; cbn [announce];
    try (unfold drop, cprinter.PrintLevelIn, cprinter.PrintBlockStart, cprinter.PrintBlockEnd,
           cprinter.PrintPackage, cprinter.PrintImport, cprinter.PrintType,
           cprinter.PrintValue, cprinter.PrintReturn, cprinter.PrintFunc,
           cprinter.PrintFor, cprinter.PrintRange, cprinter.PrintSwitch,
           cprinter.PrintCase, cprinter.PrintEndCase, cprinter.PrintIf,
           cprinter.PrintElse, cprinter.PrintEmpty, cprinter.PrintAssignment,
           cprinter.PrintSend, cprinter.FormatSelector, cprinter.FormatPair;
         repeat scoped_step; fail).
  intros p x p' o E. left.
  change (cprinter.ctx p' = cprinter.ctx p).
  eapply scope_restores; [apply scoped_announce_list; eassumption | exact E].
Qed.

(** X4.  Whatever a client announces between a [PushContext] and the
    [PopContext] that ends it (any calls but [Reset], scopes nested in
    it included), the chain of contexts is afterwards exactly what it
    was before: the calls touch the top context only, and the scope
    they opened is the one that is popped. *)
Theorem scope_restores_contexts :
  forall (NONE SEMI COLON COMMA : string) (Sprintf : string -> list string -> string)
         (body : list Announcement) (p p' : cprinter.CPrinter) (o : string),
    announce NONE SEMI COLON COMMA Sprintf (AScope body) p = Some (tt, p', o) ->
    cprinter.ctx p' = cprinter.ctx p.
Proof.
  intros NONE SEMI COLON COMMA Sprintf body p p' o E.
  assert (H : list_all Announcement
                (fun a => scoped (announce NONE SEMI COLON COMMA Sprintf a)) body).
  { clear E. induction body as [| a body IH];
      [constructor | constructor; [apply scoped_announce | exact IH]]. }
  cbn [announce] in E.
  eapply scope_restores; [| exact E].
  apply scoped_announce_list, H.
Qed.

Lemma scope_restores_contexts_witness :
  let p := cprinter.mkCPrinter 0 false [with_iota cprinter.new_context 5] in
  let p' := cprinter.mkCPrinter 1 false [with_iota cprinter.new_context 5] in
  let o := "int /* r */ T::Get() {" ++ NL ++
           "  Deferred defer0([](){ f(); });" ++ NL ++
           "  Deferred defer0([](){ g(); });" ++ NL ++
           "  return r.x;" ++ NL in
  announce ex_NONE ex_SEMI ":" ex_COMMA Sprintf_s (AScope method_with_scope) p
    = Some (tt, p', o)
  /\ cprinter.ctx p' = cprinter.ctx p.
Proof.
  cbv zeta.
  assert (E : announce ex_NONE ex_SEMI ":" ex_COMMA Sprintf_s (AScope method_with_scope)
                (cprinter.mkCPrinter 0 false [with_iota cprinter.new_context 5])
              = Some (tt, cprinter.mkCPrinter 1 false [with_iota cprinter.new_context 5],
                      "int /* r */ T::Get() {" ++ NL ++
                      "  Deferred defer0([](){ f(); });" ++ NL ++
                      "  Deferred defer0([](){ g(); });" ++ NL ++
                      "  return r.x;" ++ NL))
    by (vm_compute; reflexivity).
  split; [exact E |].
  exact (scope_restores_contexts ex_NONE ex_SEMI ":" ex_COMMA Sprintf_s _ _ _ _ E).
Defined.

Lemma PrintFunc_method (recv rtype rname name params results : string)
    (l : Z) (s : bool) (c : cprinter.CContext) (rest : list cprinter.CContext) :
  0 < cprinter.strlen recv ->
  strings.SplitN2 recv " " = [rtype; rname] ->
  cprinter.PrintFunc recv name params results (cprinter.mkCPrinter l s (c :: rest)) =
    Some (tt, cprinter.mkCPrinter l s (with_receiver c rname :: rest),
          method_header rtype rname name params results).
Proof.
  intros Hlen Hsplit.
  unfold cprinter.PrintFunc, method_header, header_results.
  rewrite (strlen_pos_false recv Hlen). cbn [andb].
  apply Z.ltb_lt in Hlen. rewrite Hlen. rewrite Hsplit.
  destruct (cprinter.strlen results =? 0);
    [| destruct (cprinter.IsMultiValue results)]; reflexivity.
Qed.

(** X5.  The receiver a function header records belongs to the scope it
    was recorded in.  In a scope pushed inside that one a member
    selection on the receiver's name keeps its qualifier; once that
    scope is popped the selection renders with ["this->"] again. *)
Theorem receiver_per_scope :
  forall (recv rtype rname name params results sel : string)
         (l : Z) (s : bool) (c : cprinter.CContext) (rest : list cprinter.CContext),
    0 < cprinter.strlen recv ->
    strings.SplitN2 recv " " = [rtype; rname] ->
    0 < cprinter.strlen rname ->
    let p := cprinter.mkCPrinter l s (c :: rest) in
    (cprinter.PrintFunc recv name params results ;;
     cprinter.PushContext ;;
     cprinter.FormatSelector rname sel true)%cp p =
      Some ((rname ++ ".") ++ sel,
            cprinter.mkCPrinter l s (cprinter.new_context :: with_receiver c rname :: rest),
            method_header rtype rname name params results)
    /\ (cprinter.PrintFunc recv name params results ;;
        cprinter.PushContext ;;
        cprinter.PopContext ;;
        cprinter.FormatSelector rname sel true)%cp p =
         Some ("this->" ++ sel,
               cprinter.mkCPrinter l s (with_receiver c rname :: rest),
               method_header rtype rname name params results).
Proof.
  intros recv rtype rname name params results sel l s c rest Hlen Hsplit Hname.
  cbn zeta. split.
  - unfold cprinter.bind at 1.
    rewrite (PrintFunc_method recv rtype rname name params results l s c rest Hlen Hsplit).
    cbn. destruct rname as [| a r]; [unfold cprinter.strlen in Hname; cbn in Hname; lia |].
    rewrite append_nil_r. reflexivity.
  - unfold cprinter.bind at 1.
    rewrite (PrintFunc_method recv rtype rname name params results l s c rest Hlen Hsplit).
    cbn. rewrite String.eqb_refl. rewrite append_nil_r. reflexivity.
Qed.

Lemma receiver_per_scope_witness :
  let p := cprinter.mkCPrinter 0 false [cprinter.new_context] in
  (cprinter.PrintFunc "T* r" "Get" "" "int" ;;
   cprinter.PushContext ;;
   cprinter.FormatSelector "r" "x" true)%cp p =
    Some (("r" ++ ".") ++ "x",
          cprinter.mkCPrinter 0 false
            [cprinter.new_context; with_receiver cprinter.new_context "r"],
          method_header "T*" "r" "Get" "" "int")
  /\ (cprinter.PrintFunc "T* r" "Get" "" "int" ;;
      cprinter.PushContext ;;
      cprinter.PopContext ;;
      cprinter.FormatSelector "r" "x" true)%cp p =
       Some ("this->" ++ "x",
             cprinter.mkCPrinter 0 false [with_receiver cprinter.new_context "r"],
             method_header "T*" "r" "Get" "" "int").
Proof.
  apply (receiver_per_scope "T* r" "T*" "r" "Get" "" "int" "x" 0 false
           cprinter.new_context []); reflexivity.
Defined.

(** X6.  [FormatPair] looks at the context only if there is one: for a
    result or a parameter it never panics; without a context it leaves
    the printer as it is; and with one it returns the same text, touching
    the top context at most. *)
Theorem FormatPair_context_guard :
  forall (SEMI COMMA : string) (Sprintf : string -> list string -> string)
         (v : cprinter.Pair) (t : cprinter.FieldType) (l : Z) (s : bool)
         (cs : list cprinter.CContext),
    t = cprinter.RESULT \/ t = cprinter.PARAM ->
    exists text : string,
      cprinter.FormatPair SEMI COMMA Sprintf v t (cprinter.mkCPrinter l s []) =
        Some (text ++ COMMA, cprinter.mkCPrinter l s [], "")
      /\ exists cs' : list cprinter.CContext,
           cprinter.FormatPair SEMI COMMA Sprintf v t (cprinter.mkCPrinter l s cs) =
             Some (text ++ COMMA, cprinter.mkCPrinter l s cs', "")
           /\ top_touched cs cs'.
Proof.
  intros SEMI COMMA Sprintf v t l s cs Ht.
  unfold cprinter.FormatPair.
  match goal with
  | |- context [match ?x with (_, _) => _ end] => destruct x as [name value]
  end.
  match goal with
  | |- context [if strings.HasPrefix value "*" then ?a else value] =>
      generalize (if strings.HasPrefix value "*" then a else value)
  end.
  intros value'.
  assert (Plain : forall r : string,
            exists text : string,
              Some (r ++ COMMA, cprinter.mkCPrinter l s [], "") =
                Some (text ++ COMMA, cprinter.mkCPrinter l s [], "")
              /\ exists cs' : list cprinter.CContext,
                   Some (r ++ COMMA, cprinter.mkCPrinter l s cs, "") =
                     Some (text ++ COMMA, cprinter.mkCPrinter l s cs', "")
                   /\ top_touched cs cs').
  { intros r. exists r. split; [reflexivity |].
    exists cs. split; [reflexivity | apply top_touched_refl]. }
  destruct Ht as [-> | ->]; cbn [cprinter.FieldType_eqb andb].
  - destruct (0 <? cprinter.strlen name) eqn:En.
    + exists (value' ++ " /* " ++ name ++ " */"). split; [reflexivity |].
      destruct cs as [| c rest]; eexists; (split; [reflexivity |]).
      * apply top_touched_refl.
      * right. eauto.
    + destruct (0 <? cprinter.strlen value'); apply Plain.
  - destruct (strings.Contains value' "%s"); [apply Plain |].
    destruct ((0 <? cprinter.strlen name) && (0 <? cprinter.strlen value')); apply Plain.
Qed.

Lemma FormatPair_context_guard_witness :
  exists text : string,
    cprinter.FormatPair ex_SEMI ex_COMMA Sprintf_s (cprinter.mkPair "err" "error")
        cprinter.RESULT (cprinter.mkCPrinter 0 false []) =
      Some (text ++ ex_COMMA, cprinter.mkCPrinter 0 false [], "")
    /\ exists cs' : list cprinter.CContext,
         cprinter.FormatPair ex_SEMI ex_COMMA Sprintf_s (cprinter.mkPair "err" "error")
             cprinter.RESULT (cprinter.mkCPrinter 0 false [cprinter.new_context]) =
           Some (text ++ ex_COMMA, cprinter.mkCPrinter 0 false cs', "")
         /\ top_touched [cprinter.new_context] cs'.
Proof.
  exact (FormatPair_context_guard ex_SEMI ex_COMMA Sprintf_s (cprinter.mkPair "err" "error")
           cprinter.RESULT 0 false [cprinter.new_context] (or_introl eq_refl)).
Defined.

(** ** The C printer: function headers *)

(** X7.  [PrintFunc] panics in two cases and in no other: the receiver
    text is not empty and either holds no space (there is no second
    part to take the receiver's name from) or there is no context to
    record the name in. *)
Theorem PrintFunc_panics :
  forall (receiver name params results : string) (p : cprinter.CPrinter),
    cprinter.PrintFunc receiver name params results p = None <->
    0 < cprinter.strlen receiver /\
    (strings.Contains receiver " " = false \/ cprinter.ctx p = []).
Proof.
  intros receiver name params results p.
  unfold cprinter.PrintFunc.
  destruct (cprinter.strlen receiver =? 0) eqn:E0.
  - apply Z.eqb_eq in E0.
    assert (Hno : (0 <? cprinter.strlen receiver) = false) by (apply Z.ltb_ge; lia).
    rewrite Hno. cbn [andb].
    split.
    + destruct ((cprinter.strlen params =? 0) && (cprinter.strlen results =? 0)
                && String.eqb name "main"); cbn; discriminate.
    + intros [H _]. lia.
  - apply Z.eqb_neq in E0. cbn [andb].
    assert (Hpos : 0 < cprinter.strlen receiver)
      by (unfold cprinter.strlen in *; lia).
    assert (Hyes : (0 <? cprinter.strlen receiver) = true) by (apply Z.ltb_lt; lia).
    rewrite Hyes.
    unfold strings.SplitN2, strings.Contains.
    destruct (Z.ltb_spec (strings.Index receiver " ") 0) as [Hi | Hi].
    + split; [intros _ | reflexivity].
      split; [exact Hpos | left; apply Z.leb_gt; lia].
    + destruct (cprinter.ctx p) as [| c rest] eqn:Ec.
      * split; [intros _; split; [exact Hpos | now right] |].
        intros _. unfold cprinter.bind, cprinter.get_ctx. now rewrite Ec.
      * split.
        -- unfold cprinter.bind, cprinter.get_ctx, cprinter.set_ctx. rewrite Ec.
           cbn. rewrite Ec. discriminate.
        -- intros [_ [H | H]]; [apply Z.leb_gt in H; lia | discriminate].
Qed.

(** ** The C printer: where the level moves *)

Lemma level_kept_get : level_kept cprinter.get.
Proof. intros p x p' o [= _ <- _]. reflexivity. Qed.

Lemma level_kept_PushContext : level_kept cprinter.PushContext.
Proof. intros p x p' o [= _ <- _]. reflexivity. Qed.

Lemma level_kept_PopContext : level_kept cprinter.PopContext.
Proof.
  intros p x p' o E. unfold cprinter.PopContext in E.
  destruct (cprinter.ctx p); [discriminate |]. now injection E as _ <- _.
Qed.

Ltac level_kept_more :=
  lazymatch goal with
  | |- level_kept cprinter.get => apply level_kept_get
  | |- level_kept cprinter.SameLine => apply level_kept_SameLine
  | |- level_kept cprinter.indent => apply level_kept_indent
  | |- level_kept cprinter.PushContext => apply level_kept_PushContext
  | |- level_kept cprinter.PopContext => apply level_kept_PopContext
  | |- level_kept (cprinter.PrintStmt _ _ _) => apply level_kept_PrintStmt
  | |- level_kept (cprinter.PrintFunc _ _ _ _) => apply level_kept_PrintFunc
  | |- level_kept (cprinter.FormatIdent _) => unfold cprinter.FormatIdent
  | |- _ => level_kept_step
  end.

Lemma level_kept_announce_list (NONE SEMI COLON COMMA : string)
    (Sprintf : string -> list string -> string) (body : list Announcement) :
  list_all Announcement
    (fun a => level_neutral a = true ->
              level_kept (announce NONE SEMI COLON COMMA Sprintf a)) body ->
  forallb level_neutral body = true ->
  level_kept (announce_list NONE SEMI COLON COMMA Sprintf body).
Proof.
  intros H. induction H as [| a Ha body Hb IH]; cbn [announce_list forallb]; intros Hn.
  - apply level_kept_ret.
  - apply andb_prop in Hn. destruct Hn as [H1 H2].
    apply level_kept_bind; [auto | intros _; auto].
Qed.

Lemma level_kept_announce (NONE SEMI COLON COMMA : string)
    (Sprintf : string -> list string -> string) (a : Announcement) :
  level_neutral a = true ->
  level_kept (announce NONE SEMI COLON COMMA Sprintf a).
Proof.
  induction a; cbn [level_neutral announce]; intros Hn; try discriminate Hn;
    try (unfold drop, cprinter.PrintPackage, cprinter.PrintImport, cprinter.PrintType,
           cprinter.PrintValue, cprinter.PrintReturn, cprinter.PrintFor,
           cprinter.PrintRange, cprinter.PrintSwitch, cprinter.PrintCase,
           cprinter.PrintEndCase, cprinter.PrintIf, cprinter.PrintElse,
           cprinter.PrintEmpty, cprinter.PrintAssignment, cprinter.PrintSend,
           cprinter.FormatSelector, cprinter.FormatPair;
         repeat level_kept_more; fail).
  apply level_kept_bind; [apply level_kept_PushContext | intros _].
  apply level_kept_bind; [| intros _; apply level_kept_PopContext].
  change (level_kept (announce_list NONE SEMI COLON COMMA Sprintf body)).
  apply level_kept_announce_list; assumption.
Qed.

(** X26.  [Reset] apart, which sets the level to 0, the indentation
    level moves at [UpdateLevel], at the start and the end of a block
    and inside [PrintLevelIn] only: every other call on the printer,
    and every scope made of such calls, leaves the level as it was. *)
Theorem level_moves_at_blocks_only :
  forall (NONE SEMI COLON COMMA : string) (Sprintf : string -> list string -> string)
         (a : Announcement) (p p' : cprinter.CPrinter) (o : string),
    level_neutral a = true ->
    announce NONE SEMI COLON COMMA Sprintf a p = Some (tt, p', o) ->
    cprinter.level p' = cprinter.level p.
Proof.
  intros NONE SEMI COLON COMMA Sprintf a p p' o Hn E.
  exact (level_kept_announce NONE SEMI COLON COMMA Sprintf a Hn p tt p' o E).
Qed.

Lemma level_moves_at_blocks_only_witness :
  let p := cprinter.mkCPrinter 3 false [] in
  let p' := cprinter.mkCPrinter 3 false [] in
  let a := AScope [APrintFunc "T* r" "Get" "" "int"; APrintStmt "defer" "f()";
                   APrintReturn "r.x" false] in
  let o := "int /* r */ T::Get()       Deferred defer0([](){ f(); });" ++ NL ++
           "      return r.x;" ++ NL in
  announce ex_NONE ex_SEMI ":" ex_COMMA Sprintf_s a p = Some (tt, p', o)
  /\ cprinter.level p' = cprinter.level p.
Proof.
  cbv zeta.
  assert (E : announce ex_NONE ex_SEMI ":" ex_COMMA Sprintf_s
                (AScope [APrintFunc "T* r" "Get" "" "int"; APrintStmt "defer" "f()";
                         APrintReturn "r.x" false])
                (cprinter.mkCPrinter 3 false [])
              = Some (tt, cprinter.mkCPrinter 3 false [],
                      "int /* r */ T::Get()       Deferred defer0([](){ f(); });" ++ NL ++
                      "      return r.x;" ++ NL))
    by (vm_compute; reflexivity).
  split; [exact E |].
  exact (level_moves_at_blocks_only ex_NONE ex_SEMI ":" ex_COMMA Sprintf_s
           (AScope [APrintFunc "T* r" "Get" "" "int"; APrintStmt "defer" "f()";
                    APrintReturn "r.x" false]) _ _ _ eq_refl E).
Defined.
(** ** The C printer: indentation of a line *)

(** X8.  The same-line flag holds for one line.  After [SameLine] the
    next [PrintLevel] writes its text without indentation, at any level
    (also at one where the indentation would panic), and clears the
    flag; the [PrintLevel] after that indents again: it panics at a
    negative level and from level 2^62 on, where [strings.Repeat]
    panics, and writes its indented line at every level between. *)
Theorem sameline_once :
  forall (term1 term2 : string) (values1 values2 : list string)
         (l : Z) (s : bool) (cs : list cprinter.CContext),
    (cprinter.SameLine ;; cprinter.PrintLevel term1 values1)%cp
        (cprinter.mkCPrinter l s cs) =
      Some (tt, cprinter.mkCPrinter l false cs, strings.Join values1 " " ++ term1)
    /\ (cprinter.SameLine ;;
        cprinter.PrintLevel term1 values1 ;;
        cprinter.PrintLevel term2 values2)%cp (cprinter.mkCPrinter l s cs) =
         if (l <? 0) || (2 ^ 62 <=? l) then None
         else Some (tt, cprinter.mkCPrinter l false cs,
                    (strings.Join values1 " " ++ term1)
                      ++ strings.repeat_nat "  " (Z.to_nat l)
                      ++ strings.Join values2 " " ++ term2).
Proof.
  intros term1 term2 values1 values2 l s cs. split.
  - reflexivity.
  - unfold cprinter.PrintLevel, cprinter.indent, cprinter.SameLine, cprinter.bind,
      cprinter.get, cprinter.put, cprinter.Fprint, cprinter.ret, cprinter.panic.
    cbn [cprinter.level cprinter.sameline cprinter.ctx].
    destruct (Z.ltb_spec l 0) as [H0 | H0]; cbn [orb].
    + rewrite Repeat_indent_panics by lia. reflexivity.
    + destruct (Z.leb_spec (2 ^ 62) l) as [H1 | H1].
      * rewrite Repeat_indent_panics by lia. reflexivity.
      * rewrite Repeat_indent by lia. reflexivity.
Qed.

(** X9.  [PrintLevelIn] writes its line one level less deep and leaves
    the level as it was.  With the same-line flag set it writes the line
    without indentation; without it, it panics at level 0 or below
    (there is no level to step back to) and above level 2^62 (where
    [strings.Repeat] panics at the level below), and writes the line
    indented by one level less at every level between. *)
Theorem PrintLevelIn_level :
  forall (term : string) (values : list string) (l : Z) (s : bool)
         (cs : list cprinter.CContext),
    - 2 ^ 63 < l < 2 ^ 63 ->
    cprinter.PrintLevelIn term values (cprinter.mkCPrinter l s cs) =
      if s then Some (tt, cprinter.mkCPrinter l false cs, strings.Join values " " ++ term)
      else if (l <=? 0) || (2 ^ 62 <? l) then None
      else Some (tt, cprinter.mkCPrinter l false cs,
                 strings.repeat_nat "  " (Z.to_nat (l - 1))
                   ++ strings.Join values " " ++ term).
Proof.
  intros term values l s cs Hl.
  assert (Hd : wrap (l + -1) = l - 1) by (apply wrap_small; unfold int_range; lia).
  assert (Hu : wrap (l - 1 + 1) = l).
  { rewrite wrap_small by (unfold int_range; lia). lia. }
  unfold cprinter.PrintLevelIn, cprinter.UpdateLevel, cprinter.indent, cprinter.bind,
    cprinter.get, cprinter.put, cprinter.Fprint, cprinter.ret, cprinter.panic.
  cbn [cprinter.level cprinter.sameline cprinter.ctx].
  rewrite Hd. destruct s.
  - cbn [cprinter.level cprinter.sameline cprinter.ctx]. rewrite Hu.
    cbn [append]. rewrite append_nil_r. reflexivity.
  - destruct (Z.leb_spec l 0) as [H0 | H0]; cbn [orb].
    + rewrite Repeat_indent_panics by lia. reflexivity.
    + destruct (Z.ltb_spec (2 ^ 62) l) as [H1 | H1].
      * rewrite Repeat_indent_panics by lia. reflexivity.
      * rewrite Repeat_indent by lia.
        cbn [cprinter.level cprinter.sameline cprinter.ctx]. rewrite Hu.
        cbn [append]. rewrite append_nil_r. reflexivity.
Qed.

Lemma PrintLevelIn_level_witness :
  cprinter.PrintLevelIn ":" ["case 1"] (cprinter.mkCPrinter 2 false []) =
    Some (tt, cprinter.mkCPrinter 2 false [],
          strings.repeat_nat "  " (Z.to_nat (2 - 1)) ++ strings.Join ["case 1"] " " ++ ":").
Proof.
  apply (PrintLevelIn_level ":" ["case 1"] 2 false []). lia.
Defined.

(** ** The C printer: named results and the bare return *)

Lemma FormatPair_plain_result (SEMI COMMA : string) (Sprintf : string -> list string -> string)
    (v : cprinter.Pair) (l : Z) (s : bool) (c : cprinter.CContext)
    (rest : list cprinter.CContext) :
  plain_result COMMA v ->
  cprinter.FormatPair SEMI COMMA Sprintf v cprinter.RESULT (cprinter.mkCPrinter l s (c :: rest)) =
    Some (result_text COMMA v, cprinter.mkCPrinter l s (with_results c [v] :: rest), "").
Proof.
  intros (Hn & _ & Hs & Hp).
  unfold cprinter.FormatPair. rewrite Hs, Hp.
  cbn [cprinter.FieldType_eqb andb].
  apply Z.ltb_lt in Hn. rewrite Hn.
  unfold result_text, with_results. cbn. rewrite !append_nil_r. reflexivity.
Qed.

Lemma with_results_cons (c : cprinter.CContext) (v : cprinter.Pair) (l : list cprinter.Pair) :
  with_results (with_results c [v]) l = with_results c (v :: l).
Proof.
  unfold with_results. cbn. rewrite !append_nil_r, !append_assoc_s. reflexivity.
Qed.

Lemma format_results_records (SEMI COMMA : string) (Sprintf : string -> list string -> string)
    (results : list cprinter.Pair) :
  forall (l : Z) (s : bool) (c : cprinter.CContext) (rest : list cprinter.CContext),
    Forall (plain_result COMMA) results ->
    format_results SEMI COMMA Sprintf results (cprinter.mkCPrinter l s (c :: rest)) =
      Some (map (result_text COMMA) results,
            cprinter.mkCPrinter l s (with_results c results :: rest), "").
Proof.
  induction results as [| v results IH]; intros l s c rest H.
  - cbn. unfold with_results. cbn. rewrite !append_nil_r. destruct c; reflexivity.
  - inversion H as [| v' l' Hv Hl]; subst.
    cbn [format_results]. unfold cprinter.bind at 1.
    rewrite FormatPair_plain_result by exact Hv.
    unfold cprinter.bind at 1. rewrite IH by exact Hl.
    rewrite with_results_cons. reflexivity.
Qed.

Lemma result_values_join (results : list cprinter.Pair) :
  results <> [] ->
  result_values results = strings.Join (map cprinter.Name results) ", " ++ ", ".
Proof.
  induction results as [| v results IH]; intros Hne; [contradiction |].
  destruct results as [| v' results].
  - cbn. now rewrite append_nil_r.
  - cbn [result_values] in *. rewrite IH by discriminate.
    cbn [map strings.Join String.concat]. unfold strings.Join.
    cbn [map]. rewrite !append_assoc_s. reflexivity.
Qed.

Lemma TrimRight_Join (cutset sep : string) (names : list string) :
  names <> [] ->
  Forall (fun n => strings.TrimRight n cutset = n /\ n <> "") names ->
  strings.TrimRight (strings.Join names sep) cutset = strings.Join names sep
  /\ strings.Join names sep <> "".
Proof.
  induction names as [| x names IH]; intros Hne H; [contradiction |].
  inversion H as [| x' l' [Hx Hx0] Hl]; subst.
  destruct names as [| y names].
  - cbn. split; assumption.
  - destruct (IH ltac:(discriminate) Hl) as [IH1 IH2].
    unfold strings.Join in *. cbn [String.concat] in *.
    split.
    + rewrite <- append_assoc_s. apply TrimRight_app_keep; assumption.
    + destruct x; [contradiction | discriminate].
Qed.

Lemma Chop_result_values (COMMA : string) (results : list cprinter.Pair) :
  results <> [] ->
  Forall (plain_result COMMA) results ->
  strings.in_cutset "," COMMA = true ->
  strings.in_cutset " " COMMA = true ->
  cprinter.Chop COMMA (result_values results) =
    strings.Join (map cprinter.Name results) ", ".
Proof.
  intros Hne H Hc Hs.
  rewrite result_values_join by exact Hne.
  unfold cprinter.Chop.
  rewrite TrimRight_app_cut by (cbn; now rewrite Hc, Hs).
  apply TrimRight_Join.
  - destruct results; [contradiction | discriminate].
  - clear Hne. induction H as [| v l (Hn & Hch & _) Hl IH]; cbn [map]; constructor; auto.
    split; [exact Hch |].
    intros E. rewrite E in Hn. unfold cprinter.strlen in Hn. cbn in Hn. lia.
Qed.

Lemma result_definitions_pos (results : list cprinter.Pair) :
  results <> [] -> (0 <? cprinter.strlen (result_definitions results)) = true.
Proof.
  destruct results as [| v results]; [contradiction |]. intros _.
  apply Z.ltb_lt. unfold cprinter.strlen. cbn [result_definitions].
  rewrite !length_app_s. cbn [String.length]. lia.
Qed.

Lemma result_values_pos (results : list cprinter.Pair) :
  results <> [] -> (0 <? cprinter.strlen (result_values results)) = true.
Proof.
  destruct results as [| v results]; [contradiction |]. intros _.
  apply Z.ltb_lt. unfold cprinter.strlen. cbn [result_values].
  rewrite !length_app_s. cbn [String.length]. lia.
Qed.

Lemma PrintBlockStart_declares (l : Z) (s : bool) (c : cprinter.CContext)
    (rest : list cprinter.CContext) :
  0 <= l < 2 ^ 62 - 1 ->
  (0 <? cprinter.strlen (cprinter.ret_definitions c)) = true ->
  cprinter.PrintBlockStart cprinter.CODE (cprinter.mkCPrinter l s (c :: rest)) =
    Some (tt,
          cprinter.mkCPrinter (l + 1) false
            (cprinter.mkCContext (cprinter.iota c) (cprinter.deferred c)
               (cprinter.receiver c) "" (cprinter.ret_values c) :: rest),
          (indent_text l s ++ "{" ++ NL)
            ++ (indent_text (l + 1) false ++ cprinter.ret_definitions c ++ NL)).
Proof.
  intros Hl Hd.
  unfold cprinter.PrintBlockStart.
  unfold cprinter.bind at 1. rewrite PrintLevel_text by lia.
  unfold cprinter.bind at 1.
  cbn [cprinter.UpdateLevel cprinter.bind cprinter.get cprinter.put
         cprinter.level cprinter.sameline cprinter.ctx].
  unfold UP. rewrite wrap_small by (unfold int_range; lia).
  unfold cprinter.bind at 1. cbn [cprinter.get_ctx cprinter.ctx].
  rewrite Hd.
  unfold cprinter.bind at 1. rewrite PrintLevel_text by lia.
  cbn [cprinter.set_ctx cprinter.ctx cprinter.level cprinter.sameline].
  cbn [strings.Join String.concat append].
  rewrite !append_nil_r. reflexivity.
Qed.

Lemma PrintReturn_bare (SEMI COMMA : string) (tuple : bool) (l : Z) (s : bool)
    (c : cprinter.CContext) (rest : list cprinter.CContext) :
  0 <= l < 2 ^ 62 ->
  (0 <? cprinter.strlen (cprinter.ret_values c)) = true ->
  cprinter.PrintReturn SEMI COMMA "" tuple (cprinter.mkCPrinter l s (c :: rest)) =
    Some (tt, cprinter.mkCPrinter l false (c :: rest),
          indent_text l s ++ "return "
            ++ (if tuple
                then "make_tuple(" ++ cprinter.Chop COMMA (cprinter.ret_values c) ++ ")"
                else cprinter.Chop COMMA (cprinter.ret_values c))
            ++ SEMI).
Proof.
  intros Hl Hv.
  unfold cprinter.PrintReturn.
  change (cprinter.strlen "" =? 0) with true. cbv iota.
  unfold cprinter.bind at 1. unfold cprinter.bind at 1.
  cbn [cprinter.get_ctx cprinter.ctx]. rewrite Hv. cbn [cprinter.ret].
  rewrite PrintStmt_other by (auto; reflexivity).
  unfold statement_text.
  change (("return" =? "go")%string) with false.
  change (0 <? cprinter.strlen "return") with true. cbv iota.
  destruct tuple; cbn [append]; reflexivity.
Qed.

(** X10.  For named results of plain types (no array, no pointer) in a
    freshly pushed context: formatting them records their declarations
    and their names; the first body block then opens with the
    declarations on a line of their own, printed once; and a bare
    return is filled in with the names, joined by [", "], wrapped in
    [make_tuple(...)] when the function returns a tuple.  The levels
    are those at which both lines can be indented: from 0 on, with the
    level of the body below 2^62. *)
Theorem named_results_bare_return :
  forall (SEMI COMMA : string) (Sprintf : string -> list string -> string)
         (results : list cprinter.Pair) (tuple : bool)
         (l : Z) (s : bool) (rest : list cprinter.CContext),
    0 <= l < 2 ^ 62 - 1 ->
    results <> [] ->
    Forall (plain_result COMMA) results ->
    strings.in_cutset "," COMMA = true ->
    strings.in_cutset " " COMMA = true ->
    let names := strings.Join (map cprinter.Name results) ", " in
    (cprinter.PushContext ;;
     rs <- format_results SEMI COMMA Sprintf results ;;
     cprinter.PrintBlockStart cprinter.CODE ;;
     cprinter.PrintReturn SEMI COMMA "" tuple ;;
     cprinter.ret rs)%cp (cprinter.mkCPrinter l s rest) =
      Some (map (result_text COMMA) results,
            cprinter.mkCPrinter (l + 1) false
              (cprinter.mkCContext 0 0 "" "" (result_values results) :: rest),
            (indent_text l s ++ "{" ++ NL)
              ++ (indent_text (l + 1) false ++ result_definitions results ++ NL)
              ++ (indent_text (l + 1) false ++ "return "
                    ++ (if tuple then "make_tuple(" ++ names ++ ")" else names) ++ SEMI)).
Proof.
  intros SEMI COMMA Sprintf results tuple l s rest Hl Hne Hplain Hc Hs. cbn zeta.
  unfold cprinter.bind at 1.
  cbn [cprinter.PushContext cprinter.bind cprinter.get cprinter.put
         cprinter.level cprinter.sameline cprinter.ctx].
  unfold cprinter.bind at 1.
  rewrite format_results_records by exact Hplain.
  unfold with_results. cbn [cprinter.new_context cprinter.iota cprinter.deferred
    cprinter.receiver cprinter.ret_definitions cprinter.ret_values append].
  unfold cprinter.bind at 1.
  rewrite PrintBlockStart_declares
    by (cbn [cprinter.ret_definitions]; auto using result_definitions_pos).
  cbn [cprinter.iota cprinter.deferred cprinter.receiver cprinter.ret_definitions
         cprinter.ret_values].
  unfold cprinter.bind at 1.
  rewrite PrintReturn_bare
    by (cbn [cprinter.ret_values]; auto using result_values_pos; lia).
  cbn [cprinter.ret cprinter.ret_values].
  rewrite Chop_result_values by assumption.
  cbn [append]. rewrite !append_nil_r, !append_assoc_s.
  destruct tuple; reflexivity.
Qed.

Lemma named_results_bare_return_witness :
  let results := [cprinter.mkPair "x" "int"; cprinter.mkPair "err" "error"] in
  let names := strings.Join (map cprinter.Name results) ", " in
  (cprinter.PushContext ;;
   rs <- format_results ex_SEMI ex_COMMA Sprintf_s results ;;
   cprinter.PrintBlockStart cprinter.CODE ;;
   cprinter.PrintReturn ex_SEMI ex_COMMA "" true ;;
   cprinter.ret rs)%cp (cprinter.mkCPrinter 0 false []) =
    Some (map (result_text ex_COMMA) results,
          cprinter.mkCPrinter (0 + 1) false
            [cprinter.mkCContext 0 0 "" "" (result_values results)],
          (indent_text 0 false ++ "{" ++ NL)
            ++ (indent_text (0 + 1) false ++ result_definitions results ++ NL)
            ++ (indent_text (0 + 1) false ++ "return "
                  ++ ("make_tuple(" ++ names ++ ")") ++ ex_SEMI)).
Proof.
  apply (named_results_bare_return ex_SEMI ex_COMMA Sprintf_s
           [cprinter.mkPair "x" "int"; cprinter.mkPair "err" "error"] true 0 false []).
  - lia.
  - discriminate.
  - repeat constructor.
  - reflexivity.
  - reflexivity.
Defined.

(** ** The walker: what a visit leaves behind *)

Section VisitFrame.

Context {PS : Type} {Pr : Printer.Printer PS}.
Variable GoSyntax : ast.Node -> string.

Let GW : Type := walkngo.GoWalker (PS := PS).

(** The frame every case of [Visit] runs in: the parent is swapped on
    the way in, and on the way out the buffer is flushed and the parent
    put back. *)
Lemma visit_frame (A : Type) (x : option ast.Node) (body : option ast.Node -> walkngo.W A)
    (w w' : GW) (r : A) :
  (pparent <- walkngo.get_parent ;;
   walkngo.set_parent x ;;
   ret <- body pparent ;;
   walkngo.Flush ;;
   walkngo.set_parent pparent ;;
   walkngo.retW ret)%walk w = Some (r, w') ->
  walkngo.parent w' = walkngo.parent w /\
  (walkngo.flush w' = true -> walkngo.buffer w' = "").
Proof.
  intros E.
  unfold walkngo.bindW at 1 in E. cbn [walkngo.get_parent] in E.
  unfold walkngo.bindW at 1 in E. cbn [walkngo.set_parent] in E.
  unfold walkngo.bindW at 1 in E.
  match type of E with
  | context [body ?a ?b] => destruct (body a b) as [[r3 w3] |]; [| discriminate]
  end.
  unfold walkngo.bindW at 1 in E. rewrite Flush_eq in E.
  cbn [walkngo.bindW walkngo.set_parent walkngo.retW] in E.
  injection E as _ <-. cbn [walkngo.parent]. split; [reflexivity |].
  destruct (walkngo.flush w3) eqn:F; cbn [andb].
  - destruct (0 <? walkngo.strlen (walkngo.buffer w3)) eqn:B; cbn; intros _.
    + reflexivity.
    + now apply strlen_zero.
  - cbn. congruence.
Qed.

Lemma Visit_frame (n : ast.Node) (w w' : GW) (r : bool) :
  walkngo.Visit GoSyntax n w = Some (r, w') ->
  walkngo.parent w' = walkngo.parent w /\
  (walkngo.flush w' = true -> walkngo.buffer w' = "").
Proof.
  destruct n; cbn [walkngo.Visit]; intros E.
  all: eapply (visit_frame _ _ (fun pparent => _)); exact E.
Qed.

End VisitFrame.

(** X11.  A visit leaves the walker's parent as it found it: the node is
    the parent while its children are visited, and the parent of before
    is put back on the way out, whatever the node. *)
Theorem Visit_restores_parent :
  forall (PS : Type) (Pr : Printer.Printer PS) (GoSyntax : ast.Node -> string)
         (n : ast.Node) (w w' : walkngo.GoWalker (PS := PS)) (r : bool),
    walkngo.Visit GoSyntax n w = Some (r, w') ->
    walkngo.parent w' = walkngo.parent w.
Proof.
  intros PS Pr GoSyntax n w w' r E.
  exact (proj1 (Visit_frame GoSyntax n w w' r E)).
Qed.

Lemma Visit_restores_parent_witness :
  let w' := walkngo.mkGoWalker 0 (Some ast.BadDecl) "" true
              ("pending{" ++ NL ++ "  ;" ++ NL ++ "}") in
  walkngo.Visit (Pr := Outline) dump_kind (ast.BlockStmt [ast.EmptyStmt]) pending_walker
    = Some (false, w')
  /\ walkngo.parent w' = walkngo.parent pending_walker.
Proof.
  cbv zeta.
  assert (E : walkngo.Visit (Pr := Outline) dump_kind (ast.BlockStmt [ast.EmptyStmt])
                pending_walker
              = Some (false,
                      walkngo.mkGoWalker 0 (Some ast.BadDecl) "" true
                        ("pending{" ++ NL ++ "  ;" ++ NL ++ "}")))
    by (vm_compute; reflexivity).
  split; [exact E |].
  exact (Visit_restores_parent _ Outline dump_kind _ _ _ _ E).
Defined.

(** X12.  With flushing on, a visit that returns has delivered all the
    text: the buffer is empty afterwards, whatever was pending before,
    and flushing is still on. *)
Theorem Visit_live_flushes :
  forall (PS : Type) (Pr : Printer.Printer PS) (GoSyntax : ast.Node -> string)
         (n : ast.Node) (w w' : walkngo.GoWalker (PS := PS)) (r : bool),
    walkngo.flush w = true ->
    walkngo.Visit GoSyntax n w = Some (r, w') ->
    walkngo.buffer w' = "" /\ walkngo.flush w' = true.
Proof.
  intros PS Pr GoSyntax n w w' r F E.
  destruct (Visit_flush_frame GoSyntax n w w' r E) as [F' _].
  rewrite F in F'.
  split; [| exact F'].
  exact (proj2 (Visit_frame GoSyntax n w w' r E) F').
Qed.

Lemma Visit_live_flushes_witness :
  let w' := walkngo.mkGoWalker 0 (Some ast.BadDecl) "" true
              ("pendingif ; ok {" ++ NL ++ "  ;" ++ NL ++ "}" ++ NL) in
  walkngo.Visit (Pr := Outline) dump_kind
      (ast.IfStmt None (Some (ast.Ident "ok")) (ast.BlockStmt [ast.EmptyStmt]) None)
      pending_walker
    = Some (false, w')
  /\ walkngo.buffer w' = "" /\ walkngo.flush w' = true.
Proof.
  cbv zeta.
  assert (E : walkngo.Visit (Pr := Outline) dump_kind
                (ast.IfStmt None (Some (ast.Ident "ok")) (ast.BlockStmt [ast.EmptyStmt]) None)
                pending_walker
              = Some (false,
                      walkngo.mkGoWalker 0 (Some ast.BadDecl) "" true
                        ("pendingif ; ok {" ++ NL ++ "  ;" ++ NL ++ "}" ++ NL)))
    by (vm_compute; reflexivity).
  split; [exact E |].
  exact (Visit_live_flushes _ Outline dump_kind _ pending_walker _ _ eq_refl E).
Defined.

(** ** The walker: flushing *)

(** X13.  [Flush] never fails and loses no text: what has been printed
    followed by what is pending is the same before and after.  With
    flushing on it leaves the buffer empty; with flushing off it leaves
    the walker as it is; and flushing twice is flushing once. *)
Theorem Flush_conserves :
  forall (PS : Type) (w : walkngo.GoWalker (PS := PS)),
    exists w' : walkngo.GoWalker (PS := PS),
      walkngo.Flush w = Some (tt, w')
      /\ walkngo.stdout w' ++ walkngo.buffer w' = walkngo.stdout w ++ walkngo.buffer w
      /\ walkngo.p w' = walkngo.p w
      /\ walkngo.parent w' = walkngo.parent w
      /\ walkngo.flush w' = walkngo.flush w
      /\ (walkngo.flush w = true -> walkngo.buffer w' = "")
      /\ (walkngo.flush w = false -> w' = w)
      /\ walkngo.Flush w' = Some (tt, w').
Proof.
  intros PS w. rewrite Flush_eq.
  destruct (walkngo.flush w) eqn:F; cbn [andb].
  - destruct (0 <? walkngo.strlen (walkngo.buffer w)) eqn:B.
    + eexists. split; [reflexivity |]. cbn.
      rewrite append_nil_r. repeat split; auto; discriminate.
    + exists w. split; [reflexivity |].
      pose proof (strlen_zero _ B) as Hb.
      repeat split; auto; try discriminate.
      rewrite Flush_eq, F, B. reflexivity.
  - exists w. split; [reflexivity |].
    repeat split; auto; try discriminate.
    rewrite Flush_eq, F. reflexivity.
Qed.

(** ** The walker: where it panics *)

Lemma bindW_none (PS A B : Type) (m : walkngo.W (PS := PS) A) (f : A -> walkngo.W B)
    (w : walkngo.GoWalker (PS := PS)) :
  (forall a w1, m w = Some (a, w1) -> f a w1 = None) ->
  walkngo.bindW m f w = None.
Proof.
  intros H. unfold walkngo.bindW.
  destruct (m w) as [[a w1] |] eqn:E; [apply (H a w1 eq_refl) | reflexivity].
Qed.

Lemma bindW_none_l (PS A B : Type) (m : walkngo.W (PS := PS) A) (f : A -> walkngo.W B)
    (w : walkngo.GoWalker (PS := PS)) :
  m w = None -> walkngo.bindW m f w = None.
Proof. intros H. unfold walkngo.bindW. now rewrite H. Qed.

(** X14.  A function declaration without a body (a function implemented
    outside Go) makes the walker panic, with every printer and from
    every state: the header is announced and the nil body is then
    dereferenced. *)
Theorem FuncDecl_without_body_panics :
  forall (PS : Type) (Pr : Printer.Printer PS) (GoSyntax : ast.Node -> string)
         (recv : option ast.FieldList) (name : string)
         (params results : option ast.FieldList) (w : walkngo.GoWalker (PS := PS)),
    walkngo.Visit GoSyntax (ast.FuncDecl recv name params results None) w = None.
Proof.
  intros PS Pr GoSyntax recv name params results w.
  cbn [walkngo.Visit].
  apply bindW_none. intros pparent w1 _.
  apply bindW_none. intros [] w2 _.
  apply bindW_none_l.
  apply bindW_none. intros r w3 _.
  apply bindW_none. intros ps w4 _.
  apply bindW_none. intros rs w5 _.
  apply bindW_none. intros [] w6 _.
  reflexivity.
Qed.

(** X15.  A value specification visited while the walker's parent is
    not a general declaration makes the walker panic: the binding kind
    is read off the parent by a type assertion. *)
Theorem ValueSpec_outside_GenDecl_panics :
  forall (PS : Type) (Pr : Printer.Printer PS) (GoSyntax : ast.Node -> string)
         (names : list string) (t : option ast.Node) (values : list ast.Node)
         (w : walkngo.GoWalker (PS := PS)),
    is_GenDecl (walkngo.parent w) = false ->
    walkngo.Visit GoSyntax (ast.ValueSpec names t values) w = None.
Proof.
  intros PS Pr GoSyntax names t values w H.
  cbn [walkngo.Visit].
  unfold walkngo.bindW at 1. cbn [walkngo.get_parent].
  unfold walkngo.bindW at 1. cbn [walkngo.set_parent].
  apply bindW_none_l.
  destruct (walkngo.parent w) as [[] |]; try reflexivity.
  discriminate H.
Qed.

Lemma ValueSpec_outside_GenDecl_panics_witness :
  walkngo.Visit (Pr := Outline) dump_kind
    (ast.ValueSpec ["x"] (Some (ast.Ident "int")) []) walker0 = None.
Proof.
  apply (ValueSpec_outside_GenDecl_panics _ Outline dump_kind). reflexivity.
Defined.

(** ** The walker: formatting an expression *)

Section PureExpr.

Context {PS : Type} {Pr : Printer.Printer PS}.
Variable GoSyntax : ast.Node -> string.

Lemma pure_ret (A : Type) (a : A) : pure (PS := PS) (walkngo.retW a).
Proof. exists a. reflexivity. Qed.

Lemma pure_bind (A B : Type) (m : walkngo.W (PS := PS) A) (f : A -> walkngo.W B) :
  pure m -> (forall a, pure (f a)) -> pure (walkngo.bindW m f).
Proof.
  intros [a Ha] Hf. destruct (Hf a) as [b Hb].
  exists b. intros w. unfold walkngo.bindW. rewrite Ha. apply Hb.
Qed.

Lemma pure_nilable (A : Type) (f : ast.Node -> walkngo.W (PS := PS) A) (zero : A)
    (o : option ast.Node) :
  option_all ast.Node (fun n => closure_free n = true -> pure (f n)) o ->
  holds_opt closure_free o = true ->
  pure (walkngo.nilable f zero o).
Proof.
  intros H Hc. destruct H as [n Hn |]; cbn in *; [auto | apply pure_ret].
Qed.

Lemma pure_mapW (B : Type) (f : ast.Node -> walkngo.W (PS := PS) B) (l : list ast.Node) :
  list_all ast.Node (fun n => closure_free n = true -> pure (f n)) l ->
  forallb closure_free l = true ->
  pure (walkngo.mapW f l).
Proof.
  intros H. induction H as [| n Hn l Hl IH]; cbn [forallb walkngo.mapW]; intros Hc.
  - apply pure_ret.
  - apply andb_prop in Hc. destruct Hc as [Hc1 Hc2].
    apply pure_bind; [auto |]. intros y.
    apply pure_bind; [auto |]. intros ys. apply pure_ret.
Qed.

Lemma pure_parseExprList (f : ast.Node -> walkngo.W (PS := PS) string) (l : list ast.Node) :
  list_all ast.Node (fun n => closure_free n = true -> pure (f n)) l ->
  forallb closure_free l = true ->
  pure (walkngo.parseExprList_with f l).
Proof.
  intros H Hc. unfold walkngo.parseExprList_with.
  apply pure_bind; [now apply pure_mapW |]. intros. apply pure_ret.
Qed.

Lemma pure_parseFieldList (f : ast.Node -> walkngo.W (PS := PS) string)
    (fl : option ast.FieldList) (sep : string) :
  option_all _
    (list_all _
       (prod_all (list string) (fun _ => unit) (option ast.Node)
          (option_all ast.Node (fun n => closure_free n = true -> pure (f n))))) fl ->
  holds_fields closure_free fl = true ->
  pure (walkngo.parseFieldList_with (walkngo.nilable f "") fl sep).
Proof.
  intros H Hc. destruct H as [l Hl |]; cbn [walkngo.parseFieldList_with].
  - apply pure_bind; [| intros; apply pure_ret].
    cbn [holds_fields] in Hc. revert Hc.
    induction Hl as [| fd Hfd l Hl IH]; cbn [forallb walkngo.mapW]; intros Hc.
    + apply pure_ret.
    + apply andb_prop in Hc. destruct Hc as [Hc1 Hc2].
      apply pure_bind.
      * destruct Hfd as [names u t Ht]. cbn [fst snd] in *.
        destruct (0 <? walkngo.strlen (walkngo.parseNames names)).
        -- apply pure_bind; [| intros; apply pure_ret].
           now apply pure_nilable.
        -- now apply pure_nilable.
      * intros y. apply pure_bind; [auto |]. intros. apply pure_ret.
  - apply pure_ret.
Qed.

Ltac pure_split :=
  repeat match goal with
         | H : _ && _ = true |- _ => apply andb_prop in H; destruct H
         end.

Ltac pure_step :=
  lazymatch goal with
  | |- pure (walkngo.retW _) => apply pure_ret
  | |- pure (walkngo.bindW _ _) => apply pure_bind; [| intros ?]
  | |- pure (walkngo.nilable _ _ _) => eapply pure_nilable; eassumption
  | |- pure (walkngo.parseExprList_with _ _) => eapply pure_parseExprList; eassumption
  | |- pure (walkngo.parseFieldList_with _ _ _) => eapply pure_parseFieldList; eassumption
  | |- pure (walkngo.exprOr_with _ _ _) => unfold walkngo.exprOr_with
  | |- pure (match ?x with _ => _ end) => destruct x
  end.

Lemma parseExpr_pure_ind (e : ast.Node) :
  closure_free e = true -> pure (walkngo.parseExpr GoSyntax e).
Proof.
  induction e; cbn [closure_free]; intros Hc; try discriminate Hc;
    cbn [walkngo.parseExpr]; pure_split; repeat pure_step.
Qed.

End PureExpr.

(** X16.  Formatting an expression that holds no function literal is a
    pure computation: it never panics, and from every state of the
    walker (whatever the printer's state, the buffer and the flushing
    mode) it returns the same text and leaves the walker as it is. *)
Theorem parseExpr_pure :
  forall (PS : Type) (Pr : Printer.Printer PS) (GoSyntax : ast.Node -> string)
         (e : ast.Node),
    closure_free e = true ->
    exists text : string,
      forall w : walkngo.GoWalker (PS := PS),
        walkngo.parseExpr GoSyntax e w = Some (text, w).
Proof.
  intros PS Pr GoSyntax e H. exact (parseExpr_pure_ind GoSyntax e H).
Qed.

Lemma parseExpr_pure_witness :
  exists text : string,
    forall w : walkngo.GoWalker (PS := Z),
      walkngo.parseExpr (Pr := Outline) dump_kind
        (ast.CallExpr (Some (ast.SelectorExpr (Some (ast.Ident "fmt")) "Println"))
           [ast.BinaryExpr (Some (ast.Ident "x")) "+" (Some (ast.BasicLit "1"));
            ast.IndexExpr (Some (ast.Ident "a")) (Some (ast.Ident "i"))] 0) w
      = Some (text, w).
Proof.
  apply (parseExpr_pure _ Outline dump_kind). reflexivity.
Defined.

(** ** The walker: trees it traverses without a panic *)

Section Total.

Context {PS : Type} {Pr : Printer.Printer PS}.
Variable GoSyntax : ast.Node -> string.
Hypothesis Pr_total : total_printer Pr.

Let GW : Type := walkngo.GoWalker (PS := PS).

Lemma steady_ret (Q : option ast.Node -> Prop) (A : Type) (a : A) :
  steady (PS := PS) Q (walkngo.retW a).
Proof. intros w _. exists a, w. now split. Qed.

Lemma steady_bind (Q : option ast.Node -> Prop) (A B : Type)
    (m : walkngo.W (PS := PS) A) (f : A -> walkngo.W B) :
  steady Q m -> (forall a, steady Q (f a)) -> steady Q (walkngo.bindW m f).
Proof.
  intros Hm Hf w Hq.
  destruct (Hm w Hq) as (a & w1 & E1 & P1).
  destruct (Hf a w1) as (b & w2 & E2 & P2); [now rewrite P1 |].
  exists b, w2. unfold walkngo.bindW. rewrite E1. split; [exact E2 | congruence].
Qed.

Lemma steady_call (Q : option ast.Node -> Prop) (m : Printer.Method) :
  steady Q (walkngo.call m).
Proof.
  intros w _. unfold walkngo.call.
  destruct (Printer.invoke m (walkngo.p w)) as [[s o] |] eqn:E.
  - eexists. eexists. split; reflexivity.
  - now apply Pr_total in E.
Qed.

Lemma steady_Flush (Q : option ast.Node -> Prop) : steady (PS := PS) Q walkngo.Flush.
Proof.
  intros w _. rewrite Flush_eq. eexists. eexists. split; [reflexivity |].
  destruct (walkngo.flush w && (0 <? walkngo.strlen (walkngo.buffer w))); reflexivity.
Qed.

Lemma steady_BufferVisit (Q : option ast.Node -> Prop)
    (visit : option ast.Node -> walkngo.W (PS := PS) bool) (node : option ast.Node) :
  steady Q (visit node) -> steady Q (walkngo.BufferVisit_with visit node).
Proof.
  intros Hv. unfold walkngo.BufferVisit_with.
  apply steady_bind; [apply steady_Flush | intros _].
  apply steady_bind; [intros w _; eexists; eexists; split; reflexivity | intros prev].
  apply steady_bind; [intros w _; eexists; eexists; split; reflexivity | intros _].
  apply steady_bind; [exact Hv | intros _].
  apply steady_bind; [intros w _; eexists; eexists; split; reflexivity | intros _].
  apply steady_bind; [intros w _; eexists; eexists; split; reflexivity | intros b].
  apply steady_bind; [intros w _; eexists; eexists; split; reflexivity | intros f].
  apply steady_bind; [| intros _; apply steady_ret].
  destruct f; [intros w _; eexists; eexists; split; reflexivity | apply steady_ret].
Qed.

(** The frame of [Visit], around a body that is steady once the node is
    the parent. *)
Lemma steady_frame (Q : option ast.Node -> Prop) (A : Type) (x : option ast.Node)
    (body : option ast.Node -> walkngo.W (PS := PS) A) :
  (forall pparent, Q pparent -> steady (fun p => p = x) (body pparent)) ->
  steady Q
    (pparent <- walkngo.get_parent ;;
     walkngo.set_parent x ;;
     ret <- body pparent ;;
     walkngo.Flush ;;
     walkngo.set_parent pparent ;;
     walkngo.retW ret)%walk.
Proof.
  intros Hb w Hq.
  unfold walkngo.bindW at 1. cbn [walkngo.get_parent].
  unfold walkngo.bindW at 1. cbn [walkngo.set_parent].
  destruct (Hb (walkngo.parent w) Hq
              (walkngo.mkGoWalker (walkngo.p w) x (walkngo.buffer w) (walkngo.flush w)
                 (walkngo.stdout w)) eq_refl) as (a & w1 & E1 & _).
  unfold walkngo.bindW at 1. rewrite E1.
  unfold walkngo.bindW at 1. rewrite Flush_eq.
  cbn [walkngo.bindW walkngo.set_parent walkngo.retW].
  eexists. eexists. split; reflexivity.
Qed.

(** What the induction shows of a node: visited where a value
    specification may stand ([g]), and formatted as an expression. *)
Let good (n : ast.Node) : Prop :=
  forall g : bool, well_formed g n = true ->
    (forall Q : option ast.Node -> Prop,
       (g = true -> forall p, Q p -> is_GenDecl p = true) ->
       steady Q (walkngo.Visit GoSyntax n)) /\
    (forall Q : option ast.Node -> Prop, steady Q (walkngo.parseExpr GoSyntax n)).

Lemma steady_Visit_opt (Q : option ast.Node -> Prop) (o : option ast.Node) :
  option_all ast.Node good o ->
  holds_opt (well_formed false) o = true ->
  steady Q (walkngo.nilable (walkngo.Visit GoSyntax) false o).
Proof.
  intros H Hw. destruct H as [n Hn |]; cbn in *; [| apply steady_ret].
  apply (proj1 (Hn false Hw)). discriminate.
Qed.

Lemma steady_expr_opt (Q : option ast.Node -> Prop) (o : option ast.Node) :
  option_all ast.Node good o ->
  holds_opt (well_formed false) o = true ->
  steady Q (walkngo.nilable (walkngo.parseExpr GoSyntax) "" o).
Proof.
  intros H Hw. destruct H as [n Hn |]; cbn in *; [| apply steady_ret].
  apply (proj2 (Hn false Hw)).
Qed.

Lemma steady_forW_Visit (Q : option ast.Node -> Prop) (g : bool) (l : list ast.Node) :
  list_all ast.Node good l ->
  forallb (well_formed g) l = true ->
  (g = true -> forall p, Q p -> is_GenDecl p = true) ->
  steady Q (walkngo.forW (walkngo.Visit GoSyntax) l).
Proof.
  intros H. induction H as [| n Hn l Hl IH]; cbn [forallb walkngo.forW]; intros Hw Hg.
  - apply steady_ret.
  - apply andb_prop in Hw. destruct Hw as [H1 H2].
    apply steady_bind; [apply (proj1 (Hn g H1)); exact Hg | intros _; auto].
Qed.

Lemma steady_mapW_expr (Q : option ast.Node -> Prop) (l : list ast.Node) :
  list_all ast.Node good l ->
  forallb (well_formed false) l = true ->
  steady Q (walkngo.mapW (walkngo.parseExpr GoSyntax) l).
Proof.
  intros H. induction H as [| n Hn l Hl IH]; cbn [forallb walkngo.mapW]; intros Hw.
  - apply steady_ret.
  - apply andb_prop in Hw. destruct Hw as [H1 H2].
    apply steady_bind; [apply (proj2 (Hn false H1)) | intros y].
    apply steady_bind; [auto | intros ys; apply steady_ret].
Qed.

Lemma steady_parseExprList (Q : option ast.Node -> Prop) (l : list ast.Node) :
  list_all ast.Node good l ->
  forallb (well_formed false) l = true ->
  steady Q (walkngo.parseExprList_with (walkngo.parseExpr GoSyntax) l).
Proof.
  intros H Hw. unfold walkngo.parseExprList_with.
  apply steady_bind; [now apply steady_mapW_expr | intros; apply steady_ret].
Qed.

Lemma steady_parseFieldList (Q : option ast.Node -> Prop)
    (fl : option ast.FieldList) (sep : string) :
  option_all _
    (list_all _
       (prod_all (list string) (fun _ => unit) (option ast.Node)
          (option_all ast.Node good))) fl ->
  holds_fields (well_formed false) fl = true ->
  steady Q (walkngo.parseFieldList_with
              (walkngo.nilable (walkngo.parseExpr GoSyntax) "") fl sep).
Proof.
  intros H Hw. destruct H as [l Hl |]; cbn [walkngo.parseFieldList_with].
  - apply steady_bind; [| intros; apply steady_ret].
    cbn [holds_fields] in Hw. revert Hw.
    induction Hl as [| fd Hfd l Hl IH]; cbn [forallb walkngo.mapW]; intros Hw.
    + apply steady_ret.
    + apply andb_prop in Hw. destruct Hw as [H1 H2].
      apply steady_bind.
      * destruct Hfd as [names u t Ht]. cbn [fst snd] in *.
        destruct (0 <? walkngo.strlen (walkngo.parseNames names)).
        -- apply steady_bind; [| intros; apply steady_ret].
           now apply steady_expr_opt.
        -- now apply steady_expr_opt.
      * intros y. apply steady_bind; [auto | intros; apply steady_ret].
  - apply steady_ret.
Qed.

Ltac steady_split :=
  repeat match goal with
         | H : _ && _ = true |- _ => apply andb_prop in H; destruct H
         end.

Ltac steady_step :=
  lazymatch goal with
  | |- steady _ (walkngo.retW _) => apply steady_ret
  | |- steady _ walkngo.panicW =>
      exfalso;
      first [ match goal with
              | H : false = true |- _ => discriminate H
              end
            | match goal with
              | Hg : ?g = true -> forall p, ?Q p -> is_GenDecl p = true,
                H : ?g = true, Hp : ?Q _ |- _ => discriminate (Hg H _ Hp)
              end ]
  | |- steady _ (walkngo.call _) => apply steady_call
  | |- steady _ (walkngo.bindW _ _) => apply steady_bind; [| intros ?]
  | |- steady _ (walkngo.BufferVisit_with _ _) => apply steady_BufferVisit
  | |- steady _ (walkngo.nilable _ false _) =>
      first [eapply steady_Visit_opt; eassumption | cbn [walkngo.nilable]]
  | |- steady _ (walkngo.nilable _ _ _) => eapply steady_expr_opt; eassumption
  | |- steady _ (walkngo.forW _ _) =>
      eapply steady_forW_Visit;
      [eassumption | eassumption | first [discriminate | intros _ ? ->; reflexivity]]
  | |- steady _ (walkngo.parseExprList_with _ _) => eapply steady_parseExprList; eassumption
  | |- steady _ (walkngo.parseFieldList_with _ _ _) =>
      eapply steady_parseFieldList; eassumption
  | |- steady _ (walkngo.exprOr_with _ _ _) => unfold walkngo.exprOr_with
  | H : option_all _ _ (Some ?c) |- steady _ (_ ?c) =>
      inversion H; subst; clear H; cbn [holds_opt] in *
  | H : good ?c, W : well_formed false ?c = true |- steady _ (_ ?c) =>
      first [apply (proj1 (H false W)); discriminate | apply (proj2 (H false W))]
  | |- steady _ (match ?x with _ => _ end) => destruct x
  end.

Lemma Visit_steady (n : ast.Node) : good n.
Proof.
  induction n; intros g Hw; cbn [well_formed] in Hw; steady_split;
    (split; intros Q; [intros Hg; cbn [walkngo.Visit]; apply steady_frame; intros pparent Hp
                      | cbn [walkngo.parseExpr]]);
    repeat steady_step.
Qed.

End Total.

(** X17.  With a printer that never panics, the walker traverses every
    well-formed tree without a panic: a tree in which, at the nodes the
    walker descends to, the value specifications are specifications of
    general declarations and the function declarations have bodies
    (the node itself may be a value specification if the walker's
    parent is a general declaration). *)
Theorem Visit_total :
  forall (PS : Type) (Pr : Printer.Printer PS) (GoSyntax : ast.Node -> string)
         (n : ast.Node) (w : walkngo.GoWalker (PS := PS)),
    total_printer Pr ->
    well_formed (is_GenDecl (walkngo.parent w)) n = true ->
    exists (r : bool) (w' : walkngo.GoWalker (PS := PS)),
      walkngo.Visit GoSyntax n w = Some (r, w').
Proof.
  intros PS Pr GoSyntax n w Ht Hw.
  destruct (proj1 (Visit_steady GoSyntax Ht n _ Hw) (fun p => p = walkngo.parent w))
    with (w := w) as (r & w' & E & _).
  - intros Hg p ->. exact Hg.
  - reflexivity.
  - exists r, w'. exact E.
Qed.

Lemma Visit_total_witness :
  exists (r : bool) (w' : walkngo.GoWalker (PS := list Printer.Method)),
    walkngo.Visit (Pr := Recorder) dump_kind small_file (walkngo.NewWalker []) = Some (r, w').
Proof.
  apply (Visit_total _ Recorder dump_kind small_file (walkngo.NewWalker [])).
  - intros m s. discriminate.
  - reflexivity.
Defined.

(** ** The C printer: formatters *)

Lemma count_byte_app (c : ascii) (a b : string) :
  count_byte c (a ++ b) = count_byte c a + count_byte c b.
Proof. induction a as [| d a IH]; cbn [append count_byte]; [reflexivity | lia]. Qed.

Lemma count_byte_nonneg (c : ascii) (s : string) : 0 <= count_byte c s.
Proof. induction s as [| d s IH]; cbn [count_byte]; [lia |]. destruct (Ascii.eqb d c); lia. Qed.

Lemma substring_app_l (b x : string) : String.substring 0 (String.length b) (b ++ x) = b.
Proof.
  induction b as [| c b IH]; cbn.
  - destruct x; reflexivity.
  - now rewrite IH.
Qed.

(** Replacing every [c] by a text without [c] leaves no [c]. *)
Lemma Replace_byte_gone (c : ascii) (new s : string) :
  count_byte c new = 0 ->
  count_byte c (strings.Replace s (String c "") new) = 0.
Proof.
  intros Hn. unfold strings.Replace.
  induction s as [| d s IH]; cbn [strings.Replace_skip]; [reflexivity |].
  cbn [String.prefix String.length Nat.sub].
  destruct (ascii_dec c d) as [-> | Hne].
  - rewrite prefix_nil, count_byte_app, Hn, IH. reflexivity.
  - cbn [count_byte]. rewrite IH.
    destruct (Ascii.eqb_spec d c) as [E | _]; [congruence | reflexivity].
Qed.

(** Replacing a byte other than [c] by a text without [c] adds no [c]. *)
Lemma Replace_byte_kept (c d : ascii) (new s : string) :
  count_byte c new = 0 ->
  count_byte c s = 0 ->
  count_byte c (strings.Replace s (String d "") new) = 0.
Proof.
  intros Hn. unfold strings.Replace.
  induction s as [| e s IH]; cbn [strings.Replace_skip]; [reflexivity |].
  cbn [String.prefix String.length Nat.sub count_byte]. intros Hs.
  pose proof (count_byte_nonneg c s) as Hp.
  destruct (Ascii.eqb_spec e c) as [-> | Hne]; [lia |].
  destruct (ascii_dec d e) as [-> | Hde].
  - rewrite prefix_nil, count_byte_app, Hn, IH by lia. reflexivity.
  - cbn [count_byte]. rewrite IH by lia.
    destruct (Ascii.eqb_spec e c) as [E | _]; [congruence | reflexivity].
Qed.

(** X18.  [FormatLiteral] turns a raw string literal into a literal in
    double quotes that holds no line feed, so that it stays on one
    line; a literal that does not start with a back quote is returned as
    it is; and the back quote alone makes it panic. *)
Theorem FormatLiteral_one_line :
  (forall body : string,
     exists out : string,
       cprinter.FormatLiteral ("`" ++ body ++ "`") = Some (cprinter.quoted out)
       /\ count_byte "010" (cprinter.quoted out) = 0)
  /\ (forall lit : string,
        strings.HasPrefix lit "`" = false -> cprinter.FormatLiteral lit = Some lit)
  /\ cprinter.FormatLiteral "`" = None.
Proof.
  split; [| split].
  - intros body.
    unfold cprinter.FormatLiteral. cbn [append].
    change (Ascii.eqb "`" "`") with true. cbv iota.
    assert (Hlen : (cprinter.strlen (String "`" (body ++ "`")) - 1 <? 1) = false).
    { apply Z.ltb_ge. unfold cprinter.strlen. cbn [String.length].
      rewrite length_app_s. cbn [String.length]. lia. }
    rewrite Hlen.
    assert (Hsub : String.substring 1 (String.length (String "`" (body ++ "`")) - 2)
                     (String "`" (body ++ "`")) = body).
    { cbn [String.length]. rewrite length_app_s. cbn [String.length].
      replace (S (String.length body + 1) - 2)%nat with (String.length body) by lia.
      cbn [String.substring]. apply substring_app_l. }
    rewrite Hsub. eexists. split; [reflexivity |].
    unfold cprinter.quoted. cbn [count_byte].
    rewrite count_byte_app. cbn [count_byte].
    unfold NL. rewrite Replace_byte_gone by reflexivity. reflexivity.
  - intros lit H. unfold cprinter.FormatLiteral.
    destruct lit as [| c lit]; [reflexivity |].
    unfold strings.HasPrefix in H. cbn [String.prefix] in H.
    destruct (Ascii.eqb_spec c "`") as [-> | Hne]; [| reflexivity].
    destruct (ascii_dec "`" "`") as [_ | N]; [| now elim N].
    destruct lit; discriminate H.
  - reflexivity.
Qed.

Lemma prefix_before_paren (pre fun_ x : string) :
  strings.in_cutset "(" pre = false ->
  String.prefix pre (fun_ ++ String "(" x) = true ->
  String.prefix pre fun_ = true.
Proof.
  revert fun_. induction pre as [| a pre IH]; intros fun_ Hp H; [apply prefix_nil |].
  cbn [strings.in_cutset] in Hp.
  destruct (Ascii.eqb_spec "("%char a) as [E | Hne]; [discriminate |].
  destruct fun_ as [| c f]; cbn [append String.prefix] in *.
  - destruct (ascii_dec a "(") as [E | _]; [congruence | discriminate].
  - destruct (ascii_dec a c); [auto | discriminate].
Qed.

(** X19.  No call [FormatCall] renders starts with ["time::"]: a function
    of the Go package [time] is renamed, so that it cannot collide with
    the [time] of C. *)
Theorem FormatCall_renames_time :
  forall (fun_ args : string) (isFuncLit : bool),
    strings.HasPrefix (cprinter.FormatCall fun_ args isFuncLit) "time::" = false.
Proof.
  intros fun_ args isFuncLit. unfold cprinter.FormatCall.
  destruct isFuncLit; [reflexivity |].
  destruct (strings.HasPrefix fun_ "time::") eqn:E; [reflexivity |].
  unfold strings.HasPrefix in *.
  destruct (String.prefix "time::" (fun_ ++ "(" ++ args ++ ")")) eqn:F; [| reflexivity].
  apply prefix_before_paren in F; [congruence | reflexivity].
Qed.

(** [IndexAny] splits a string at the first byte of the set. *)
Lemma IndexAny_from_split (chars s : string) : forall i : Z,
  0 <= i ->
  let j := cprinter.IndexAny_from s chars i in
  (j = -1 /\ forall k c, String.get k s = Some c -> strings.in_cutset c chars = false)
  \/ (i <= j /\
      exists (c : ascii) (r : string),
        s = String.substring 0 (Z.to_nat (j - i)) s ++ String c r
        /\ strings.in_cutset c chars = true
        /\ forall k d, String.get k (String.substring 0 (Z.to_nat (j - i)) s) = Some d ->
                       strings.in_cutset d chars = false).
Proof.
  induction s as [| a s IH]; intros i Hi; cbn [cprinter.IndexAny_from]; cbn zeta.
  - left. split; [reflexivity |]. intros k c H. discriminate H.
  - destruct (strings.in_cutset a chars) eqn:Ea.
    + right. split; [lia |]. rewrite Z.sub_diag. exists a, s. cbn.
      repeat split; auto. intros k d H. discriminate H.
    + destruct (IH (i + 1)) as [[H1 H2] | [H1 (c & r & Hs & Hin & Hbefore)]]; [lia | |].
      * left. split; [exact H1 |]. intros [| k] c H; cbn in H.
        -- now injection H as <-.
        -- eauto.
      * right. split; [lia |]. exists c, r.
        replace (Z.to_nat (cprinter.IndexAny_from s chars (i + 1) - i))
          with (S (Z.to_nat (cprinter.IndexAny_from s chars (i + 1) - (i + 1)))) by lia.
        cbn [String.substring append]. repeat split; auto.
        -- now rewrite <- Hs.
        -- intros [| k] d H; cbn in H.
           ++ now injection H as <-.
           ++ eauto.
Qed.

(** X20.  [getIdentifier] returns the longest prefix of its argument
    that holds neither ["<"] nor ["["]: the rest of the argument is
    empty or starts with one of the two. *)
Theorem getIdentifier_prefix :
  forall s : string,
    exists rest : string,
      s = cprinter.getIdentifier s ++ rest
      /\ (forall k c, String.get k (cprinter.getIdentifier s) = Some c ->
                      strings.in_cutset c "<[" = false)
      /\ (rest = "" \/
          exists (c : ascii) (r : string),
            rest = String c r /\ strings.in_cutset c "<[" = true).
Proof.
  intros s. unfold cprinter.getIdentifier.
  destruct (IndexAny_from_split "<[" s 0 (Z.le_refl 0))
    as [[H1 H2] | [H1 (c & r & Hs & Hin & Hbefore)]].
  - rewrite H1. cbn [Z.ltb Z.compare]. exists "". rewrite append_nil_r. auto.
  - destruct (Z.ltb_spec (cprinter.IndexAny_from s "<[" 0) 0) as [Hn | _]; [lia |].
    rewrite Z.sub_0_r in Hs, Hbefore. unfold strings.slice_to.
    exists (String c r). repeat split; eauto.
Qed.

(** ** The C printer: the verb of a function type *)

Lemma Sprintf_s_plain_prefix (a f : string) (args : list string) :
  count_byte "%" a = 0 ->
  Sprintf_s (a ++ f) args = a ++ Sprintf_s f args.
Proof.
  induction a as [| c a IH]; cbn [append count_byte]; intros H; [reflexivity |].
  pose proof (count_byte_nonneg "%" a) as Hp.
  cbn [Sprintf_s].
  destruct (Ascii.eqb c "%"); [lia |].
  now rewrite IH by lia.
Qed.

Lemma Sprintf_s_plain (b : string) : count_byte "%" b = 0 -> Sprintf_s b [] = b.
Proof.
  intros H. rewrite <- (append_nil_r b) at 1.
  rewrite Sprintf_s_plain_prefix by exact H. cbn. apply append_nil_r.
Qed.

Lemma Index_from_percent (a x : string) : forall i : Z,
  0 <= i -> i <= strings.Index_from (a ++ String "%" x) "%" i.
Proof.
  induction a as [| c a IH]; intros i Hi; cbn [append strings.Index_from String.prefix].
  - destruct (ascii_dec "%" "%") as [_ | N]; [| now elim N].
    rewrite prefix_nil. lia.
  - destruct (ascii_dec "%" c) as [_ | _].
    + rewrite prefix_nil. lia.
    + specialize (IH (i + 1)). lia.
Qed.

Lemma header_results_plain (results : string) :
  count_byte "%" results = 0 -> count_byte "%" (header_results results) = 0.
Proof.
  intros H. unfold header_results.
  destruct (cprinter.strlen results =? 0); [reflexivity |].
  destruct (cprinter.IsMultiValue results); [| exact H].
  rewrite !count_byte_app, H. reflexivity.
Qed.

(** X21.  The text [FormatFuncType] renders holds one verb, where the
    name of the function goes.  [PrintType] therefore takes it for a
    function type and puts the type's name, in parentheses, in the
    verb's place; [FormatFuncLit] leaves the place empty and appends
    the body.  (For parameters and results that hold no ["%"], and at
    a level [PrintType] can indent its line at: from 0 up to, and
    without, 2^62.) *)
Theorem function_type_verb :
  forall (SEMI name params results body : string) (withFunc : bool)
         (l : Z) (s : bool) (cs : list cprinter.CContext),
    0 <= l < 2 ^ 62 ->
    count_byte "%" params = 0 ->
    count_byte "%" results = 0 ->
    let ftype := cprinter.FormatFuncType params results withFunc in
    cprinter.PrintType SEMI Sprintf_s name ftype (cprinter.mkCPrinter l s cs) =
      Some (tt, cprinter.mkCPrinter l false cs,
            indent_text l s
              ++ ("typedef " ++ header_results results ++ " (" ++ name ++ ")(" ++ params ++ ")")
              ++ SEMI)
    /\ cprinter.FormatFuncLit Sprintf_s ftype body =
         header_results results ++ " (" ++ params ++ ")" ++ body.
Proof.
  intros SEMI name params results body withFunc l s cs Hl Hp Hr. cbn zeta.
  assert (Hf : cprinter.FormatFuncType params results withFunc =
               header_results results ++ " " ++ String "%" ("s(" ++ params ++ ")"))
    by reflexivity.
  pose proof (header_results_plain results Hr) as Hh.
  split.
  - unfold cprinter.PrintType.
    assert (Hc : strings.Contains (cprinter.FormatFuncType params results withFunc) "%" = true).
    { rewrite Hf. unfold strings.Contains, strings.Index.
      rewrite <- append_assoc_s. apply Z.leb_le. apply Index_from_percent. lia. }
    rewrite Hc. rewrite PrintLevel_text by exact Hl.
    rewrite Hf. rewrite Sprintf_s_plain_prefix by exact Hh.
    cbn [append Sprintf_s Ascii.eqb Bool.eqb].
    rewrite Sprintf_s_plain by (rewrite count_byte_app, Hp; reflexivity).
    cbn [strings.Join String.concat append].
    rewrite !append_assoc_s. reflexivity.
  - unfold cprinter.FormatFuncLit. rewrite Hf.
    rewrite append_assoc_s. rewrite Sprintf_s_plain_prefix by exact Hh.
    cbn [append Sprintf_s Ascii.eqb Bool.eqb].
    rewrite append_assoc_s.
    rewrite Sprintf_s_plain_prefix by exact Hp.
    cbn [append Sprintf_s Ascii.eqb Bool.eqb].
    rewrite append_nil_r. reflexivity.
Qed.

Lemma function_type_verb_witness :
  let ftype := cprinter.FormatFuncType "int x" "error" true in
  cprinter.PrintType ex_SEMI Sprintf_s "Handler" ftype (cprinter.mkCPrinter 0 false []) =
    Some (tt, cprinter.mkCPrinter 0 false [],
          indent_text 0 false
            ++ ("typedef " ++ header_results "error" ++ " (" ++ "Handler" ++ ")(" ++ "int x" ++ ")")
            ++ ex_SEMI)
  /\ cprinter.FormatFuncLit Sprintf_s ftype "{ }" =
       header_results "error" ++ " (" ++ "int x" ++ ")" ++ "{ }".
Proof.
  apply (function_type_verb ex_SEMI "Handler" "int x" "error" "{ }" true 0 false []);
    [lia | reflexivity | reflexivity].
Defined.

(** ** The walker: what a visit returns *)

Section Results.

Context {PS : Type} {Pr : Printer.Printer PS}.
Variable GoSyntax : ast.Node -> string.

Lemma results_in_ret (A : Type) (P : A -> Prop) (a : A) :
  P a -> results_in (PS := PS) P (walkngo.retW a).
Proof. intros H w x w' [= <- _]. exact H. Qed.

Lemma results_in_panic (A : Type) (P : A -> Prop) :
  results_in (PS := PS) P (@walkngo.panicW PS A).
Proof. intros w x w' E. discriminate E. Qed.

Lemma results_in_bind (A B : Type) (P : B -> Prop)
    (m : walkngo.W (PS := PS) A) (f : A -> walkngo.W B) :
  (forall a, results_in P (f a)) -> results_in P (walkngo.bindW m f).
Proof.
  intros Hf w b w' E. unfold walkngo.bindW in E.
  destruct (m w) as [[a w1] |]; [| discriminate]. eapply Hf; eauto.
Qed.

Lemma results_in_frame (A : Type) (P : A -> Prop) (x : option ast.Node)
    (body : option ast.Node -> walkngo.W (PS := PS) A) :
  (forall pparent, results_in P (body pparent)) ->
  results_in P
    (pparent <- walkngo.get_parent ;;
     walkngo.set_parent x ;;
     ret <- body pparent ;;
     walkngo.Flush ;;
     walkngo.set_parent pparent ;;
     walkngo.retW ret)%walk.
Proof.
  intros Hb.
  apply results_in_bind. intros pparent.
  apply results_in_bind. intros _.
  intros w a w' E. unfold walkngo.bindW at 1 in E.
  destruct (body pparent w) as [[r w1] |] eqn:Eb; [| discriminate].
  unfold walkngo.bindW at 1 in E. rewrite Flush_eq in E.
  cbn [walkngo.bindW walkngo.set_parent walkngo.retW] in E.
  injection E as <- _. eapply Hb; eauto.
Qed.

Ltac results_step :=
  lazymatch goal with
  | |- results_in _ (walkngo.retW _) => apply results_in_ret; reflexivity
  | |- results_in _ walkngo.panicW => apply results_in_panic
  | |- results_in _ (walkngo.bindW _ _) => apply results_in_bind; intros ?
  | |- results_in _ (match ?x with _ => _ end) => destruct x
  end.

Lemma Visit_results_in (n : ast.Node) :
  results_in (fun r => r = negb (Visit_handles n)) (walkngo.Visit GoSyntax n).
Proof.
  destruct n; cbn [walkngo.Visit Visit_handles negb];
    apply results_in_frame; intros pparent; repeat results_step.
Qed.

End Results.

(** X22.  A visit returns the visitor itself exactly for the kinds of
    node it has no case for, and [nil] for every kind it handles: the
    walker descends into the children of the nodes it handles by its own
    calls, and leaves no subtree to [ast.Walk]. *)
Theorem Visit_result :
  forall (PS : Type) (Pr : Printer.Printer PS) (GoSyntax : ast.Node -> string)
         (n : ast.Node) (w w' : walkngo.GoWalker (PS := PS)) (r : bool),
    walkngo.Visit GoSyntax n w = Some (r, w') ->
    r = negb (Visit_handles n).
Proof.
  intros PS Pr GoSyntax n w w' r E.
  exact (Visit_results_in GoSyntax n w r w' E).
Qed.

Lemma Visit_result_witness :
  let w' := walkngo.mkGoWalker 0 (Some ast.BadDecl) "" true
              ("pending{" ++ NL ++ "  ;" ++ NL ++ "}") in
  walkngo.Visit (Pr := Outline) dump_kind (ast.BlockStmt [ast.EmptyStmt]) pending_walker
    = Some (false, w')
  /\ false = negb (Visit_handles (ast.BlockStmt [ast.EmptyStmt])).
Proof.
  cbv zeta.
  assert (E : walkngo.Visit (Pr := Outline) dump_kind (ast.BlockStmt [ast.EmptyStmt])
                pending_walker
              = Some (false,
                      walkngo.mkGoWalker 0 (Some ast.BadDecl) "" true
                        ("pending{" ++ NL ++ "  ;" ++ NL ++ "}")))
    by (vm_compute; reflexivity).
  split; [exact E |].
  exact (Visit_result _ Outline dump_kind _ _ _ _ E).
Defined.

(** ** The walker: the text of a capture *)

Lemma prefix_split (a s : string) :
  String.prefix a s = true -> exists r : string, s = a ++ r.
Proof.
  revert s. induction a as [| c a IH]; intros s H.
  - now exists s.
  - destruct s as [| d s]; cbn [String.prefix] in H; [discriminate |].
    destruct (ascii_dec c d) as [-> | _]; [| discriminate].
    destruct (IH s H) as [r ->]. now exists r.
Qed.

Lemma prefix_app_r (a r : string) : String.prefix a (a ++ r) = true.
Proof.
  induction a as [| c a IH]; cbn [append String.prefix]; [apply prefix_nil |].
  destruct (ascii_dec c c) as [_ | N]; [exact IH | now elim N].
Qed.

Lemma prefix_ext (x u v : string) :
  String.prefix x u = true -> String.prefix x (u ++ v) = true.
Proof.
  intros H. destruct (prefix_split x u H) as [r ->].
  rewrite append_assoc_s. apply prefix_app_r.
Qed.

Lemma white_space_nonempty (sp : string) :
  In sp strings.white_space -> exists (a : ascii) (sp' : string), sp = String a sp'.
Proof.
  intros H.
  assert (F : Forall (fun x : string => exists (a : ascii) (x' : string), x = String a x')
                strings.white_space)
    by (repeat constructor; eexists; eexists; reflexivity).
  rewrite Forall_forall in F. now apply F.
Qed.

(** The first white space code point a text starts with is also the
    first one a shorter text starts with, if it starts with it. *)
Lemma find_space_shorter (l : list string) (sp u v : string) :
  find (fun x => String.prefix x (u ++ v)) l = Some sp ->
  String.prefix sp u = true ->
  find (fun x => String.prefix x u) l = Some sp.
Proof.
  induction l as [| x l IH]; cbn [find]; [discriminate |].
  intros E Hp.
  destruct (String.prefix x (u ++ v)) eqn:Ex.
  - injection E as ->. now rewrite Hp.
  - destruct (String.prefix x u) eqn:Eu.
    + rewrite (prefix_ext x u v Eu) in Ex. discriminate.
    + now apply IH.
Qed.

Lemma TrimLeftSpace_skip_app (a b : string) :
  strings.TrimLeftSpace_skip (a ++ b) (String.length a) = strings.TrimLeftSpace b.
Proof.
  induction a as [| c a IH]; cbn [append String.length].
  - reflexivity.
  - destruct a as [| d a]; exact IH.
Qed.

Lemma TrimLeftSpace_cons (c : ascii) (s : string) :
  strings.TrimLeftSpace (String c s) =
  match strings.space_width (String c s) with
  | O => String c s
  | S k => strings.TrimLeftSpace_skip s k
  end.
Proof. reflexivity. Qed.

(** What the trim drops on the left is white space, and what is left
    starts with none. *)
Lemma TrimLeftSpace_split : forall (n : nat) (s : string),
  (String.length s <= n)%nat ->
  exists pre : string, s = pre ++ strings.TrimLeftSpace s /\ strings.TrimLeftSpace pre = "".
Proof.
  induction n as [| n IH]; intros s Hn.
  - destruct s; [| cbn in Hn; lia]. now exists "".
  - destruct s as [| c s]; [now exists "" |].
    rewrite TrimLeftSpace_cons. unfold strings.space_width.
    destruct (find (fun sp => String.prefix sp (String c s)) strings.white_space)
      as [sp |] eqn:Ef; [| now exists ""].
    destruct (find_some _ _ Ef) as [Hin Hp].
    destruct (white_space_nonempty sp Hin) as [a [sp' ->]].
    cbn [String.length].
    cbn [String.prefix] in Hp.
    destruct (ascii_dec a c) as [-> | _]; [| discriminate].
    destruct (prefix_split sp' s Hp) as [r ->].
    rewrite TrimLeftSpace_skip_app.
    destruct (IH r) as [pre [E B]].
    { cbn [String.length] in Hn. rewrite length_app_s in Hn. lia. }
    exists (String c sp' ++ pre). split.
    + rewrite append_assoc_s. cbn [append]. f_equal. f_equal. exact E.
    + cbn [append]. rewrite TrimLeftSpace_cons. unfold strings.space_width.
      rewrite (find_space_shorter strings.white_space (String c sp')
                 (String c (sp' ++ pre)) (strings.TrimLeftSpace r)).
      * cbn [String.length]. rewrite TrimLeftSpace_skip_app. exact B.
      * cbn [append]. rewrite append_assoc_s. rewrite <- E. exact Ef.
      * apply (prefix_app_r (String c sp') pre).
Qed.

Lemma TrimLeftSpace_skip_start (s : string) : forall k : nat,
  strings.space_width (strings.TrimLeftSpace_skip s k) = O.
Proof.
  induction s as [| c s IH]; intros k; cbn [strings.TrimLeftSpace_skip].
  - reflexivity.
  - destruct k as [| k]; [| apply IH].
    destruct (strings.space_width (String c s)) eqn:E; [exact E | apply IH].
Qed.

Lemma space_width_none (s sp : string) :
  strings.space_width s = O -> In sp strings.white_space -> String.prefix sp s = false.
Proof.
  unfold strings.space_width. intros H Hin.
  destruct (find (fun x => String.prefix x s) strings.white_space) as [x |] eqn:Ef.
  - destruct (find_some _ _ Ef) as [Hx _].
    destruct (white_space_nonempty x Hx) as [a [x' ->]]. discriminate H.
  - exact (find_none _ _ Ef sp Hin).
Qed.

(** What the trim drops on the right is white space, and what is left
    ends with none. *)
Lemma TrimRightSpace_split (s : string) :
  exists post : string,
    s = strings.TrimRightSpace s ++ post /\ strings.TrimRightSpace post = "".
Proof.
  induction s as [| c s [post [E B]]]; cbn [strings.TrimRightSpace].
  - now exists "".
  - cbv zeta.
    destruct (strings.IsSpace (String c (strings.TrimRightSpace s))) eqn:Es.
    + exists (String c s). split; [reflexivity |].
      cbn [strings.TrimRightSpace]. cbv zeta. now rewrite Es.
    + exists post. split; [| exact B]. cbn [append]. f_equal. exact E.
Qed.

Lemma HasSuffix_cons (c : ascii) (t sp : string) :
  strings.HasSuffix (String c t) sp = true ->
  sp = String c t \/ strings.HasSuffix t sp = true.
Proof.
  unfold strings.HasSuffix. cbn [String.length].
  destruct (Nat.leb_spec (String.length sp) (S (String.length t))) as [H | H];
    [| discriminate].
  intros E. apply String.eqb_eq in E.
  destruct (Nat.eq_dec (String.length sp) (S (String.length t))) as [Hm | Hm].
  - left. rewrite Hm, Nat.sub_diag in E.
    rewrite <- E. apply (substring_full (String c t)).
  - right.
    destruct (Nat.leb_spec (String.length sp) (String.length t)) as [H' | H']; [| lia].
    apply String.eqb_eq.
    replace (S (String.length t) - String.length sp)%nat
      with (S (String.length t - String.length sp)) in E by lia.
    exact E.
Qed.

Lemma TrimRightSpace_end (s sp : string) :
  In sp strings.white_space -> strings.HasSuffix (strings.TrimRightSpace s) sp = false.
Proof.
  intros Hin. induction s as [| c s IH]; cbn [strings.TrimRightSpace].
  - destruct (white_space_nonempty sp Hin) as [a [sp' ->]]. reflexivity.
  - cbv zeta.
    destruct (strings.IsSpace (String c (strings.TrimRightSpace s))) eqn:Es.
    + destruct (white_space_nonempty sp Hin) as [a [sp' ->]]. reflexivity.
    + destruct (strings.HasSuffix (String c (strings.TrimRightSpace s)) sp) eqn:Eh;
        [| reflexivity].
      destruct (HasSuffix_cons _ _ _ Eh) as [-> | H]; [| congruence].
      unfold strings.IsSpace in Es.
      assert (T : existsb (String.eqb (String c (strings.TrimRightSpace s)))
                    strings.white_space = true).
      { apply existsb_exists. eexists. split; [exact Hin | apply String.eqb_refl]. }
      congruence.
Qed.

(** The walker a capture renders into: in live mode what was pending
    has been flushed and the buffer is empty; with flushing already off
    it is the walker as it is. *)
Lemma BufferVisit_with_eq (PS : Type) (Pr : Printer.Printer PS)
    (visit : option ast.Node -> walkngo.W bool) (node : option ast.Node)
    (w : walkngo.GoWalker (PS := PS)) :
  walkngo.BufferVisit_with visit node w =
    match visit node (if walkngo.flush w then isolated w else w) with
    | Some (_, w2) =>
        Some (strings.TrimSpace (walkngo.buffer w2),
              walkngo.mkGoWalker (walkngo.p w2) (walkngo.parent w2)
                (if walkngo.flush w then "" else walkngo.buffer w2)
                (walkngo.flush w) (walkngo.stdout w2))
    | None => None
    end.
Proof.
  destruct (walkngo.flush w) eqn:F.
  - now apply BufferVisit_with_live.
  - now apply BufferVisit_with_suspended.
Qed.

(** X23.  The text a capture returns is the text that is in the buffer
    when the traversal of the subtree is over, less the white space at
    its two ends (as Unicode defines it): the buffer is some white
    space, the text, and some white space, and the text neither starts
    nor ends with a white space code point. *)
Theorem capture_trimmed :
  forall (PS : Type) (Pr : Printer.Printer PS) (GoSyntax : ast.Node -> string)
         (node : option ast.Node) (w w' : walkngo.GoWalker (PS := PS)) (text : string),
    walkngo.BufferVisit GoSyntax node w = Some (text, w') ->
    (forall sp : string,
        In sp strings.white_space ->
        String.prefix sp text = false /\ strings.HasSuffix text sp = false)
    /\ exists (r : bool) (w2 : walkngo.GoWalker (PS := PS)) (before after : string),
         walkngo.nilable (walkngo.Visit GoSyntax) false node
           (if walkngo.flush w then isolated w else w) = Some (r, w2)
         /\ walkngo.buffer w2 = before ++ text ++ after
         /\ strings.TrimLeftSpace before = ""
         /\ strings.TrimRightSpace after = "".
Proof.
  intros PS Pr GoSyntax node w w' text E.
  unfold walkngo.BufferVisit in E. rewrite (BufferVisit_with_eq PS Pr) in E.
  destruct (walkngo.nilable (walkngo.Visit GoSyntax) false node
              (if walkngo.flush w then isolated w else w)) as [[r w2] |] eqn:Ev;
    [| discriminate].
  injection E as <- _.
  unfold strings.TrimSpace.
  destruct (TrimLeftSpace_split _ (walkngo.buffer w2) (Nat.le_refl _)) as [before [Eb Bb]].
  destruct (TrimRightSpace_split (strings.TrimLeftSpace (walkngo.buffer w2)))
    as [after [Ea Ba]].
  split.
  - intros sp Hin. split; [| now apply TrimRightSpace_end].
    destruct (String.prefix sp
                (strings.TrimRightSpace (strings.TrimLeftSpace (walkngo.buffer w2))))
      eqn:Ep; [| reflexivity].
    apply (prefix_ext _ _ after) in Ep. rewrite <- Ea in Ep.
    pose proof (space_width_none _ sp
                  (TrimLeftSpace_skip_start (walkngo.buffer w2) 0) Hin) as Hn.
    unfold strings.TrimLeftSpace in Ep. congruence.
  - exists r, w2, before, after.
    split; [reflexivity |]. split; [| split; assumption].
    rewrite <- Ea. exact Eb.
Qed.

Lemma capture_trimmed_witness :
  let w := walkngo.mkGoWalker 0 (Some ast.BadDecl) "pending" true "" in
  let w' := walkngo.mkGoWalker 0 (Some ast.BadDecl) "" true "pending" in
  let node := Some (ast.IncDecStmt (Some (ast.Ident "i")) "++") in
  walkngo.BufferVisit (Pr := Outline) dump_kind node w = Some ("i++", w')
  /\ (forall sp : string,
        In sp strings.white_space ->
        String.prefix sp "i++" = false /\ strings.HasSuffix "i++" sp = false)
  /\ exists (r : bool) (w2 : walkngo.GoWalker (PS := Z)) (before after : string),
       walkngo.nilable (walkngo.Visit (Pr := Outline) dump_kind) false node
         (if walkngo.flush w then isolated w else w) = Some (r, w2)
       /\ walkngo.buffer w2 = before ++ "i++" ++ after
       /\ strings.TrimLeftSpace before = ""
       /\ strings.TrimRightSpace after = "".
Proof.
  cbv zeta.
  assert (E : walkngo.BufferVisit (Pr := Outline) dump_kind
                (Some (ast.IncDecStmt (Some (ast.Ident "i")) "++"))
                (walkngo.mkGoWalker 0 (Some ast.BadDecl) "pending" true "")
              = Some ("i++", walkngo.mkGoWalker 0 (Some ast.BadDecl) "" true "pending"))
    by (vm_compute; reflexivity).
  split; [exact E |].
  exact (capture_trimmed Z Outline dump_kind
           (Some (ast.IncDecStmt (Some (ast.Ident "i")) "++"))
           (walkngo.mkGoWalker 0 (Some ast.BadDecl) "pending" true "")
           (walkngo.mkGoWalker 0 (Some ast.BadDecl) "" true "pending") "i++" E).
Defined.

(** [TrimSpace] on text that holds white space outside ASCII: a no-break
    space (U+00A0), a next line (U+0085) and an em space (U+2003) are
    trimmed like a blank; a byte of such a code point on its own is
    kept. *)
Example TrimSpace_unicode :
  strings.TrimSpace (strings.bytes [194; 160; 120; 226; 128; 131; 32; 194; 133]%nat) = "x"
  /\ strings.TrimSpace (strings.bytes [160; 120; 128]%nat) = strings.bytes [160; 120; 128]%nat
  /\ strings.TrimSpace (strings.bytes [9; 10; 11; 12; 13; 32]%nat) = "".
Proof. repeat split. Qed.

(** ** The C printer: pointer declarators *)

Lemma LastIndex_from_absent (c : ascii) (s : string) : forall i : Z,
  count_byte c s = 0 -> strings.LastIndex_from s (String c "") i = -1.
Proof.
  induction s as [| d s IH]; intros i H; cbn [strings.LastIndex_from String.prefix].
  - reflexivity.
  - cbn [count_byte] in H. pose proof (count_byte_nonneg c s) as Hp.
    destruct (Ascii.eqb_spec d c) as [-> | Hne]; [lia |].
    rewrite IH by lia. cbn [Z.leb Z.compare].
    destruct (ascii_dec c d) as [E | _]; [congruence | reflexivity].
Qed.

Lemma LastIndex_from_stars (c : ascii) (base : string) (n : nat) : forall i : Z,
  0 <= i ->
  count_byte c base = 0 ->
  strings.LastIndex_from (strings.repeat_nat (String c "") (S n) ++ base) (String c "") i
    = i + Z.of_nat n.
Proof.
  induction n as [| n IH]; intros i Hi Hb.
  - cbn [strings.repeat_nat append strings.LastIndex_from String.prefix].
    rewrite LastIndex_from_absent by exact Hb. cbn [Z.leb Z.compare].
    destruct (ascii_dec c c) as [_ | N]; [| now elim N].
    rewrite prefix_nil. cbn. lia.
  - change (strings.repeat_nat (String c "") (S (S n)) ++ base)
      with (String c (strings.repeat_nat (String c "") (S n) ++ base)).
    cbn [strings.LastIndex_from]. rewrite IH by (auto; lia).
    destruct (Z.leb_spec 0 (i + 1 + Z.of_nat n)) as [_ | H]; lia.
Qed.

Lemma repeat_nat_length (c : ascii) (n : nat) :
  String.length (strings.repeat_nat (String c "") n) = n.
Proof. induction n; cbn; congruence. Qed.

Lemma substring_app_r (a b : string) :
  String.substring (String.length a) (String.length b) (a ++ b) = b.
Proof. induction a as [| c a IH]; cbn; [apply substring_full | exact IH]. Qed.

(** X24.  [FormatPair] moves the stars of a pointer type behind the
    type: for a parameter of type [*...*T] (the base type [T] holding no
    star and no verb, and not ending an index) it renders [T*...*],
    a space and the name. *)
Theorem pointer_declarator :
  forall (SEMI COMMA : string) (Sprintf : string -> list string -> string)
         (name base : string) (n : nat) (p : cprinter.CPrinter),
    let stars := strings.repeat_nat "*" (S n) in
    0 < cprinter.strlen name ->
    count_byte "*" base = 0 ->
    strings.HasSuffix (stars ++ base) "]" = false ->
    strings.Contains (base ++ stars) "%s" = false ->
    cprinter.FormatPair SEMI COMMA Sprintf (cprinter.mkPair name (stars ++ base))
        cprinter.PARAM p =
      Some (((base ++ stars) ++ " " ++ name) ++ COMMA, p, "").
Proof.
  intros SEMI COMMA Sprintf name base n p stars Hn Hb Hs Hv.
  unfold cprinter.FormatPair. cbn [cprinter.Name cprinter.Value].
  rewrite Hs.
  assert (Hpre : strings.HasPrefix (stars ++ base) "*" = true).
  { unfold strings.HasPrefix, stars. cbn [strings.repeat_nat append String.prefix].
    destruct (ascii_dec "*" "*") as [_ | N]; [| now elim N]. apply prefix_nil. }
  rewrite Hpre.
  assert (Hi : strings.LastIndex (stars ++ base) "*" + 1 = Z.of_nat (String.length stars)).
  { unfold strings.LastIndex, stars. rewrite LastIndex_from_stars by (auto; lia).
    rewrite repeat_nat_length. lia. }
  rewrite Hi.
  assert (Hfrom : strings.slice_from (stars ++ base) (Z.of_nat (String.length stars)) = base).
  { unfold strings.slice_from. rewrite Nat2Z.id, length_app_s.
    replace (String.length stars + String.length base - String.length stars)%nat
      with (String.length base) by lia.
    apply substring_app_r. }
  assert (Hto : strings.slice_to (stars ++ base) (Z.of_nat (String.length stars)) = stars).
  { unfold strings.slice_to. rewrite Nat2Z.id. apply substring_app_l. }
  rewrite Hfrom, Hto.
  cbn [cprinter.FieldType_eqb andb]. rewrite Hv.
  apply Z.ltb_lt in Hn. rewrite Hn.
  assert (Hpos : (0 <? cprinter.strlen (base ++ stars)) = true).
  { apply Z.ltb_lt. unfold cprinter.strlen, stars. rewrite length_app_s, repeat_nat_length. lia. }
  rewrite Hpos. reflexivity.
Qed.

Lemma pointer_declarator_witness :
  cprinter.FormatPair ex_SEMI ex_COMMA Sprintf_s
      (cprinter.mkPair "p" (strings.repeat_nat "*" (S 1) ++ "T")) cprinter.PARAM printer0 =
    Some ((("T" ++ strings.repeat_nat "*" (S 1)) ++ " " ++ "p") ++ ex_COMMA, printer0, "").
Proof.
  apply (pointer_declarator ex_SEMI ex_COMMA Sprintf_s "p" "T" 1 printer0); reflexivity.
Defined.

(** ** The C printer: array declarators *)

Lemma LastIndex_from_last (c : ascii) (a b : string) : forall i : Z,
  0 <= i ->
  count_byte c b = 0 ->
  strings.LastIndex_from (a ++ String c b) (String c "") i = i + Z.of_nat (String.length a).
Proof.
  induction a as [| d a IH]; intros i Hi Hb; cbn [append strings.LastIndex_from String.length].
  - rewrite LastIndex_from_absent by exact Hb. cbn [Z.leb Z.compare String.prefix].
    destruct (ascii_dec c c) as [_ | N]; [| now elim N].
    rewrite prefix_nil. cbn. lia.
  - rewrite IH by (auto; lia).
    destruct (Z.leb_spec 0 (i + 1 + Z.of_nat (String.length a))) as [_ | H]; lia.
Qed.

Lemma HasSuffix_app (a suf : string) : strings.HasSuffix (a ++ suf) suf = true.
Proof.
  unfold strings.HasSuffix. rewrite length_app_s.
  destruct (Nat.leb_spec (String.length suf) (String.length a + String.length suf)) as [_ | H];
    [| lia].
  replace (String.length a + String.length suf - String.length suf)%nat
    with (String.length a) by lia.
  rewrite substring_app_r. apply String.eqb_refl.
Qed.

(** X25.  An array type, which [FormatArray] renders as the element
    type followed by the length in brackets, is declared the C way by
    [FormatPair]: for a named parameter the brackets move behind the
    name.  (For a length that holds no ["["] and an element type that is
    not empty, is no pointer and holds no verb.) *)
Theorem array_declarator :
  forall (SEMI COMMA : string) (Sprintf : string -> list string -> string)
         (name len elt : string) (p : cprinter.CPrinter),
    0 < cprinter.strlen name ->
    0 < cprinter.strlen elt ->
    count_byte "[" len = 0 ->
    strings.HasPrefix elt "*" = false ->
    strings.Contains elt "%s" = false ->
    cprinter.FormatPair SEMI COMMA Sprintf
        (cprinter.mkPair name (cprinter.FormatArray len elt)) cprinter.PARAM p =
      Some ((elt ++ " " ++ name ++ "[" ++ len ++ "]") ++ COMMA, p, "").
Proof.
  intros SEMI COMMA Sprintf name len elt p Hn He Hl Hp Hv.
  unfold cprinter.FormatPair, cprinter.FormatArray. cbn [cprinter.Name cprinter.Value].
  assert (Hs : strings.HasSuffix (elt ++ "[" ++ len ++ "]") "]" = true).
  { replace (elt ++ "[" ++ len ++ "]") with ((elt ++ "[" ++ len) ++ "]")
      by (rewrite !append_assoc_s; reflexivity).
    apply HasSuffix_app. }
  rewrite Hs.
  assert (Hi : strings.LastIndex (elt ++ "[" ++ len ++ "]") "[" = Z.of_nat (String.length elt)).
  { unfold strings.LastIndex. cbn [append].
    rewrite LastIndex_from_last; [lia | lia |].
    rewrite count_byte_app, Hl. reflexivity. }
  rewrite Hi.
  destruct (Z.ltb_spec (Z.of_nat (String.length elt)) 0) as [H | _]; [lia |].
  assert (Hfrom : strings.slice_from (elt ++ "[" ++ len ++ "]") (Z.of_nat (String.length elt))
                  = "[" ++ len ++ "]").
  { unfold strings.slice_from. rewrite Nat2Z.id, length_app_s.
    replace (String.length elt + String.length ("[" ++ len ++ "]") - String.length elt)%nat
      with (String.length ("[" ++ len ++ "]")) by lia.
    apply substring_app_r. }
  assert (Hto : strings.slice_to (elt ++ "[" ++ len ++ "]") (Z.of_nat (String.length elt)) = elt).
  { unfold strings.slice_to. rewrite Nat2Z.id. apply substring_app_l. }
  rewrite Hfrom, Hto.
  apply Z.ltb_lt in Hn. rewrite Hn. rewrite Hp.
  cbn [cprinter.FieldType_eqb andb]. rewrite Hv.
  assert (Hpos : (0 <? cprinter.strlen (name ++ "[" ++ len ++ "]")) = true).
  { apply Z.ltb_lt. apply Z.ltb_lt in Hn. unfold cprinter.strlen in *.
    rewrite length_app_s. lia. }
  rewrite Hpos. apply Z.ltb_lt in He. rewrite He.
  cbn. rewrite !append_assoc_s. reflexivity.
Qed.

Lemma array_declarator_witness :
  cprinter.FormatPair ex_SEMI ex_COMMA Sprintf_s
      (cprinter.mkPair "a" (cprinter.FormatArray "3" "int")) cprinter.PARAM printer0 =
    Some (("int" ++ " " ++ "a" ++ "[" ++ "3" ++ "]") ++ ex_COMMA, printer0, "").
Proof.
  apply (array_declarator ex_SEMI ex_COMMA Sprintf_s "a" "3" "int" printer0); reflexivity.
Defined.
(** ** The C printer: the names of deferred calls *)

Lemma deferred_kept_same (A : Type) (d : option Z) (m : cprinter.P A) :
  (forall p a p' o, m p = Some (a, p', o) -> cprinter.ctx p' = cprinter.ctx p) ->
  deferred_kept d m.
Proof. intros H p a p' o Hd E. now rewrite (H _ _ _ _ E). Qed.

Lemma deferred_kept_ret (A : Type) (d : option Z) (a : A) : deferred_kept d (cprinter.ret a).
Proof. apply deferred_kept_same. now intros p x p' o [= _ <- _]. Qed.

Lemma deferred_kept_panic (A : Type) (d : option Z) : deferred_kept d (@cprinter.panic A).
Proof. intros p a p' o _ E. discriminate E. Qed.

Lemma deferred_kept_Fprint (d : option Z) (s : string) : deferred_kept d (cprinter.Fprint s).
Proof. apply deferred_kept_same. now intros p x p' o [= _ <- _]. Qed.

Lemma deferred_kept_UpdateLevel (d : option Z) (delta : Z) :
  deferred_kept d (cprinter.UpdateLevel delta).
Proof. apply deferred_kept_same. now intros p x p' o [= _ <- _]. Qed.

Lemma deferred_kept_SameLine (d : option Z) : deferred_kept d cprinter.SameLine.
Proof. apply deferred_kept_same. now intros p x p' o [= _ <- _]. Qed.

Lemma deferred_kept_indent (d : option Z) : deferred_kept d cprinter.indent.
Proof.
  apply deferred_kept_same. intros p x p' o E.
  unfold cprinter.indent, cprinter.bind, cprinter.get, cprinter.put, cprinter.ret,
    cprinter.panic in E.
  destruct (cprinter.sameline p).
  - now injection E as _ <- _.
  - destruct (strings.Repeat "  " (cprinter.level p)); [| discriminate].
    now injection E as _ <- _.
Qed.

Lemma deferred_kept_bind (A B : Type) (d : option Z) (m : cprinter.P A)
    (f : A -> cprinter.P B) :
  deferred_kept d m -> (forall a, deferred_kept d (f a)) ->
  deferred_kept d (cprinter.bind m f).
Proof.
  intros Hm Hf p b p' o Hd E. unfold cprinter.bind in E.
  destruct (m p) as [[[a p1] o1] |] eqn:Em; [| discriminate].
  destruct (f a p1) as [[[b' p2] o2] |] eqn:Ef; [| discriminate].
  injection E as _ <- _.
  eapply Hf; [| exact Ef]. eapply Hm; eauto.
Qed.

(** What [p.ctx] reads is the context the counter is in. *)
Lemma deferred_kept_get_ctx (B : Type) (d : option Z) (f : cprinter.CContext -> cprinter.P B) :
  (forall c, Some (cprinter.deferred c) = d -> deferred_kept d (f c)) ->
  deferred_kept d (cprinter.bind cprinter.get_ctx f).
Proof.
  intros Hf p b p' o Hd E. unfold cprinter.bind, cprinter.get_ctx in E.
  destruct (cprinter.ctx p) as [| c rest] eqn:Ec; [discriminate |].
  destruct (f c p) as [[[b' p2] o2] |] eqn:Ef; [| discriminate].
  injection E as _ <- _.
  eapply (Hf c); [| | exact Ef]; rewrite <- Hd, ?Ec; reflexivity.
Qed.

Lemma deferred_kept_get (B : Type) (d : option Z) (f : cprinter.CPrinter -> cprinter.P B) :
  (forall q, top_deferred (cprinter.ctx q) = d -> deferred_kept d (f q)) ->
  deferred_kept d (cprinter.bind cprinter.get f).
Proof.
  intros Hf p b p' o Hd E. unfold cprinter.bind, cprinter.get in E.
  destruct (f p p) as [[[b' p2] o2] |] eqn:Ef; [| discriminate].
  injection E as _ <- _.
  eapply (Hf p); eauto.
Qed.

Lemma deferred_kept_set_ctx (d : option Z) (c : cprinter.CContext) :
  Some (cprinter.deferred c) = d -> deferred_kept d (cprinter.set_ctx c).
Proof.
  intros Hc p a p' o _ E. unfold cprinter.set_ctx in E.
  destruct (cprinter.ctx p); [discriminate |].
  injection E as _ <- _. exact Hc.
Qed.

Ltac deferred_kept_step :=
  lazymatch goal with
  | |- deferred_kept _ (cprinter.ret _) => apply deferred_kept_ret
  | |- deferred_kept _ cprinter.panic => apply deferred_kept_panic
  | |- deferred_kept _ (cprinter.Fprint _) => apply deferred_kept_Fprint
  | |- deferred_kept _ (cprinter.UpdateLevel _) => apply deferred_kept_UpdateLevel
  | |- deferred_kept _ cprinter.SameLine => apply deferred_kept_SameLine
  | |- deferred_kept _ cprinter.indent => apply deferred_kept_indent
  | |- deferred_kept _ (cprinter.Print _) => apply deferred_kept_Fprint
  | |- deferred_kept _ (cprinter.set_ctx _) =>
      apply deferred_kept_set_ctx; cbn [cprinter.deferred top_deferred] in *; assumption
  | |- deferred_kept _ (cprinter.PrintLevel _ _) => unfold cprinter.PrintLevel
  | |- deferred_kept _ (cprinter.FormatIdent _) => unfold cprinter.FormatIdent
  | |- deferred_kept _ (cprinter.bind cprinter.get_ctx _) =>
      apply deferred_kept_get_ctx; intros ? ?
  | |- deferred_kept _ (cprinter.bind cprinter.get _) =>
      apply deferred_kept_get; intros ? ?
  | |- deferred_kept _ (cprinter.bind _ _) => apply deferred_kept_bind; [| intros ?]
  | H : top_deferred (cprinter.ctx ?q) = _
    |- deferred_kept _ (match cprinter.ctx ?q with _ => _ end) =>
      destruct (cprinter.ctx q); cbn [top_deferred] in H
  | |- deferred_kept _ (match ?x with _ => _ end) => destruct x
  end.

Lemma deferred_kept_PrintStmt (d : option Z) (SEMI stmt expr : string) :
  String.eqb stmt "defer" = false ->
  deferred_kept d (cprinter.PrintStmt SEMI stmt expr).
Proof.
  intros H. unfold cprinter.PrintStmt. rewrite H.
  repeat deferred_kept_step.
Qed.

(** Every announcement but that of a deferred call leaves the counter
    as it is; a scope does so whatever is deferred inside it. *)
Lemma deferred_kept_announce (NONE SEMI COLON COMMA : string)
    (Sprintf : string -> list string -> string) (d : option Z) (a : Announcement) :
  is_defer a = false ->
  deferred_kept d (announce NONE SEMI COLON COMMA Sprintf a).
Proof.
  intros Ha.
  destruct a; cbn [announce];
    try (unfold drop, cprinter.PrintLevelIn, cprinter.PrintBlockStart, cprinter.PrintBlockEnd,
           cprinter.PrintPackage, cprinter.PrintImport, cprinter.PrintType,
           cprinter.PrintValue, cprinter.PrintFunc,
           cprinter.PrintFor, cprinter.PrintRange, cprinter.PrintSwitch,
           cprinter.PrintCase, cprinter.PrintEndCase, cprinter.PrintIf,
           cprinter.PrintElse, cprinter.PrintEmpty, cprinter.PrintAssignment,
           cprinter.PrintSend, cprinter.FormatSelector, cprinter.FormatPair;
         repeat deferred_kept_step; fail).
  - (* PrintStmt *)
    apply deferred_kept_PrintStmt. exact Ha.
  - (* PrintReturn *)
    unfold cprinter.PrintReturn.
    apply deferred_kept_bind; [repeat deferred_kept_step |].
    intros e. apply deferred_kept_PrintStmt. reflexivity.
  - (* a scope *)
    apply deferred_kept_same. intros p x p' o E.
    pose proof (scoped_announce NONE SEMI COLON COMMA Sprintf (AScope body) p x p' o E) as T.
    destruct T as [T | (c & c' & rest & E1 & E2)]; [exact T |].
    change (announce NONE SEMI COLON COMMA Sprintf (AScope body))
      with (cprinter.bind cprinter.PushContext
              (fun _ => cprinter.bind (announce_list NONE SEMI COLON COMMA Sprintf body)
                          (fun _ => cprinter.PopContext))) in E.
    eapply scope_restores; [| exact E].
    apply scoped_announce_list.
    clear. induction body as [| a body IH];
      [constructor | constructor; [apply scoped_announce | exact IH]].
Qed.

Lemma PrintStmt_defer_context (SEMI expr : string) (p p' : cprinter.CPrinter) (o : string)
    (c : cprinter.CContext) (rest : list cprinter.CContext) :
  cprinter.PrintStmt SEMI "defer" expr p = Some (tt, p', o) ->
  cprinter.ctx p = c :: rest ->
  cprinter.ctx p' = with_deferred c (wrap (cprinter.deferred c + 1)) :: rest.
Proof.
  intros E Ec. unfold cprinter.PrintStmt in E.
  change (("defer" =? "go")%string) with false in E.
  change (("defer" =? "defer")%string) with true in E.
  cbv iota in E.
  unfold cprinter.bind at 1 in E. unfold cprinter.get_ctx in E. rewrite Ec in E.
  unfold cprinter.bind at 1 in E.
  match type of E with
  | context [cprinter.PrintLevel ?t ?v p] =>
      destruct (cprinter.PrintLevel t v p) as [[[u p1] o1] |] eqn:El; [| discriminate]
  end.
  assert (Ec1 : cprinter.ctx p1 = c :: rest).
  { unfold cprinter.PrintLevel, cprinter.indent, cprinter.bind, cprinter.get, cprinter.put,
      cprinter.ret, cprinter.panic, cprinter.Fprint in El.
    destruct (cprinter.sameline p).
    - injection El as _ <- _. exact Ec.
    - destruct (strings.Repeat "  " (cprinter.level p)); [| discriminate].
      injection El as _ <- _. exact Ec. }
  unfold cprinter.set_ctx in E. rewrite Ec1 in E.
  injection E as <- _. reflexivity.
Qed.

(** The counter of the current context after a body: it has gone up by
    one for each deferred call of the body. *)
Lemma announce_list_deferred (NONE SEMI COLON COMMA : string)
    (Sprintf : string -> list string -> string) (body : list Announcement) :
  forall (p p' : cprinter.CPrinter) (o : string) (c : cprinter.CContext)
         (rest : list cprinter.CContext),
    announce_list NONE SEMI COLON COMMA Sprintf body p = Some (tt, p', o) ->
    cprinter.ctx p = c :: rest ->
    0 <= cprinter.deferred c ->
    cprinter.deferred c + Z.of_nat (defers body) < 2 ^ 63 ->
    exists c' : cprinter.CContext,
      cprinter.ctx p' = c' :: rest
      /\ cprinter.deferred c' = cprinter.deferred c + Z.of_nat (defers body).
Proof.
  induction body as [| a body IH]; intros p p' o c rest E Ec H0 Hn.
  - cbn in E. injection E as <- _. exists c. split; [exact Ec |]. cbn. lia.
  - cbn [announce_list] in E. unfold cprinter.bind in E.
    destruct (announce NONE SEMI COLON COMMA Sprintf a p) as [[[u p1] o1] |] eqn:Ea;
      [| discriminate].
    destruct (announce_list NONE SEMI COLON COMMA Sprintf body p1) as [[[u2 p2] o2] |] eqn:Eb;
      [| discriminate].
    destruct u, u2. injection E as <- _.
    unfold defers in *. cbn [filter] in *.
    destruct (is_defer a) eqn:Hd.
    + (* a deferred call *)
      cbn [List.length] in *.
      destruct a; try discriminate Hd. cbn [is_defer] in Hd.
      apply String.eqb_eq in Hd. subst stmt. cbn [announce] in Ea.
      pose proof (PrintStmt_defer_context _ _ _ _ _ _ _ Ea Ec) as Ec1.
      rewrite wrap_small in Ec1 by (unfold int_range; lia).
      destruct (IH p1 p2 o2 _ rest Eb Ec1) as [c' [Ec' Hc']];
        cbn [with_deferred cprinter.deferred]; try lia.
      exists c'. split; [exact Ec' |].
      rewrite Hc'. cbn [with_deferred cprinter.deferred]. lia.
    + (* any other announcement *)
      pose proof (scoped_announce NONE SEMI COLON COMMA Sprintf a p tt p1 o1 Ea) as T.
      pose proof (deferred_kept_announce NONE SEMI COLON COMMA Sprintf
                    (Some (cprinter.deferred c)) a Hd p tt p1 o1) as K.
      rewrite Ec in K. specialize (K eq_refl Ea).
      assert (Ec1 : exists c1, cprinter.ctx p1 = c1 :: rest
                               /\ cprinter.deferred c1 = cprinter.deferred c).
      { destruct T as [T | (x & x' & r & E1 & E2)].
        - exists c. split; [now rewrite T | reflexivity].
        - rewrite Ec in E1. injection E1 as <- <-.
          rewrite E2 in K. cbn [top_deferred] in K. injection K as K.
          exists x'. now split. }
      destruct Ec1 as [c1 [Ec1 Hc1]].
      destruct (IH p1 p2 o2 c1 rest Eb Ec1) as [c' [Ec' Hc']]; try lia.
      exists c'. split; [exact Ec' | lia].
Qed.

Lemma defers_app (l1 l2 : list Announcement) :
  defers (l1 ++ l2) = (defers l1 + defers l2)%nat.
Proof. unfold defers. now rewrite filter_app, length_app. Qed.

(** C3.  In the scope of a function (a freshly pushed context), whatever
    has been announced before it (any calls on the printer but [Reset]:
    statements, declarations, blocks, whole scopes of functions nested
    in this one), a deferred call
    renders as a [Deferred] wrapper holding the call, named by the
    counter of the context: [defer0] if no call was deferred before it
    in this scope, [defer<n>] after [n] deferred calls, the calls
    deferred in nested scopes not counted; and the counter goes up by
    one.  Two different counts give two different names, so a deferred
    call and any later one of the same body are named differently.
    (The line is written at a level it can be indented at, from 0 up
    to, and without, 2^62, and the count stays in the range of a Go
    [int].) *)
Theorem deferred_wrappers :
  forall (NONE SEMI COLON COMMA : string) (Sprintf : string -> list string -> string)
         (before : list Announcement) (expr : string)
         (p p1 : cprinter.CPrinter) (o : string),
    (cprinter.PushContext ;;
     announce_list NONE SEMI COLON COMMA Sprintf before)%cp p = Some (tt, p1, o) ->
    0 <= cprinter.level p1 < 2 ^ 62 ->
    Z.of_nat (defers before) < 2 ^ 63 - 1 ->
    let n := Z.of_nat (defers before) in
    (exists c : cprinter.CContext,
        cprinter.ctx p1 = c :: cprinter.ctx p
        /\ cprinter.deferred c = n
        /\ cprinter.PrintStmt SEMI "defer" expr p1 =
             Some (tt,
                   cprinter.mkCPrinter (cprinter.level p1) false
                     (with_deferred c (n + 1) :: cprinter.ctx p),
                   indent_text (cprinter.level p1) (cprinter.sameline p1)
                     ++ deferred_wrapper ("defer" ++ Itoa n) expr ++ SEMI))
    /\ (forall between : list Announcement,
          "defer" ++ Itoa n <>
          "defer" ++ Itoa (Z.of_nat (defers (before ++ APrintStmt "defer" expr :: between))))
    /\ (forall i j : Z, i <> j -> "defer" ++ Itoa i <> "defer" ++ Itoa j).
Proof.
  intros NONE SEMI COLON COMMA Sprintf before expr p p1 o E Hl Hn. cbv zeta.
  assert (Names : forall i j : Z, i <> j -> "defer" ++ Itoa i <> "defer" ++ Itoa j).
  { intros i j Hij Eq. apply Hij, Itoa_inj. cbn in Eq. now injection Eq. }
  split; [| split; [| exact Names]].
  - unfold cprinter.bind at 1 in E.
    cbn [cprinter.PushContext cprinter.bind cprinter.get cprinter.put] in E.
    match type of E with
    | context [announce_list _ _ _ _ _ _ ?q] =>
        destruct (announce_list NONE SEMI COLON COMMA Sprintf before q)
          as [[[u p2] o2] |] eqn:Eb; [| discriminate]
    end.
    destruct u. injection E as -> _.
    destruct (announce_list_deferred _ _ _ _ _ _ _ _ _ cprinter.new_context
                (cprinter.ctx p) Eb eq_refl) as [c [Ec Hc]];
      cbn [cprinter.new_context cprinter.deferred]; try lia.
    cbn [cprinter.new_context cprinter.deferred] in Hc.
    exists c. split; [exact Ec |]. split; [lia |].
    destruct p1 as [l s cs]. cbn [cprinter.ctx cprinter.level cprinter.sameline] in *.
    subst cs.
    rewrite PrintStmt_defer by exact Hl.
    rewrite Hc, Z.add_0_l.
    rewrite wrap_small by (unfold int_range; lia).
    reflexivity.
  - intros between. apply Names.
    rewrite defers_app.
    change (defers (APrintStmt "defer" expr :: between)) with (S (defers between)).
    lia.
Qed.

Lemma deferred_wrappers_witness :
  let p := cprinter.mkCPrinter 0 false [] in
  let c := cprinter.mkCContext 1 1 "r" "" "" in
  let p1 := cprinter.mkCPrinter 1 false [c] in
  let header := "int /* r */ T::Get() {" ++ NL ++
                "  Deferred defer0([](){ f(); });" ++ NL ++
                "  Deferred defer0([](){ g(); });" ++ NL ++
                "  n = 1;" ++ NL in
  (cprinter.PushContext ;;
   announce_list ex_NONE ex_SEMI ":" ex_COMMA Sprintf_s body_with_defers)%cp p =
     Some (tt, p1, header)
  /\ exists c' : cprinter.CContext,
       cprinter.ctx p1 = c' :: cprinter.ctx p
       /\ cprinter.deferred c' = Z.of_nat (defers body_with_defers)
       /\ cprinter.PrintStmt ex_SEMI "defer" "h()" p1 =
            Some (tt,
                  cprinter.mkCPrinter (cprinter.level p1) false
                    (with_deferred c' (Z.of_nat (defers body_with_defers) + 1)
                       :: cprinter.ctx p),
                  indent_text (cprinter.level p1) (cprinter.sameline p1)
                    ++ deferred_wrapper
                         ("defer" ++ Itoa (Z.of_nat (defers body_with_defers))) "h()"
                    ++ ex_SEMI).
Proof.
  cbv zeta.
  assert (E : (cprinter.PushContext ;;
               announce_list ex_NONE ex_SEMI ":" ex_COMMA Sprintf_s body_with_defers)%cp
                (cprinter.mkCPrinter 0 false []) =
              Some (tt, cprinter.mkCPrinter 1 false [cprinter.mkCContext 1 1 "r" "" ""],
                    "int /* r */ T::Get() {" ++ NL ++
                    "  Deferred defer0([](){ f(); });" ++ NL ++
                    "  Deferred defer0([](){ g(); });" ++ NL ++
                    "  n = 1;" ++ NL))
    by (vm_compute; reflexivity).
  split; [exact E |].
  assert (Hl : 0 <= 1 < 2 ^ 62) by lia.
  assert (Hn : Z.of_nat (defers body_with_defers) < 2 ^ 63 - 1)
    by (vm_compute; reflexivity).
  exact (proj1 (deferred_wrappers ex_NONE ex_SEMI ":" ex_COMMA Sprintf_s body_with_defers
                  "h()" (cprinter.mkCPrinter 0 false [])
                  (cprinter.mkCPrinter 1 false [cprinter.mkCContext 1 1 "r" "" ""])
                  _ E Hl Hn)).
Defined.

(** The deferred call after [body_with_defers] is the second of its
    scope: it is named [defer1]. *)
Example deferred_after_scope :
  (cprinter.PushContext ;;
   announce_list ex_NONE ex_SEMI ":" ex_COMMA Sprintf_s
     (body_with_defers ++ [APrintStmt "defer" "h()"]))%cp (cprinter.mkCPrinter 0 false []) =
    Some (tt, cprinter.mkCPrinter 1 false [cprinter.mkCContext 1 2 "r" "" ""],
          "int /* r */ T::Get() {" ++ NL ++
          "  Deferred defer0([](){ f(); });" ++ NL ++
          "  Deferred defer0([](){ g(); });" ++ NL ++
          "  n = 1;" ++ NL ++
          "  Deferred defer1([](){ h(); });" ++ NL).
Proof. vm_compute. reflexivity. Qed.
